(** * Credential vault, configuration validator and tenant isolation

    A shallow embedding of the security core of the assistant server:

    - the row-level-security policies, the retention helper and the foreign
      keys declared in [server/db/schema.ts] (the SQL migration text),
    - the boot-time configuration validator (the zod schema, its
      [transform] and the loading of the environment files),
    - the token cipher ([getKey], [encryptToB64], [decryptFromB64]) and
      [constantTimeEqual],
    - the drizzle table definitions of [server/db/schema.ts] beside the
      migration, the build script and the entry point of the server
      ([readBuildInfo], the routes, the port).

    Library primitives the code calls but does not define (the random source
    and AES-256-GCM of [node:crypto], zod's URL, e-mail and number coercion
    checks, PostgreSQL's text-to-uuid cast) are interfaces (type classes),
    and the code of the repository is written over them; Part 5 gives a
    reference implementation of each.  UTF-8, base64 and JSON are defined
    here as Node implements them.  The definitions come first (Parts 1 to
    6), the proofs after them. *)

From Stdlib Require Import ZArith NArith QArith Lia ZifyBool ZifyNat ZifyN Ascii.
From stdpp Require Import base option list strings gmap.

Set Default Proof Using "Type".
Close Scope Q_scope.
Open Scope Z_scope.

(** ** Outcomes of fallible code *)

Inductive Result (E A : Type) : Type :=
| Ok (a : A)
| Err (e : E).
Arguments Ok {E A} a.
Arguments Err {E A} e.

Definition bind {E A B} (r : Result E A) (k : A -> Result E B) : Result E B :=
  match r with
  | Ok a => k a
  | Err e => Err e
  end.

Notation "x <-- r ;; k" := (bind r (fun x => k))
  (at level 100, r at next level, right associativity).
Notation "r ;;; k" := (bind r (fun _ => k))
  (at level 100, right associativity).

Definition is_ok {E A} (r : Result E A) : bool :=
  match r with Ok _ => true | Err _ => false end.

(** ** Part 1. The storage layer: row-level security and retention
    ([server/db/schema.ts], SQL section) *)

(** [uuid] values, as 128-bit numbers. *)
Definition uuid := N.


(** The nine tables of the migration. *)
Inductive table_name : Set :=
| tenants | users | auth_accounts | mailboxes | tasklists | messages
| routing_rules | onboarding_sessions | activity_logs.

#[global] Instance table_name_eq_dec : EqDecision table_name.
Proof. solve_decision. Defined.







(** [ALTER TABLE ... ENABLE ROW LEVEL SECURITY] *)
Definition rls_enabled_tables : list table_name :=
  [tenants; users; auth_accounts; mailboxes; tasklists; messages;
   routing_rules; onboarding_sessions; activity_logs].







(** *** The engine's side: sessions, expression evaluation, policy
    combination.  This is PostgreSQL's documented behaviour, which the
    migration relies on. *)



















(** *** The retention helper *)







(** *** A reference text-to-uuid cast

    PostgreSQL's input routine for [uuid]: an optional opening brace,
    sixteen bytes of two hexadecimal digits each, an optional hyphen after
    every second byte except the last, the closing brace if one was opened,
    and nothing else. *)











(** ** Part 2. The JavaScript values the server code handles *)

(** A JavaScript string is a sequence of UTF-16 code units, a [Buffer] a
    sequence of bytes. *)
Definition jsstring := list N.
Definition bytes := list N.

Definition is_jsstring (s : jsstring) : Prop := Forall (fun u => (u < 65536)%N) s.
Definition is_bytes (b : bytes) : Prop := Forall (fun x => (x < 256)%N) b.

Definition chr (c : ascii) : N := N_of_ascii c.

(** String literals of the source (ASCII). *)
Fixpoint js (s : string) : jsstring :=
  match s with
  | EmptyString => []
  | String c s' => chr c :: js s'
  end.

Definition jsstring_eqb (a b : jsstring) : bool := bool_decide (a = b).

(** JavaScript truthiness of [string | undefined]: [!v] is false exactly
    for a non-empty string. *)
Definition truthy (v : option jsstring) : bool :=
  match v with
  | Some (_ :: _) => true
  | _ => false
  end.

Section Primitives.
Local Open Scope N_scope.

(** *** [String.prototype.toLowerCase]

    Exact on ASCII and on the two characters outside ASCII whose lower
    case contains an ASCII letter (U+212A KELVIN SIGN and U+0130); every
    other code unit is kept, its lower case being non-ASCII as well. *)
Definition lower_unit (u : N) : list N :=
  if (65 <=? u) && (u <=? 90) then [u + 32]
  else if u =? 0x212A then [107]
  else if u =? 0x0130 then [105; 0x0307]
  else [u].

Definition toLowerCase (s : jsstring) : jsstring := flat_map lower_unit s.

(** *** [String.prototype.trim] and [split(',')] *)
Definition is_js_whitespace (u : N) : bool :=
  ((9 <=? u) && (u <=? 13)) || (u =? 32) || (u =? 0xA0) || (u =? 0x1680)
  || ((0x2000 <=? u) && (u <=? 0x200A)) || (u =? 0x2028) || (u =? 0x2029)
  || (u =? 0x202F) || (u =? 0x205F) || (u =? 0x3000) || (u =? 0xFEFF).

Fixpoint trim_start (s : jsstring) : jsstring :=
  match s with
  | u :: s' => if is_js_whitespace u then trim_start s' else s
  | [] => []
  end.

Definition trim (s : jsstring) : jsstring :=
  rev (trim_start (rev (trim_start s))).

Fixpoint split_on (sep : N) (cur : jsstring) (s : jsstring) : list jsstring :=
  match s with
  | [] => [rev cur]
  | u :: s' => if u =? sep then rev cur :: split_on sep [] s'
               else split_on sep (u :: cur) s'
  end.

Definition split_comma (s : jsstring) : list jsstring := split_on (chr ",") [] s.

(** *** UTF-8, as [Buffer] encodes and decodes it *)

Definition is_high_surrogate (u : N) : bool := (0xD800 <=? u) && (u <=? 0xDBFF).
Definition is_low_surrogate (u : N) : bool := (0xDC00 <=? u) && (u <=? 0xDFFF).

(** The bytes of one code point. *)
Definition utf8_of_code_point (cp : N) : bytes :=
  if cp <? 0x80 then [cp]
  else if cp <? 0x800 then [0xC0 + cp / 64; 0x80 + cp mod 64]
  else if cp <? 0x10000 then
    [0xE0 + cp / 4096; 0x80 + (cp / 64) mod 64; 0x80 + cp mod 64]
  else
    [0xF0 + cp / 262144; 0x80 + (cp / 4096) mod 64;
     0x80 + (cp / 64) mod 64; 0x80 + cp mod 64].

Definition replacement_character : N := 0xFFFD.

(** [Buffer.from(s, 'utf8')]: a surrogate pair is one code point, a
    surrogate without its partner is encoded as U+FFFD. *)
Fixpoint utf8_encode (s : jsstring) : bytes :=
  match s with
  | [] => []
  | u :: rest =>
      if is_high_surrogate u then
        match rest with
        | l :: rest' =>
            if is_low_surrogate l then
              utf8_of_code_point (0x10000 + (u - 0xD800) * 1024 + (l - 0xDC00))
                ++ utf8_encode rest'
            else utf8_of_code_point replacement_character ++ utf8_encode rest
        | [] => utf8_of_code_point replacement_character
        end
      else if is_low_surrogate u then
        utf8_of_code_point replacement_character ++ utf8_encode rest
      else utf8_of_code_point u ++ utf8_encode rest
  end.

(** [Buffer.byteLength(s, 'utf8')] *)
Definition byteLength (s : jsstring) : nat := length (utf8_encode s).

(** The code units of one code point. *)
Definition utf16_of_code_point (cp : N) : jsstring :=
  if cp <? 0x10000 then [cp]
  else [0xD800 + (cp - 0x10000) / 1024; 0xDC00 + (cp - 0x10000) mod 1024].

(** The decoder's state between bytes: at a character boundary, or inside
    a sequence with [needed] continuation bytes to come, the bits read so
    far, and the range the next byte must lie in. *)
Inductive utf8_state : Set :=
| Boundary
| Inside (needed : nat) (cp : N) (lower upper : N).

(** A byte read at a character boundary. *)
Definition utf8_lead (b : N) : jsstring * utf8_state :=
  if b <? 0x80 then ([b], Boundary)
  else if (0xC2 <=? b) && (b <=? 0xDF) then ([], Inside 1 (b - 0xC0) 0x80 0xBF)
  else if (0xE0 <=? b) && (b <=? 0xEF) then
    ([], Inside 2 (b - 0xE0)
                (if b =? 0xE0 then 0xA0 else 0x80)
                (if b =? 0xED then 0x9F else 0xBF))
  else if (0xF0 <=? b) && (b <=? 0xF4) then
    ([], Inside 3 (b - 0xF0)
                (if b =? 0xF0 then 0x90 else 0x80)
                (if b =? 0xF4 then 0x8F else 0xBF))
  else ([replacement_character], Boundary).

(** One step of the decoder.  A byte that cannot continue the sequence
    ends it with U+FFFD and is read again as a first byte. *)
Definition utf8_step (st : utf8_state) (b : N) : jsstring * utf8_state :=
  match st with
  | Boundary => utf8_lead b
  | Inside needed cp lower upper =>
      if (lower <=? b) && (b <=? upper) then
        let cp' := cp * 64 + (b - 0x80) in
        match needed with
        | 1%nat | 0%nat => (utf16_of_code_point cp', Boundary)
        | S n => ([], Inside n cp' 0x80 0xBF)
        end
      else
        let '(out, st') := utf8_lead b in
        (replacement_character :: out, st')
  end.

Fixpoint utf8_run (st : utf8_state) (bs : bytes) : jsstring :=
  match bs with
  | [] => match st with
          | Boundary => []
          | Inside _ _ _ _ => [replacement_character]
          end
  | b :: bs' => let '(out, st') := utf8_step st b in out ++ utf8_run st' bs'
  end.

(** [buf.toString('utf8')] *)
Definition utf8_decode (bs : bytes) : jsstring := utf8_run Boundary bs.

(** *** Base64, as [Buffer] encodes and decodes it *)

Definition base64_char (v : N) : N :=
  if v <? 26 then 65 + v
  else if v <? 52 then 97 + (v - 26)
  else if v <? 62 then 48 + (v - 52)
  else if v =? 62 then 43
  else 47.

Definition pad : N := 61.

(** [buf.toString('base64')] *)
Fixpoint base64_encode (bs : bytes) : jsstring :=
  match bs with
  | a :: b :: c :: rest =>
      [base64_char (a / 4); base64_char ((a mod 4) * 16 + b / 16);
       base64_char ((b mod 16) * 4 + c / 64); base64_char (c mod 64)]
        ++ base64_encode rest
  | [a; b] =>
      [base64_char (a / 4); base64_char ((a mod 4) * 16 + b / 16);
       base64_char ((b mod 16) * 4); pad]
  | [a] => [base64_char (a / 4); base64_char ((a mod 4) * 16); pad; pad]
  | [] => []
  end.

(** The value of a base64 character; the decoder accepts the standard and
    the URL-safe alphabet. *)
Definition unbase64 (c : N) : option N :=
  if (65 <=? c) && (c <=? 90) then Some (c - 65)
  else if (97 <=? c) && (c <=? 122) then Some (c - 97 + 26)
  else if (48 <=? c) && (c <=? 57) then Some (c - 48 + 52)
  else if (c =? 43) || (c =? 45) then Some 62
  else if (c =? 47) || (c =? 95) then Some 63
  else None.

(** The decoder skips characters outside the alphabets and stops at the
    first padding character. *)
Fixpoint base64_sextets (s : jsstring) : list N :=
  match s with
  | [] => []
  | c :: rest =>
      if c =? pad then []
      else match unbase64 c with
           | Some v => v :: base64_sextets rest
           | None => base64_sextets rest
           end
  end.

Fixpoint bytes_of_sextets (l : list N) : bytes :=
  match l with
  | a :: b :: c :: d :: rest =>
      [a * 4 + b / 16; (b mod 16) * 16 + c / 4; (c mod 4) * 64 + d]
        ++ bytes_of_sextets rest
  | [a; b; c] => [a * 4 + b / 16; (b mod 16) * 16 + c / 4]
  | [a; b] => [a * 4 + b / 16]
  | _ => []
  end.

(** [Buffer.from(s, 'base64')] *)
Definition base64_decode (s : jsstring) : bytes :=
  bytes_of_sextets (base64_sextets s).
End Primitives.

(** *** JSON *)

(** A parsed JSON value.  A number keeps its source text; an object keeps
    its members in source order. *)
#[warnings="-register-all"]
Inductive json : Type :=
| JNull
| JBool (b : bool)
| JNumber (text : jsstring)
| JString (s : jsstring)
| JArray (items : list json)
| JObject (members : list (jsstring * json)).

Section Json.
Local Open Scope N_scope.

Definition hex_char (v : N) : N :=
  if v <? 10 then 48 + v else 97 + (v - 10).

Definition unicode_escape (u : N) : jsstring :=
  [chr "\"; chr "u"; hex_char (u / 4096); hex_char ((u / 256) mod 16);
   hex_char ((u / 16) mod 16); hex_char (u mod 16)].

(** The escape of one code unit that is not part of a surrogate pair. *)
Definition quote_unit (u : N) : jsstring :=
  if u =? 8 then js "\b"
  else if u =? 9 then js "\t"
  else if u =? 10 then js "\n"
  else if u =? 12 then js "\f"
  else if u =? 13 then js "\r"
  else if u =? 34 then [chr "\"; 34]
  else if u =? 92 then js "\\"
  else if (u <? 32) || is_high_surrogate u || is_low_surrogate u then unicode_escape u
  else [u].

(** The characters of a string between the quotes, as [JSON.stringify]
    writes them: the two-character escapes, [\uXXXX] for the other control
    characters and for surrogates without a partner, and everything else
    (surrogate pairs included) as it is. *)
Fixpoint quote_chars (s : jsstring) : jsstring :=
  match s with
  | [] => []
  | u :: rest =>
      if is_high_surrogate u then
        match rest with
        | l :: rest' =>
            if is_low_surrogate l then u :: l :: quote_chars rest'
            else unicode_escape u ++ quote_chars rest
        | [] => unicode_escape u
        end
      else quote_unit u ++ quote_chars rest
  end.

Definition quote (s : jsstring) : jsstring := [34] ++ quote_chars s ++ [34].

Definition stringify_members (stringify : json -> jsstring) :=
  fix go (ms : list (jsstring * json)) : jsstring :=
    match ms with
    | [] => []
    | [(k, v)] => quote k ++ [chr ":"] ++ stringify v
    | (k, v) :: ms' => quote k ++ [chr ":"] ++ stringify v ++ [chr ","] ++ go ms'
    end.

Definition stringify_items (stringify : json -> jsstring) :=
  fix go (vs : list json) : jsstring :=
    match vs with
    | [] => []
    | [v] => stringify v
    | v :: vs' => stringify v ++ [chr ","] ++ go vs'
    end.

(** [JSON.stringify(v)] *)
Fixpoint stringify (v : json) : jsstring :=
  match v with
  | JNull => js "null"
  | JBool true => js "true"
  | JBool false => js "false"
  | JNumber text => text
  | JString s => quote s
  | JArray items => [chr "["] ++ stringify_items stringify items ++ [chr "]"]
  | JObject members => [chr "{"] ++ stringify_members stringify members ++ [chr "}"]
  end.

(** **** [JSON.parse] *)

Definition is_json_whitespace (u : N) : bool :=
  (u =? 32) || (u =? 9) || (u =? 10) || (u =? 13).

Fixpoint skip_ws (s : jsstring) : jsstring :=
  match s with
  | u :: s' => if is_json_whitespace u then skip_ws s' else s
  | [] => []
  end.

Definition unhex (c : N) : option N :=
  if (48 <=? c) && (c <=? 57) then Some (c - 48)
  else if (97 <=? c) && (c <=? 102) then Some (c - 87)
  else if (65 <=? c) && (c <=? 70) then Some (c - 55)
  else None.

Definition simple_escape (c : N) : option N :=
  if c =? 34 then Some 34
  else if c =? 92 then Some 92
  else if c =? 47 then Some 47
  else if c =? chr "b" then Some 8
  else if c =? chr "f" then Some 12
  else if c =? chr "n" then Some 10
  else if c =? chr "r" then Some 13
  else if c =? chr "t" then Some 9
  else None.

(** The rest of a string literal after its opening quote: the string and
    the input after the closing quote. *)
Fixpoint parse_string_chars (s : jsstring) : option (jsstring * jsstring) :=
  match s with
  | [] => None
  | c :: rest =>
      if c =? 34 then Some ([], rest)
      else if c =? 92 then
        match rest with
        | e :: rest1 =>
            if e =? chr "u" then
              match rest1 with
              | h1 :: h2 :: h3 :: h4 :: rest2 =>
                  match unhex h1, unhex h2, unhex h3, unhex h4 with
                  | Some a, Some b, Some c', Some d =>
                      match parse_string_chars rest2 with
                      | Some (str, out) =>
                          Some (a * 4096 + b * 256 + c' * 16 + d :: str, out)
                      | None => None
                      end
                  | _, _, _, _ => None
                  end
              | _ => None
              end
            else
              match simple_escape e with
              | Some u =>
                  match parse_string_chars rest1 with
                  | Some (str, out) => Some (u :: str, out)
                  | None => None
                  end
              | None => None
              end
        | [] => None
        end
      else if c <? 32 then None
      else
        match parse_string_chars rest with
        | Some (str, out) => Some (c :: str, out)
        | None => None
        end
  end.

Definition is_digit (c : N) : bool := (48 <=? c) && (c <=? 57).

Fixpoint take_digits (s : jsstring) : jsstring * jsstring :=
  match s with
  | c :: s' =>
      if is_digit c then let '(ds, out) := take_digits s' in (c :: ds, out)
      else ([], s)
  | [] => ([], [])
  end.

(** A number literal: an optional minus sign, an integer part without
    leading zeros, an optional fraction and an optional exponent. *)
Definition parse_number (s : jsstring) : option (jsstring * jsstring) :=
  let '(sign, s1) :=
    match s with
    | c :: s' => if c =? chr "-" then ([c], s') else ([], s)
    | [] => ([], s)
    end in
  let int_part :=
    match s1 with
    | c :: s' =>
        if c =? 48 then Some ([c], s')
        else if is_digit c then let '(ds, out) := take_digits s' in Some (c :: ds, out)
        else None
    | [] => None
    end in
  match int_part with
  | None => None
  | Some (ip, s2) =>
      let frac :=
        match s2 with
        | c :: s' =>
            if c =? chr "." then
              match take_digits s' with
              | ([], _) => None
              | (ds, out) => Some (c :: ds, out)
              end
            else Some ([], s2)
        | [] => Some ([], s2)
        end in
      match frac with
      | None => None
      | Some (fp, s3) =>
          let exp :=
            match s3 with
            | c :: s' =>
                if (c =? chr "e") || (c =? chr "E") then
                  let '(sg, s'') :=
                    match s' with
                    | c' :: t => if (c' =? chr "+") || (c' =? chr "-") then ([c'], t)
                                 else ([], s')
                    | [] => ([], s')
                    end in
                  match take_digits s'' with
                  | ([], _) => None
                  | (ds, out) => Some (c :: sg ++ ds, out)
                  end
                else Some ([], s3)
            | [] => Some ([], s3)
            end in
          match exp with
          | None => None
          | Some (ep, s4) => Some (sign ++ ip ++ fp ++ ep, s4)
          end
      end
  end.

Definition strip_prefix (p s : jsstring) : option jsstring :=
  if bool_decide (take (length p) s = p) then Some (drop (length p) s) else None.

(** A value, the members of an object after its opening brace, and the
    items of an array after its opening bracket.  [fuel] bounds the number
    of nested calls; every call consumes input, so the length of the text
    is enough. *)
Fixpoint parse_value (fuel : nat) (s : jsstring) : option (json * jsstring) :=
  match fuel with
  | O => None
  | S fuel' =>
      match skip_ws s with
      | [] => None
      | c :: rest =>
          if c =? 34 then
            match parse_string_chars rest with
            | Some (str, out) => Some (JString str, out)
            | None => None
            end
          else if c =? chr "{" then
            match skip_ws rest with
            | c' :: rest' =>
                if c' =? chr "}" then Some (JObject [], rest')
                else parse_members fuel' [] rest
            | [] => None
            end
          else if c =? chr "[" then
            match skip_ws rest with
            | c' :: rest' =>
                if c' =? chr "]" then Some (JArray [], rest')
                else parse_items fuel' [] rest
            | [] => None
            end
          else if c =? chr "t" then
            match strip_prefix (js "true") (c :: rest) with
            | Some out => Some (JBool true, out)
            | None => None
            end
          else if c =? chr "f" then
            match strip_prefix (js "false") (c :: rest) with
            | Some out => Some (JBool false, out)
            | None => None
            end
          else if c =? chr "n" then
            match strip_prefix (js "null") (c :: rest) with
            | Some out => Some (JNull, out)
            | None => None
            end
          else
            match parse_number (c :: rest) with
            | Some (text, out) => Some (JNumber text, out)
            | None => None
            end
      end
  end
with parse_members (fuel : nat) (acc : list (jsstring * json)) (s : jsstring)
    : option (json * jsstring) :=
  match fuel with
  | O => None
  | S fuel' =>
      match skip_ws s with
      | c :: rest =>
          if c =? 34 then
            match parse_string_chars rest with
            | Some (key, s1) =>
                match skip_ws s1 with
                | c1 :: s2 =>
                    if c1 =? chr ":" then
                      match parse_value fuel' s2 with
                      | Some (v, s3) =>
                          match skip_ws s3 with
                          | c3 :: s4 =>
                              if c3 =? chr "," then
                                parse_members fuel' (acc ++ [(key, v)]) s4
                              else if c3 =? chr "}" then
                                Some (JObject (acc ++ [(key, v)]), s4)
                              else None
                          | [] => None
                          end
                      | None => None
                      end
                    else None
                | [] => None
                end
            | None => None
            end
          else None
      | [] => None
      end
  end
with parse_items (fuel : nat) (acc : list json) (s : jsstring)
    : option (json * jsstring) :=
  match fuel with
  | O => None
  | S fuel' =>
      match parse_value fuel' s with
      | Some (v, s1) =>
          match skip_ws s1 with
          | c :: s2 =>
              if c =? chr "," then parse_items fuel' (acc ++ [v]) s2
              else if c =? chr "]" then Some (JArray (acc ++ [v]), s2)
              else None
          | [] => None
          end
      | None => None
      end
  end.

(** [JSON.parse(text)]: one value, then nothing but white space;
    [None] is the [SyntaxError]. *)
Definition JSON_parse (text : jsstring) : option json :=
  match parse_value (2 * length text + 2) text with
  | Some (v, rest) =>
      match skip_ws rest with
      | [] => Some v
      | _ => None
      end
  | None => None
  end.

(** Reading a property of a parsed object: with a repeated key the last
    member counts. *)
Fixpoint get_member (k : jsstring) (members : list (jsstring * json)) : option json :=
  match members with
  | [] => None
  | (k', v) :: ms =>
      match get_member k ms with
      | Some v' => Some v'
      | None => if jsstring_eqb k' k then Some v else None
      end
  end.
End Json.

(** [String.prototype.isWellFormed]: no surrogate stands without its
    partner (and every element is a code unit). *)
Fixpoint isWellFormed (s : jsstring) : bool :=
  match s with
  | [] => true
  | u :: rest =>
      if is_high_surrogate u then
        match rest with
        | l :: rest' => is_low_surrogate l && isWellFormed rest'
        | [] => false
        end
      else (u <? 65536)%N && negb (is_low_surrogate u) && isWellFormed rest
  end.


(** A scalar value: a code point that is not a surrogate. *)
Definition is_scalar (cp : N) : Prop :=
  (cp < 0x110000 ∧ ¬ (0xD800 <= cp <= 0xDFFF))%N.

(** ASCII text. *)
Definition is_ascii (s : jsstring) : Prop := Forall (fun u => (u < 128)%N) s.

(** Characters that [JSON.stringify] and UTF-8 leave as they are: printable
    ASCII without the quote and the backslash. *)
Definition is_plain (s : jsstring) : Prop :=
  Forall (fun u => (32 <= u < 128 ∧ u ≠ 34 ∧ u ≠ 92)%N) s.


(** ** Part 3. The configuration validator *)

(** [process.env]: variable names to string values. *)
Abbreviation environment := (gmap string jsstring).

(** A JavaScript number, as far as the schema looks at it. *)
Inductive js_number : Set :=
| NaN
| Infinity (negative : bool)
| Finite (q : Q).

(** What the schema takes from its libraries: zod's URL and e-mail checks
    and JavaScript's [Number(string)] behind [z.coerce.number()]. *)
Class Zod := {
  is_url : jsstring -> bool;
  is_email : jsstring -> bool;
  Number : jsstring -> js_number;
}.

Definition isInteger (n : js_number) : bool :=
  match n with
  | Finite q => (Qden (Qred q) =? 1)%positive
  | _ => false
  end.

(** [n < bound] and [n > bound] for an integer bound. *)
Definition number_lt (n : js_number) (bound : Z) : bool :=
  match n with
  | NaN => false
  | Infinity negative => negative
  | Finite q => negb (Qle_bool (inject_Z bound) q)
  end.

Definition number_gt (n : js_number) (bound : Z) : bool :=
  match n with
  | NaN => false
  | Infinity negative => negb negative
  | Finite q => negb (Qle_bool q (inject_Z bound))
  end.

(** *** Issues and field schemas *)

Inductive issue_code : Set :=
| required              (* the variable is not set *)
| not_a_number
| not_an_integer
| too_small
| too_big
| invalid_url
| invalid_email
| invalid_enum_value
| invalid_format        (* a [regex] check *)
| custom (message : string).

Record issue : Set := mk_issue { path : string; code : issue_code }.

(** The outcome of one field schema: its value, or the codes of every check
    of the field that failed. *)
Definition parsed (A : Type) := Result (list issue_code) A.

Definition z_string (v : option jsstring) : parsed jsstring :=
  match v with
  | Some s => Ok s
  | None => Err [required]
  end.

(** [z.string().min(1)] *)
Definition z_string_min1 (v : option jsstring) : parsed jsstring :=
  s <-- z_string v ;;
  match s with
  | [] => Err [too_small]
  | _ => Ok s
  end.

(** [z.string().url()] *)
Definition urlSchema `{Zod} (v : option jsstring) : parsed jsstring :=
  s <-- z_string v ;;
  if is_url s then Ok s else Err [invalid_url].

(** [z.string().email()] *)
Definition z_string_email `{Zod} (v : option jsstring) : parsed jsstring :=
  s <-- z_string v ;;
  if is_email s then Ok s else Err [invalid_email].

(** [z.string().min(1).refine(...)]: the refinement runs on every string,
    also on one that failed [min(1)]. *)
Definition base64Key32 (v : option jsstring) : parsed jsstring :=
  s <-- z_string v ;;
  let failed :=
    (match s with [] => [too_small] | _ => [] end)
      ++ (if (length (base64_decode s) =? 32)%nat then []
          else [custom "must be base64-encoded 32-byte key"]) in
  match failed with
  | [] => Ok s
  | _ => Err failed
  end.

Definition e164_regex (s : jsstring) : bool :=
  match s with
  | c :: digits =>
      (c =? chr "+")%N && forallb is_digit digits
      && (7 <=? length digits)%nat && (length digits <=? 15)%nat
  | [] => false
  end.

(** [z.coerce.number().int().min(lo)] with an optional [.max(hi)]: all
    failing checks of a number are reported. *)
Definition z_coerce_int `{Zod} (lo : Z) (hi : option Z) (s : jsstring) : parsed js_number :=
  let n := Number s in
  match n with
  | NaN => Err [not_a_number]
  | _ =>
      let failed :=
        (if isInteger n then [] else [not_an_integer])
          ++ (if number_lt n lo then [too_small] else [])
          ++ (match hi with
              | Some h => if number_gt n h then [too_big] else []
              | None => []
              end) in
      match failed with
      | [] => Ok n
      | _ => Err failed
      end
  end.

(** [schema.default(d)] *)
Definition z_default {A} (d : A) (schema : jsstring -> parsed A)
    (v : option jsstring) : parsed A :=
  match v with
  | None => Ok d
  | Some s => schema s
  end.

Inductive log_level : Set := trace | debug | info | warn | error.

Definition z_log_level (s : jsstring) : parsed log_level :=
  if jsstring_eqb s (js "trace") then Ok trace
  else if jsstring_eqb s (js "debug") then Ok debug
  else if jsstring_eqb s (js "info") then Ok info
  else if jsstring_eqb s (js "warn") then Ok warn
  else if jsstring_eqb s (js "error") then Ok error
  else Err [invalid_enum_value].

(** *** The object schema *)

(** The parsed object handed to [transform]. *)
Record Env : Type := mk_Env {
  PORT : js_number;
  APP_BASE_URL : jsstring;
  LOG_LEVEL : log_level;
  CORS_ORIGIN : jsstring;
  DATABASE_URL : jsstring;
  TOKEN_ENCRYPTION_KEY : jsstring;
  TOKEN_ENCRYPTION_KEY_ID : jsstring;
  RETENTION_DAYS : js_number;
  GOOGLE_PROJECT_ID : jsstring;
  GOOGLE_OAUTH_CLIENT_ID : jsstring;
  GOOGLE_OAUTH_CLIENT_SECRET : jsstring;
  GOOGLE_OAUTH_REDIRECT_URI : jsstring;
  GOOGLE_APPLICATION_CREDENTIALS : option jsstring;
  GMAIL_SCOPES : jsstring;
  TASKS_SCOPES : jsstring;
  PUSH_ENDPOINT_PATH : jsstring;
  PUBSUB_TOPIC : jsstring;
  PUBSUB_SUBSCRIPTION : jsstring;
  PUBSUB_OIDC_AUDIENCE : option jsstring;
  PUBSUB_SERVICE_ACCOUNT_EMAIL : jsstring;
  PUBSUB_PROJECT_NUMBER : option jsstring;
  PUBSUB_VERIFICATION_TOKEN : option jsstring;
  OPENAI_API_KEY : option jsstring;
  OPENAI_MODEL : jsstring;
  OPENAI_API_BASE : option jsstring;
  TWILIO_ACCOUNT_SID : option jsstring;
  TWILIO_AUTH_TOKEN : option jsstring;
  TWILIO_MESSAGING_SERVICE_SID : option jsstring;
  TWILIO_FROM_NUMBER : option jsstring;
  TWILIO_DEFAULT_SMS_TO : option jsstring;
  ALLOW_DEFAULT_SMS_TO_IN_PROD : option jsstring;
  TWILIO_WEBHOOK_SECRET : option jsstring;
  FEATURE_ENABLE_SMS : option jsstring;
  FEATURE_ENABLE_TASKS : option jsstring;
  FEATURE_ENABLE_PUSH : option jsstring;
  FEATURE_ENABLE_CLASSIFIER : option jsstring;
}.

(** Object parsing keeps going after a failed field: the issues of all
    fields are collected, each under the path of its field. *)
Definition at_path {A} (p : string) (r : parsed A) : Result (list issue) A :=
  match r with
  | Ok a => Ok a
  | Err codes => Err (mk_issue p <$> codes)
  end.

Definition and_field {A B} (f : Result (list issue) (A -> B))
    (x : Result (list issue) A) : Result (list issue) B :=
  match f, x with
  | Ok g, Ok a => Ok (g a)
  | Ok _, Err e => Err e
  | Err e, Ok _ => Err e
  | Err e1, Err e2 => Err (e1 ++ e2)
  end.

Notation "f <&> p ':-' r" := (and_field f (at_path p r))
  (at level 50, left associativity, p at next level, r at next level).

Definition optional (v : option jsstring) : parsed (option jsstring) := Ok v.

Definition schema_object `{Zod} (e : environment) : Result (list issue) Env :=
  Ok mk_Env
  <&> "PORT" :- z_default (Finite 4000) (z_coerce_int 1 (Some 65535)) (e !! "PORT")
  <&> "APP_BASE_URL" :-
        z_default (js "http://localhost:4000") (fun s => urlSchema (Some s)) (e !! "APP_BASE_URL")
  <&> "LOG_LEVEL" :- z_default info z_log_level (e !! "LOG_LEVEL")
  <&> "CORS_ORIGIN" :- z_default (js "http://localhost:5173") Ok (e !! "CORS_ORIGIN")
  <&> "DATABASE_URL" :- z_string_min1 (e !! "DATABASE_URL")
  <&> "TOKEN_ENCRYPTION_KEY" :- base64Key32 (e !! "TOKEN_ENCRYPTION_KEY")
  <&> "TOKEN_ENCRYPTION_KEY_ID" :- z_string_min1 (e !! "TOKEN_ENCRYPTION_KEY_ID")
  <&> "RETENTION_DAYS" :- z_default (Finite 180) (z_coerce_int 1 None) (e !! "RETENTION_DAYS")
  <&> "GOOGLE_PROJECT_ID" :- z_string_min1 (e !! "GOOGLE_PROJECT_ID")
  <&> "GOOGLE_OAUTH_CLIENT_ID" :- z_string_min1 (e !! "GOOGLE_OAUTH_CLIENT_ID")
  <&> "GOOGLE_OAUTH_CLIENT_SECRET" :- z_string_min1 (e !! "GOOGLE_OAUTH_CLIENT_SECRET")
  <&> "GOOGLE_OAUTH_REDIRECT_URI" :- urlSchema (e !! "GOOGLE_OAUTH_REDIRECT_URI")
  <&> "GOOGLE_APPLICATION_CREDENTIALS" :- optional (e !! "GOOGLE_APPLICATION_CREDENTIALS")
  <&> "GMAIL_SCOPES" :-
        z_default (js "https://www.googleapis.com/auth/gmail.modify") Ok (e !! "GMAIL_SCOPES")
  <&> "TASKS_SCOPES" :-
        z_default (js "https://www.googleapis.com/auth/tasks") Ok (e !! "TASKS_SCOPES")
  <&> "PUSH_ENDPOINT_PATH" :- z_default (js "/api/pubsub/push") Ok (e !! "PUSH_ENDPOINT_PATH")
  <&> "PUBSUB_TOPIC" :- z_string_min1 (e !! "PUBSUB_TOPIC")
  <&> "PUBSUB_SUBSCRIPTION" :- z_string_min1 (e !! "PUBSUB_SUBSCRIPTION")
  <&> "PUBSUB_OIDC_AUDIENCE" :- optional (e !! "PUBSUB_OIDC_AUDIENCE")
  <&> "PUBSUB_SERVICE_ACCOUNT_EMAIL" :- z_string_email (e !! "PUBSUB_SERVICE_ACCOUNT_EMAIL")
  <&> "PUBSUB_PROJECT_NUMBER" :- optional (e !! "PUBSUB_PROJECT_NUMBER")
  <&> "PUBSUB_VERIFICATION_TOKEN" :- optional (e !! "PUBSUB_VERIFICATION_TOKEN")
  <&> "OPENAI_API_KEY" :- optional (e !! "OPENAI_API_KEY")
  <&> "OPENAI_MODEL" :- z_default (js "gpt-4o") Ok (e !! "OPENAI_MODEL")
  <&> "OPENAI_API_BASE" :- optional (e !! "OPENAI_API_BASE")
  <&> "TWILIO_ACCOUNT_SID" :- optional (e !! "TWILIO_ACCOUNT_SID")
  <&> "TWILIO_AUTH_TOKEN" :- optional (e !! "TWILIO_AUTH_TOKEN")
  <&> "TWILIO_MESSAGING_SERVICE_SID" :- optional (e !! "TWILIO_MESSAGING_SERVICE_SID")
  <&> "TWILIO_FROM_NUMBER" :- optional (e !! "TWILIO_FROM_NUMBER")
  <&> "TWILIO_DEFAULT_SMS_TO" :- optional (e !! "TWILIO_DEFAULT_SMS_TO")
  <&> "ALLOW_DEFAULT_SMS_TO_IN_PROD" :- optional (e !! "ALLOW_DEFAULT_SMS_TO_IN_PROD")
  <&> "TWILIO_WEBHOOK_SECRET" :- optional (e !! "TWILIO_WEBHOOK_SECRET")
  <&> "FEATURE_ENABLE_SMS" :- optional (e !! "FEATURE_ENABLE_SMS")
  <&> "FEATURE_ENABLE_TASKS" :- optional (e !! "FEATURE_ENABLE_TASKS")
  <&> "FEATURE_ENABLE_PUSH" :- optional (e !! "FEATURE_ENABLE_PUSH")
  <&> "FEATURE_ENABLE_CLASSIFIER" :- optional (e !! "FEATURE_ENABLE_CLASSIFIER").

(** *** [transform]: derived values and conditional requirements *)

Definition boolFromEnv (v : option jsstring) (fallback : bool) : bool :=
  match v with
  | None => fallback
  | Some s =>
      bool_decide (toLowerCase s ∈ [js "1"; js "true"; js "yes"; js "on"])
  end.

Definition splitCsv (v : option jsstring) (fallback : list jsstring) : list jsstring :=
  match v with
  | Some s =>
      if truthy v && (0 <? length (trim s))%nat then trim <$> split_comma s
      else fallback
  | None => fallback
  end.

Record Features : Set := mk_Features {
  sms : bool;
  tasks : bool;
  push : bool;
  classifier : bool;
}.

Record PubsubOidc : Type := mk_PubsubOidc {
  issuer : jsstring;
  oidc_audience : jsstring;
  serviceAccountEmail : jsstring;
  projectNumber : option jsstring;
  verificationToken : option jsstring;
}.

Record Config : Type := mk_Config {
  env : jsstring;
  isDevelopment : bool;
  isTest : bool;
  isProduction : bool;
  app_port : js_number;
  app_baseUrl : jsstring;
  app_corsOrigins : list jsstring;
  app_logLevel : log_level;
  db_url : jsstring;
  db_retentionDays : js_number;
  security_tokenKeyB64 : jsstring;
  security_tokenKeyId : jsstring;
  google_projectId : jsstring;
  google_oauth_clientId : jsstring;
  google_oauth_clientSecret : jsstring;
  google_oauth_redirectUri : jsstring;
  google_adcPath : option jsstring;
  google_scopes_gmail : list jsstring;
  google_scopes_tasks : list jsstring;
  pubsub_topic : jsstring;
  pubsub_subscription : jsstring;
  pubsub_oidc : PubsubOidc;
  pubsub_pushPath : jsstring;
  pubsub_audience : jsstring;
  openai_apiKey : option jsstring;
  openai_model : jsstring;
  openai_apiBase : option jsstring;
  twilio_accountSid : option jsstring;
  twilio_authToken : option jsstring;
  twilio_messagingServiceSid : option jsstring;
  twilio_fromNumber : option jsstring;
  twilio_defaultSmsTo : option jsstring;
  twilio_webhookSecret : option jsstring;
  features : Features;
}.

(** What [transform] can throw: an [Error] with a message, or the
    [ZodError] of [e164.parse]. *)
Inductive exception : Set :=
| Error (message : string)
| ZodError (issues : list issue).

(** The mode of the process, from [NODE_ENV] as it is when the module is
    loaded. *)
Record Mode : Set := mk_Mode {
  mode_isProduction : bool;
  mode_isTest : bool;
}.

Definition mode_isDevelopment (m : Mode) : bool :=
  negb (mode_isProduction m) && negb (mode_isTest m).

Definition mode_of (e : environment) : Mode :=
  mk_Mode (bool_decide (e !! "NODE_ENV" = Some (js "production")))
          (bool_decide (e !! "NODE_ENV" = Some (js "test"))).

Definition compute_features (m : Mode) (e : Env) : Features :=
  mk_Features
    (boolFromEnv (FEATURE_ENABLE_SMS e) (if mode_isDevelopment m then true else false))
    (boolFromEnv (FEATURE_ENABLE_TASKS e) (if mode_isDevelopment m then true else false))
    (boolFromEnv (FEATURE_ENABLE_PUSH e) (if mode_isDevelopment m then true else false))
    (boolFromEnv (FEATURE_ENABLE_CLASSIFIER e) (if mode_isDevelopment m then true else false)).

Definition throw_unless (ok : bool) (e : exception) : Result exception unit :=
  if ok then Ok tt else Err e.

(** [e164.parse(v)] *)
Definition e164_parse (v : jsstring) : Result exception unit :=
  throw_unless (e164_regex v) (ZodError [mk_issue EmptyString invalid_format]).

Definition classifier_rule (f : Features) (e : Env) : Result exception unit :=
  throw_unless (negb (classifier f && negb (truthy (OPENAI_API_KEY e))))
    (Error "OPENAI_API_KEY is required when FEATURE_ENABLE_CLASSIFIER=true").

(** The SMS block, first half: credentials and the choice of sender. *)
Definition sms_sender_rules (e : Env) : Result exception unit :=
  throw_unless
    (negb (negb (truthy (TWILIO_ACCOUNT_SID e)) || negb (truthy (TWILIO_AUTH_TOKEN e))))
    (Error "Twilio credentials required when FEATURE_ENABLE_SMS=true") ;;;
  let hasService := truthy (TWILIO_MESSAGING_SERVICE_SID e) in
  let hasFrom := truthy (TWILIO_FROM_NUMBER e) in
  throw_unless (negb ((hasService && hasFrom) || (negb hasService && negb hasFrom)))
    (Error "Provide exactly one of TWILIO_MESSAGING_SERVICE_SID or TWILIO_FROM_NUMBER") ;;;
  if hasFrom then e164_parse (default [] (TWILIO_FROM_NUMBER e)) else Ok tt.

(** The SMS block, second half: the default recipient. *)
Definition sms_recipient_rules (m : Mode) (e : Env) : Result exception unit :=
  if mode_isProduction m then
    let allowDevTo := boolFromEnv (ALLOW_DEFAULT_SMS_TO_IN_PROD e) false in
    throw_unless (negb (truthy (TWILIO_DEFAULT_SMS_TO e) && negb allowDevTo))
      (Error "TWILIO_DEFAULT_SMS_TO set in production without ALLOW_DEFAULT_SMS_TO_IN_PROD=true")
  else if truthy (TWILIO_DEFAULT_SMS_TO e) then
    e164_parse (default [] (TWILIO_DEFAULT_SMS_TO e))
  else Ok tt.

Definition sms_rules (m : Mode) (f : Features) (e : Env) : Result exception unit :=
  if sms f then sms_sender_rules e ;;; sms_recipient_rules m e else Ok tt.

Definition push_rule (m : Mode) (f : Features) (e : Env) : Result exception unit :=
  if push f then
    throw_unless
      (negb (mode_isDevelopment m && negb (truthy (GOOGLE_APPLICATION_CREDENTIALS e))))
      (Error "GOOGLE_APPLICATION_CREDENTIALS is required in development for ADC")
  else Ok tt.

(** [transform]; [node_env] is [process.env.NODE_ENV] at the time of the
    call. *)
Definition transform (m : Mode) (node_env : option jsstring) (e : Env)
    : Result exception Config :=
  let features := compute_features m e in
  let cors := splitCsv (Some (CORS_ORIGIN e)) [js "http://localhost:5173"] in
  let audience :=
    match PUBSUB_OIDC_AUDIENCE e with
    | Some a => a
    | None => APP_BASE_URL e ++ PUSH_ENDPOINT_PATH e
    end in
  classifier_rule features e ;;;
  sms_rules m features e ;;;
  push_rule m features e ;;;
  let pubsubOidc :=
    mk_PubsubOidc (js "https://accounts.google.com") audience
      (PUBSUB_SERVICE_ACCOUNT_EMAIL e) (PUBSUB_PROJECT_NUMBER e)
      (if mode_isDevelopment m then PUBSUB_VERIFICATION_TOKEN e else None) in
  Ok {|
    env := if truthy node_env then default [] node_env else js "development";
    isDevelopment := mode_isDevelopment m;
    isTest := mode_isTest m;
    isProduction := mode_isProduction m;
    app_port := PORT e;
    app_baseUrl := APP_BASE_URL e;
    app_corsOrigins := cors;
    app_logLevel := LOG_LEVEL e;
    db_url := DATABASE_URL e;
    db_retentionDays := RETENTION_DAYS e;
    security_tokenKeyB64 := TOKEN_ENCRYPTION_KEY e;
    security_tokenKeyId := TOKEN_ENCRYPTION_KEY_ID e;
    google_projectId := GOOGLE_PROJECT_ID e;
    google_oauth_clientId := GOOGLE_OAUTH_CLIENT_ID e;
    google_oauth_clientSecret := GOOGLE_OAUTH_CLIENT_SECRET e;
    google_oauth_redirectUri := GOOGLE_OAUTH_REDIRECT_URI e;
    google_adcPath := GOOGLE_APPLICATION_CREDENTIALS e;
    google_scopes_gmail := trim <$> split_comma (GMAIL_SCOPES e);
    google_scopes_tasks := trim <$> split_comma (TASKS_SCOPES e);
    pubsub_topic := PUBSUB_TOPIC e;
    pubsub_subscription := PUBSUB_SUBSCRIPTION e;
    pubsub_oidc := pubsubOidc;
    pubsub_pushPath := PUSH_ENDPOINT_PATH e;
    pubsub_audience := audience;
    openai_apiKey := OPENAI_API_KEY e;
    openai_model := OPENAI_MODEL e;
    openai_apiBase := OPENAI_API_BASE e;
    twilio_accountSid := TWILIO_ACCOUNT_SID e;
    twilio_authToken := TWILIO_AUTH_TOKEN e;
    twilio_messagingServiceSid := TWILIO_MESSAGING_SERVICE_SID e;
    twilio_fromNumber := TWILIO_FROM_NUMBER e;
    twilio_defaultSmsTo := TWILIO_DEFAULT_SMS_TO e;
    twilio_webhookSecret := TWILIO_WEBHOOK_SECRET e;
    features := features;
  |}.

(** *** Loading the module *)

(** How loading the configuration module ends: with the frozen
    configuration, with the aggregated error built from the issues of
    [safeParse], or with an exception of [transform], which [safeParse] does
    not catch. *)
Inductive startup : Type :=
| Started (config : Config)
| ValidationFailed (issues : list issue)
| Thrown (e : exception).

(** [dotenv.config] adds the variables of a file that are not set yet; the
    files are read in development only, [.env.local] first. *)
Definition load_env_files (m : Mode) (initial : environment)
    (env_local env_file : option environment) : environment :=
  if mode_isDevelopment m then
    (initial ∪ default ∅ env_local) ∪ default ∅ env_file
  else initial.

Definition validate `{Zod} (m : Mode) (e : environment) : startup :=
  match schema_object e with
  | Err issues => ValidationFailed issues
  | Ok parsed_env =>
      match transform m (e !! "NODE_ENV") parsed_env with
      | Ok config => Started config
      | Err ex => Thrown ex
      end
  end.

Definition load_config `{Zod} (initial : environment)
    (env_local env_file : option environment) : startup :=
  let m := mode_of initial in
  validate m (load_env_files m initial env_local env_file).

(** ** Part 4. The token cipher *)

Definition ALGO : string := "aes-256-gcm".
Definition IV_LENGTH : nat := 12.
Definition AUTH_TAG_LENGTH : nat := 16.

Record EncryptedPayload : Type := mk_EncryptedPayload {
  keyId : jsstring;
  iv : jsstring;          (* base64 *)
  ciphertext : jsstring;  (* base64 *)
  tag : jsstring;         (* base64 *)
}.

(** What the cipher code takes from Node: the random source, AES-256-GCM
    with a 16-byte tag ([gcm_encrypt key nonce plaintext] gives the
    ciphertext and the tag, [gcm_decrypt key nonce tag ciphertext] the
    plaintext unless it throws), and [Buffer.from] on a parsed value that is
    an array or an object. *)
Class Node := {
  entropy : Type;
  randomBytes : nat -> entropy -> bytes * entropy;
  gcm_encrypt : bytes -> bytes -> bytes -> bytes * bytes;
  gcm_decrypt : bytes -> bytes -> bytes -> bytes -> option bytes;
  Buffer_from_object : json -> option bytes;
}.

(** The contract of these primitives: the random source gives as many bytes
    as asked for; encryption keeps the length and gives a 16-byte tag;
    decryption under the same 32-byte key, 12-byte nonce and tag gives the
    plaintext back. *)
Record NodeContract (N : Node) : Prop := {
  randomBytes_length : forall n g, length (randomBytes n g).1 = n;
  randomBytes_bytes : forall n g, is_bytes (randomBytes n g).1;
  gcm_encrypt_length : forall key nonce pt,
    length (gcm_encrypt key nonce pt).1 = length pt
    ∧ length (gcm_encrypt key nonce pt).2 = AUTH_TAG_LENGTH;
  gcm_encrypt_bytes : forall key nonce pt,
    is_bytes key -> is_bytes nonce -> is_bytes pt ->
    is_bytes (gcm_encrypt key nonce pt).1 ∧ is_bytes (gcm_encrypt key nonce pt).2;
  gcm_decrypt_encrypt : forall key nonce pt,
    is_bytes key -> is_bytes nonce -> is_bytes pt ->
    length key = 32%nat -> length nonce = IV_LENGTH ->
    gcm_decrypt key nonce (gcm_encrypt key nonce pt).2 (gcm_encrypt key nonce pt).1
      = Some pt;
}.

Inductive js_error : Set :=
| JsError (message : string)   (* [new Error(message)] *)
| SyntaxError                  (* [JSON.parse] *)
| TypeError                    (* a property of [null], [Buffer.from] of a non-string *)
| CipherError.                 (* [createDecipheriv], [setAuthTag], [final] *)

Definition getKey (e : environment) : Result js_error (bytes * jsstring) :=
  let keyB64 := e !! "TOKEN_ENCRYPTION_KEY" in
  let keyId :=
    if truthy (e !! "TOKEN_ENCRYPTION_KEY_ID")
    then default [] (e !! "TOKEN_ENCRYPTION_KEY_ID") else js "default" in
  if negb (truthy keyB64) then Err (JsError "TOKEN_ENCRYPTION_KEY not set")
  else
    let key := base64_decode (default [] keyB64) in
    if negb (length key =? 32)%nat
    then Err (JsError "TOKEN_ENCRYPTION_KEY must be 32 bytes (base64 of 32 bytes)")
    else Ok (key, keyId).

Definition json_of_payload (p : EncryptedPayload) : json :=
  JObject [(js "keyId", JString (keyId p)); (js "iv", JString (iv p));
           (js "ciphertext", JString (ciphertext p)); (js "tag", JString (tag p))].

(** The payload object built by [encryptToB64]. *)
Definition seal `{Node} (key : bytes) (key_id : jsstring) (nonce : bytes)
    (plaintext : jsstring) : EncryptedPayload :=
  let sealed := gcm_encrypt key nonce (utf8_encode plaintext) in
  mk_EncryptedPayload key_id (base64_encode nonce)
    (base64_encode sealed.1) (base64_encode sealed.2).

Definition encryptToB64 `{Node} (e : environment) (g : entropy) (plaintext : jsstring)
    : Result js_error jsstring * entropy :=
  match getKey e with
  | Err err => (Err err, g)
  | Ok (key, key_id) =>
      let '(nonce, g') := randomBytes IV_LENGTH g in
      let payload := seal key key_id nonce plaintext in
      (* Length guard ~16KB max after base64 *)
      let size := byteLength (stringify (json_of_payload payload)) in
      if (16 * 1024 <? size)%nat then (Err (JsError "Encrypted payload exceeds 16KB"), g')
      else (Ok (base64_encode (utf8_encode (stringify (json_of_payload payload)))), g')
  end.

(** [payload.name] on a parsed value: an exception on [null], the member of
    an object, and [undefined] otherwise. *)
Definition get_property (v : json) (name : jsstring) : Result js_error (option json) :=
  match v with
  | JNull => Err TypeError
  | JObject members => Ok (get_member name members)
  | _ => Ok None
  end.

(** [Buffer.from(x, 'base64')] on what a property read gave. *)
Definition Buffer_from_base64 `{Node} (x : option json) : Result js_error bytes :=
  match x with
  | Some (JString s) => Ok (base64_decode s)
  | Some (JArray items) =>
      match Buffer_from_object (JArray items) with
      | Some b => Ok b
      | None => Err TypeError
      end
  | Some (JObject members) =>
      match Buffer_from_object (JObject members) with
      | Some b => Ok b
      | None => Err TypeError
      end
  | _ => Err TypeError
  end.

Definition decryptFromB64 `{Node} (e : environment) (b64 : jsstring)
    : Result js_error jsstring :=
  k <-- getKey e ;;
  let raw := utf8_decode (base64_decode b64) in
  payload <-- match JSON_parse raw with
              | Some v => Ok v
              | None => Err SyntaxError
              end ;;
  iv_field <-- get_property payload (js "iv") ;;
  nonce <-- Buffer_from_base64 iv_field ;;
  tag_field <-- get_property payload (js "tag") ;;
  tag_bytes <-- Buffer_from_base64 tag_field ;;
  ciphertext_field <-- get_property payload (js "ciphertext") ;;
  ciphertext_bytes <-- Buffer_from_base64 ciphertext_field ;;
  match gcm_decrypt k.1 nonce tag_bytes ciphertext_bytes with
  | Some pt => Ok (utf8_decode pt)
  | None => Err CipherError
  end.

(** Every value of [process.env] is a string. *)
Definition js_environment (e : environment) : Prop :=
  map_Forall (fun _ v => is_jsstring v) e.

(** Two parsed envelopes that differ at most in their [keyId] member. *)
Definition differ_only_in_keyId (v1 v2 : json) : Prop :=
  match v1, v2 with
  | JObject m1, JObject m2 =>
      forall name, name ≠ js "keyId" -> get_member name m1 = get_member name m2
  | _, _ => False
  end.

(** The stored form of a payload: the base64 text of its JSON text. *)
Definition envelope (p : EncryptedPayload) : jsstring :=
  base64_encode (utf8_encode (stringify (json_of_payload p))).

(** *** The rules of the validator, stated on their own *)

(** The four feature flags, the variable of each and its place in
    [features]. *)
Inductive flag : Set := flag_sms | flag_tasks | flag_push | flag_classifier.

Definition flag_value (f : flag) (e : Env) : option jsstring :=
  match f with
  | flag_sms => FEATURE_ENABLE_SMS e
  | flag_tasks => FEATURE_ENABLE_TASKS e
  | flag_push => FEATURE_ENABLE_PUSH e
  | flag_classifier => FEATURE_ENABLE_CLASSIFIER e
  end.

Definition feature (f : flag) (fs : Features) : bool :=
  match f with
  | flag_sms => sms fs
  | flag_tasks => tasks fs
  | flag_push => push fs
  | flag_classifier => classifier fs
  end.

(** Two code units that are equal up to the case of an ASCII letter. *)
Definition same_ignoring_case (a b : N) : Prop :=
  a = b ∨ (65 <= a <= 90 ∧ b = a + 32)%N ∨ (65 <= b <= 90 ∧ a = b + 32)%N.

Definition equal_ignoring_case (v w : jsstring) : Prop :=
  Forall2 same_ignoring_case v w.

(** A value that switches a feature on: one of the four words, in any
    case. *)
Definition enabling (v : jsstring) : Prop :=
  exists w, w ∈ [js "1"; js "true"; js "yes"; js "on"] ∧ equal_ignoring_case v w.

(** The failing checks of every field of the schema, field by field. *)
Definition codes_of {A} (r : parsed A) : list issue_code :=
  match r with
  | Ok _ => []
  | Err codes => codes
  end.

Definition field_checks `{Zod} (e : environment) : list (string * list issue_code) :=
  [ ("PORT", codes_of (z_default (Finite 4000) (z_coerce_int 1 (Some 65535)) (e !! "PORT")));
    ("APP_BASE_URL",
     codes_of (z_default (js "http://localhost:4000") (fun s => urlSchema (Some s))
                         (e !! "APP_BASE_URL")));
    ("LOG_LEVEL", codes_of (z_default info z_log_level (e !! "LOG_LEVEL")));
    ("DATABASE_URL", codes_of (z_string_min1 (e !! "DATABASE_URL")));
    ("TOKEN_ENCRYPTION_KEY", codes_of (base64Key32 (e !! "TOKEN_ENCRYPTION_KEY")));
    ("TOKEN_ENCRYPTION_KEY_ID", codes_of (z_string_min1 (e !! "TOKEN_ENCRYPTION_KEY_ID")));
    ("RETENTION_DAYS",
     codes_of (z_default (Finite 180) (z_coerce_int 1 None) (e !! "RETENTION_DAYS")));
    ("GOOGLE_PROJECT_ID", codes_of (z_string_min1 (e !! "GOOGLE_PROJECT_ID")));
    ("GOOGLE_OAUTH_CLIENT_ID", codes_of (z_string_min1 (e !! "GOOGLE_OAUTH_CLIENT_ID")));
    ("GOOGLE_OAUTH_CLIENT_SECRET",
     codes_of (z_string_min1 (e !! "GOOGLE_OAUTH_CLIENT_SECRET")));
    ("GOOGLE_OAUTH_REDIRECT_URI", codes_of (urlSchema (e !! "GOOGLE_OAUTH_REDIRECT_URI")));
    ("PUBSUB_TOPIC", codes_of (z_string_min1 (e !! "PUBSUB_TOPIC")));
    ("PUBSUB_SUBSCRIPTION", codes_of (z_string_min1 (e !! "PUBSUB_SUBSCRIPTION")));
    ("PUBSUB_SERVICE_ACCOUNT_EMAIL",
     codes_of (z_string_email (e !! "PUBSUB_SERVICE_ACCOUNT_EMAIL"))) ].

Definition field_issues `{Zod} (e : environment) : list issue :=
  flat_map (fun '(p, codes) => mk_issue p <$> codes) (field_checks e).

(** The conditional requirements of [transform], in the order in which
    they are checked, as the exceptions they throw. *)
Definition cross_field_errors : list exception :=
  [ Error "OPENAI_API_KEY is required when FEATURE_ENABLE_CLASSIFIER=true";
    Error "Twilio credentials required when FEATURE_ENABLE_SMS=true";
    Error "Provide exactly one of TWILIO_MESSAGING_SERVICE_SID or TWILIO_FROM_NUMBER";
    ZodError [mk_issue EmptyString invalid_format];
    Error "TWILIO_DEFAULT_SMS_TO set in production without ALLOW_DEFAULT_SMS_TO_IN_PROD=true";
    Error "GOOGLE_APPLICATION_CREDENTIALS is required in development for ADC" ].

(** The issues of a parsing outcome. *)
Definition issues_of {A} (r : Result (list issue) A) : list issue :=
  match r with
  | Ok _ => []
  | Err issues => issues
  end.

(** A failure that comes with at least one issue. *)
Definition reports {E A} (r : Result (list E) A) : Prop :=
  match r with
  | Err [] => False
  | _ => True
  end.

(** The characters of the four enabling words: digits and lower-case
    letters other than k. *)
Definition word_char (c : N) : Prop :=
  (48 <= c <= 57 ∨ (97 <= c <= 122 ∧ c ≠ 107))%N.


(** ** Part 5. Reference implementations of the library interfaces

    AES-256 (FIPS 197) in Galois/Counter mode (NIST SP 800-38D) with a
    128-bit tag and no associated data, which is what
    [createCipheriv('aes-256-gcm', key, iv, { authTagLength: 16 })] computes;
    a random source that reads from a given stream of numbers; and simple
    URL, e-mail and number readers for the examples of the validator. *)

Section Aes.
Local Open Scope N_scope.

Definition xor_bytes (a b : bytes) : bytes := zip_with N.lxor a b.

(** Multiplication by x and general multiplication in GF(2^8). *)
Definition xtime (a : N) : N :=
  if a <? 128 then a * 2 else N.lxor ((a * 2) mod 256) 0x1B.

Fixpoint gf_mul_bits (n : nat) (a b : N) : N :=
  match n with
  | O => 0
  | S n' =>
      N.lxor (if N.odd b then a else 0) (gf_mul_bits n' (xtime a) (b / 2))
  end.

Definition gf_mul (a b : N) : N := gf_mul_bits 8 a b.

Fixpoint gf_pow (n : nat) (a : N) : N :=
  match n with
  | O => 1
  | S n' => gf_mul a (gf_pow n' a)
  end.

Definition rotl8 (a : N) (k : N) : N :=
  (N.shiftl a k mod 256) + N.shiftr a (8 - k).

(** The S-box: the inverse in GF(2^8) followed by the affine map. *)
Definition sbox_of (a : N) : N :=
  let s := gf_pow 254 a in
  N.lxor (N.lxor (N.lxor (N.lxor (N.lxor s (rotl8 s 1)) (rotl8 s 2)) (rotl8 s 3)) (rotl8 s 4)) 0x63.

Definition sbox_table : list N :=
  Eval vm_compute in (fun i => sbox_of (N.of_nat i)) <$> seq 0 256.

Definition sbox (a : N) : N := nth (N.to_nat a) sbox_table 0.

Definition sub_bytes (st : bytes) : bytes := sbox <$> st.

(** The state is kept column by column: byte [r + 4c] is row [r] of column
    [c]. *)
Definition shift_rows (st : bytes) : bytes :=
  (fun i => nth i st 0) <$> [0; 5; 10; 15; 4; 9; 14; 3; 8; 13; 2; 7; 12; 1; 6; 11]%nat.

Definition mix_column (a0 a1 a2 a3 : N) : bytes :=
  [N.lxor (N.lxor (N.lxor (gf_mul a0 2) (gf_mul a1 3)) a2) a3;
   N.lxor (N.lxor (N.lxor a0 (gf_mul a1 2)) (gf_mul a2 3)) a3;
   N.lxor (N.lxor (N.lxor a0 a1) (gf_mul a2 2)) (gf_mul a3 3);
   N.lxor (N.lxor (N.lxor (gf_mul a0 3) a1) a2) (gf_mul a3 2)].

Fixpoint mix_columns (st : bytes) : bytes :=
  match st with
  | a0 :: a1 :: a2 :: a3 :: rest => mix_column a0 a1 a2 a3 ++ mix_columns rest
  | _ => []
  end.

(** Key expansion for a 256-bit key: 60 words of four bytes. *)
Definition rot_word (w : bytes) : bytes :=
  match w with
  | a :: rest => rest ++ [a]
  | [] => []
  end.

Fixpoint rcon (j : nat) : N :=
  match j with
  | O | 1%nat => 1
  | S j' => xtime (rcon j')
  end.

Fixpoint key_words (key : bytes) (n : nat) : list bytes :=
  match key, n with
  | a :: b :: c :: d :: rest, S n' => [a; b; c; d] :: key_words rest n'
  | _, S n' => [0; 0; 0; 0] :: key_words [] n'
  | _, O => []
  end.

(** [expand n i ws]: [ws] holds the words [0 .. i-1]; add [n] more. *)
Fixpoint expand (n : nat) (i : nat) (ws : list bytes) : list bytes :=
  match n with
  | O => ws
  | S n' =>
      let prev := nth (i - 1) ws [] in
      let temp :=
        if (i mod 8 =? 0)%nat then
          xor_bytes (sub_bytes (rot_word prev)) [rcon (i / 8); 0; 0; 0]
        else if (i mod 8 =? 4)%nat then sub_bytes prev
        else prev in
      expand n' (S i) (ws ++ [xor_bytes (nth (i - 8) ws []) temp])
  end.

Definition key_expansion (key : bytes) : list bytes :=
  expand 52 8 (key_words key 8).

Definition round_key (ws : list bytes) (r : nat) : bytes :=
  concat (take 4 (drop (4 * r) ws)).

Fixpoint rounds (ws : list bytes) (n : nat) (r : nat) (st : bytes) : bytes :=
  match n with
  | O => st
  | S n' =>
      rounds ws n' (S r)
        (xor_bytes (mix_columns (shift_rows (sub_bytes st))) (round_key ws r))
  end.

(** The forward cipher on one 16-byte block, under an expanded key. *)
Definition aes256_cipher (ws : list bytes) (block : bytes) : bytes :=
  let st := rounds ws 13 1 (xor_bytes block (round_key ws 0)) in
  xor_bytes (shift_rows (sub_bytes st)) (round_key ws 14).

Definition aes256_encrypt_block (key : bytes) (block : bytes) : bytes :=
  aes256_cipher (key_expansion key) block.

(** *** Galois/Counter mode *)

(** Blocks as 128-bit numbers, most significant byte first. *)
Definition block_of_bytes (b : bytes) : N :=
  fold_left (fun acc x => acc * 256 + x) b 0.

Definition bytes_of_number (len : nat) (n : N) : bytes :=
  (fun i => (n / 2 ^ (8 * N.of_nat (len - 1 - i))) mod 256) <$> seq 0 len.

Definition bytes_of_block (n : N) : bytes := bytes_of_number 16 n.

(** Multiplication in GF(2^128), in the bit order of the mode. *)
Fixpoint ghash_mul_bits (n : nat) (i : N) (x z v : N) : N :=
  match n with
  | O => z
  | S n' =>
      let z' := if N.testbit x (127 - i) then N.lxor z v else z in
      let v' := if N.odd v then N.lxor (v / 2) (0xE1 * 2 ^ 120) else v / 2 in
      ghash_mul_bits n' (i + 1) x z' v'
  end.

Definition ghash_mul (x y : N) : N := ghash_mul_bits 128 0 x 0 y.

(** The next 16 bytes of the data, padded with zeros. *)
Definition pad_block (data : bytes) : bytes :=
  take 16 (data ++ replicate 16 0).

Fixpoint ghash_blocks (fuel : nat) (h y : N) (data : bytes) : N :=
  match fuel, data with
  | S fuel', _ :: _ =>
      ghash_blocks fuel' h
        (ghash_mul (N.lxor y (block_of_bytes (pad_block data))) h)
        (drop 16 data)
  | _, _ => y
  end.

(** GHASH over the ciphertext (no associated data) and the length block. *)
Definition ghash (h : N) (ct : bytes) : N :=
  let y := ghash_blocks (length ct) h 0 ct in
  ghash_mul (N.lxor y (8 * N.of_nat (length ct))) h.

Definition inc32 (cb : N) : N :=
  (cb / 2 ^ 32) * 2 ^ 32 + (cb mod 2 ^ 32 + 1) mod 2 ^ 32.

(** The key stream: the encryptions of successive counter blocks. *)
Fixpoint key_stream (ws : list bytes) (blocks : nat) (cb : N) : bytes :=
  match blocks with
  | O => []
  | S n => aes256_cipher ws (bytes_of_block cb) ++ key_stream ws n (inc32 cb)
  end.

(** The pre-counter block: the 96-bit nonce followed by the counter 1, or
    the GHASH of a nonce of another length. *)
Definition pre_counter (h : N) (nonce : bytes) : N :=
  if (length nonce =? 12)%nat then block_of_bytes nonce * 2 ^ 32 + 1
  else
    let y := ghash_blocks (length nonce) h 0 nonce in
    ghash_mul (N.lxor y (8 * N.of_nat (length nonce))) h.

(** The tag: GHASH of the ciphertext, masked with the encryption of the
    pre-counter block. *)
Definition gcm_tag (key : bytes) (nonce : bytes) (ct : bytes) : bytes :=
  let ws := key_expansion key in
  let h := block_of_bytes (aes256_cipher ws (replicate 16 0)) in
  let j0 := pre_counter h nonce in
  (fun x => x mod 256)
    <$> xor_bytes (bytes_of_block (ghash h ct))
                  (aes256_cipher ws (bytes_of_block j0) ++ replicate 16 0).

(** The first [len] bytes of the key stream that starts after the
    pre-counter block. *)
Definition gcm_stream (key : bytes) (nonce : bytes) (len : nat) : bytes :=
  let ws := key_expansion key in
  let h := block_of_bytes (aes256_cipher ws (replicate 16 0)) in
  (fun x => x mod 256)
    <$> take len (key_stream ws (S (len / 16)) (inc32 (pre_counter h nonce))
                  ++ replicate len 0).

Definition aes_256_gcm_encrypt (key nonce pt : bytes) : bytes * bytes :=
  let ct := xor_bytes pt (gcm_stream key nonce (length pt)) in
  (ct, gcm_tag key nonce ct).

(** Decryption refuses a key that is not 32 bytes long, an empty nonce, a
    tag that is not 16 bytes long, and a tag that does not verify. *)
Definition aes_256_gcm_decrypt (key nonce tag_bytes ct : bytes) : option bytes :=
  if negb (length key =? 32)%nat || (length nonce =? 0)%nat
     || negb (length tag_bytes =? AUTH_TAG_LENGTH)%nat then None
  else if bool_decide (gcm_tag key nonce ct = tag_bytes)
  then Some (xor_bytes ct (gcm_stream key nonce (length ct)))
  else None.
End Aes.

(** *** The random source: a stream of numbers, read in order *)

Definition stream_bytes (n : nat) (g : nat -> N) : bytes * (nat -> N) :=
  ((fun i => (g i mod 256)%N) <$> seq 0 n, fun i => g (n + i)%nat).

(** [Buffer.from] on a parsed array of non-negative integer literals; other
    arrays and objects are not covered by this reference and are refused. *)
Definition decimal_value (text : jsstring) : option N :=
  if forallb is_digit text && negb (bool_decide (text = []))
  then Some (fold_left (fun acc c => acc * 10 + (c - 48))%N text 0%N)
  else None.

Definition array_bytes (v : json) : option bytes :=
  match v with
  | JArray items =>
      mapM (fun item =>
              match item with
              | JNumber text => (fun n => (n mod 256)%N) <$> decimal_value text
              | _ => None
              end) items
  | _ => None
  end.

#[export] Instance node : Node := {|
  entropy := nat -> N;
  randomBytes := stream_bytes;
  gcm_encrypt := aes_256_gcm_encrypt;
  gcm_decrypt := aes_256_gcm_decrypt;
  Buffer_from_object := array_bytes;
|}.

(** *** Readers for the examples of the validator

    A URL is taken to be a scheme, a colon and a non-empty rest; an e-mail
    address a non-empty local part, [@], and a domain with a dot inside;
    [Number] reads [Infinity], the empty string (zero) and signed decimal
    numerals with an optional fraction, and gives [NaN] otherwise. *)

Definition is_alpha (c : N) : bool :=
  ((65 <=? c) && (c <=? 90) || (97 <=? c) && (c <=? 122))%N.

Definition is_scheme_char (c : N) : bool :=
  is_alpha c || is_digit c || (c =? 43)%N || (c =? 45)%N || (c =? 46)%N.

Fixpoint after_scheme (s : jsstring) : option jsstring :=
  match s with
  | c :: s' =>
      if (c =? 58)%N then Some s'
      else if is_scheme_char c then after_scheme s'
      else None
  | [] => None
  end.

Definition simple_url (s : jsstring) : bool :=
  match s with
  | c :: s' =>
      is_alpha c &&
      match after_scheme s' with
      | Some (_ :: _) => true
      | _ => false
      end
  | [] => false
  end.

Definition simple_email (s : jsstring) : bool :=
  match split_on 64%N [] s with
  | [l; d] =>
      negb (bool_decide (l = []))
      && match split_on 46%N [] d with
         | [] | [_] => false
         | parts => forallb (fun p => negb (bool_decide (p = []))) parts
         end
      && forallb (fun c => negb (is_js_whitespace c)) s
  | _ => false
  end.

Definition digits_value (ds : jsstring) : Z :=
  fold_left (fun acc c => acc * 10 + Z.of_N (c - 48)) ds 0.

Definition simple_number (s : jsstring) : js_number :=
  let t := trim s in
  let '(negative, body) :=
    match t with
    | c :: t' => if (c =? 45)%N then (true, t')
                 else if (c =? 43)%N then (false, t') else (false, t)
    | [] => (false, t)
    end in
  if bool_decide (t = []) then Finite 0
  else if bool_decide (body = js "Infinity") then Infinity negative
  else
    let '(ip, rest) := take_digits body in
    let '(fp, rest') :=
      match rest with
      | c :: r => if (c =? 46)%N then take_digits r else ([], rest)
      | [] => ([], rest)
      end in
    if bool_decide (rest' = []) && negb (bool_decide (ip ++ fp = [])) then
      let q := Qmake (digits_value (ip ++ fp)) (Z.to_pos (10 ^ Z.of_nat (length fp))) in
      Finite (if negative then Qopp q else q)
    else NaN.

#[export] Instance zod : Zod := {|
  is_url := simple_url;
  is_email := simple_email;
  Number := simple_number;
|}.

(** *** Environments of the examples *)

Definition example_key : jsstring := base64_encode (N.of_nat <$> seq 0 32).

Definition example_environment : environment :=
  {[ "TOKEN_ENCRYPTION_KEY" := example_key; "TOKEN_ENCRYPTION_KEY_ID" := js "k1" ]}.

Definition environment_without_key_id : environment :=
  {[ "TOKEN_ENCRYPTION_KEY" := example_key ]}.

Definition example_entropy : @entropy node := fun i => N.of_nat (7 * i + 3).

(** A production environment that passes every field check and switches no
    feature on. *)
Definition valid_environment : environment :=
  list_to_map
    [ ("NODE_ENV", js "production");
      ("DATABASE_URL", js "postgres://db.internal/assistant");
      ("TOKEN_ENCRYPTION_KEY", example_key);
      ("TOKEN_ENCRYPTION_KEY_ID", js "k1");
      ("GOOGLE_PROJECT_ID", js "assistant");
      ("GOOGLE_OAUTH_CLIENT_ID", js "client");
      ("GOOGLE_OAUTH_CLIENT_SECRET", js "secret");
      ("GOOGLE_OAUTH_REDIRECT_URI", js "https://app.example.com/oauth/callback");
      ("PUBSUB_TOPIC", js "gmail");
      ("PUBSUB_SUBSCRIPTION", js "gmail-push");
      ("PUBSUB_SERVICE_ACCOUNT_EMAIL", js "push@assistant.example.com") ].

(** The same with the SMS feature switched on and configured with a sender
    number. *)
Definition sms_environment : environment :=
  <["FEATURE_ENABLE_SMS" := js "ON"]>
    (<["TWILIO_ACCOUNT_SID" := js "AC0123456789"]>
       (<["TWILIO_AUTH_TOKEN" := js "token"]>
          (<["TWILIO_FROM_NUMBER" := js "+14155550100"]> valid_environment))).

(** Two conditional requirements violated at once: the classifier and the
    SMS feature are on, and neither the API key nor the credentials are
    there. *)
Definition two_requirements_missing : environment :=
  <["FEATURE_ENABLE_CLASSIFIER" := js "true"]>
    (<["FEATURE_ENABLE_SMS" := js "true"]> valid_environment).

(** Two fields at fault, and a conditional requirement violated as well. *)
Definition two_fields_invalid : environment :=
  <["PORT" := js "70000.5"]>
    (<["FEATURE_ENABLE_CLASSIFIER" := js "true"]> (delete "DATABASE_URL" valid_environment)).

(** An envelope and the same envelope under another key identifier. *)
Definition example_payload : EncryptedPayload :=
  Eval vm_compute in
    seal (N.of_nat <$> seq 0 32) (js "k1") (randomBytes IV_LENGTH example_entropy).1
         (js "hello").

Definition relabelled_payload : EncryptedPayload :=
  Eval vm_compute in
    mk_EncryptedPayload (js "rotated") (iv example_payload)
      (ciphertext example_payload) (tag example_payload).

(** The parsed object of the SMS example. *)
Definition sms_parsed : { e : Env | schema_object sms_environment = Ok e }.
Proof. vm_compute. eexists. reflexivity. Defined.


(** ** Part 6. The rest of the modules *)

(** *** The validator: the variables without a default *)

(** The variables whose schema is neither optional nor defaulted. *)
Definition required_variables : list string :=
  [ "DATABASE_URL"; "TOKEN_ENCRYPTION_KEY"; "TOKEN_ENCRYPTION_KEY_ID";
    "GOOGLE_PROJECT_ID"; "GOOGLE_OAUTH_CLIENT_ID"; "GOOGLE_OAUTH_CLIENT_SECRET";
    "GOOGLE_OAUTH_REDIRECT_URI"; "PUBSUB_TOPIC"; "PUBSUB_SUBSCRIPTION";
    "PUBSUB_SERVICE_ACCOUNT_EMAIL" ].

(** A development environment ([NODE_ENV] is not set): the SMS feature and
    the classifier are switched off, and push, on by default, has its
    credentials file. *)
Definition development_environment : environment :=
  <["FEATURE_ENABLE_SMS" := js "off"]>
    (<["FEATURE_ENABLE_CLASSIFIER" := js "0"]>
       (<["GOOGLE_APPLICATION_CREDENTIALS" := js "/keys/adc.json"]>
          (<["PUBSUB_VERIFICATION_TOKEN" := js "s3cret"]>
             (delete "NODE_ENV" valid_environment)))).

(** The configurations with which these examples start. *)
Definition valid_config : { c | validate (mode_of valid_environment) valid_environment = Started c }.
Proof. vm_compute. eexists. reflexivity. Defined.

Definition sms_config : { c | validate (mode_of sms_environment) sms_environment = Started c }.
Proof. vm_compute. eexists. reflexivity. Defined.

Definition development_config :
  { c | validate (mode_of development_environment) development_environment = Started c }.
Proof. vm_compute. eexists. reflexivity. Defined.

(** The SMS example with a default recipient that production is allowed to
    use; the recipient is not in E.164 form. *)
Definition sms_recipient_environment : environment :=
  <["TWILIO_DEFAULT_SMS_TO" := js "415-555-0199"]>
    (<["ALLOW_DEFAULT_SMS_TO_IN_PROD" := js "Yes"]> sms_environment).

Definition sms_recipient_config :
  { c | validate (mode_of sms_recipient_environment) sms_recipient_environment = Started c }.
Proof. vm_compute. eexists. reflexivity. Defined.

(** The parsed objects of two examples. *)
Definition requirements_parsed : { e : Env | schema_object two_requirements_missing = Ok e }.
Proof. vm_compute. eexists. reflexivity. Defined.

Definition development_parsed : { e : Env | schema_object development_environment = Ok e }.
Proof. vm_compute. eexists. reflexivity. Defined.

(** Environment files of a development checkout. *)
Definition example_env_local : environment :=
  {[ "PORT" := js "4100"; "LOG_LEVEL" := js "debug" ]}.

Definition example_env_file : environment :=
  {[ "PORT" := js "4200"; "OPENAI_MODEL" := js "gpt-4o-mini"; "NODE_ENV" := js "production" ]}.


(** *** The cipher module: comparison of secrets *)

(** [crypto.timingSafeEqual(a, b)]: whether two buffers hold the same
    bytes; buffers of different lengths are a [RangeError] ([None]). *)
Definition timingSafeEqual (a b : bytes) : option bool :=
  if (length a =? length b)%nat then Some (bool_decide (a = b)) else None.

(** [constantTimeEqual(a, b)]; [Buffer.from] of a string encodes it in
    UTF-8.  [None] stands for an exception. *)
Definition constantTimeEqual (a b : jsstring) : option bool :=
  let ab := utf8_encode a in
  let bb := utf8_encode b in
  if negb (length ab =? length bb)%nat then Some false
  else timingSafeEqual ab bb.

(** Authentication, the other half of the contract of AES-256-GCM:
    decryption gives a plaintext only for the ciphertext and the tag that
    encryption of that plaintext gives under the same key and nonce, and
    for one ciphertext it accepts one tag at most. *)
Record NodeAuthentic (N : Node) : Prop := {
  gcm_decrypt_authentic : forall key nonce tag_bytes ct pt,
    gcm_decrypt key nonce tag_bytes ct = Some pt ->
    gcm_encrypt key nonce pt = (ct, tag_bytes);
  gcm_tag_unique : forall key nonce tag1 tag2 ct pt1 pt2,
    gcm_decrypt key nonce tag1 ct = Some pt1 ->
    gcm_decrypt key nonce tag2 ct = Some pt2 ->
    tag1 = tag2;
}.

(** The payload [p] with another tag. *)
Definition with_tag (p : EncryptedPayload) (t : jsstring) : EncryptedPayload :=
  mk_EncryptedPayload (keyId p) (iv p) (ciphertext p) t.


(** *** More of the migration *)



(** *** Foreign keys and their referential actions *)

(** The columns that reference another table. *)
Inductive ref_column : Set := ref_tenant_id | ref_user_id | ref_mailbox_id.

#[global] Instance ref_column_eq_dec : EqDecision ref_column.
Proof. solve_decision. Defined.

Inductive fk_action : Set := Cascade | SetNull.

(** [fk_column uuid REFERENCES fk_parent(id) ON DELETE fk_on_delete], a
    column of [fk_table]. *)
Record foreign_key : Set := mk_fk {
  fk_table : table_name;
  fk_column : ref_column;
  fk_parent : table_name;
  fk_on_delete : fk_action;
}.

(** The fourteen REFERENCES clauses of the migration, in the order of the
    file. *)
Definition foreign_keys : list foreign_key :=
  [ mk_fk users ref_tenant_id tenants Cascade;
    mk_fk auth_accounts ref_tenant_id tenants Cascade;
    mk_fk auth_accounts ref_user_id users Cascade;
    mk_fk mailboxes ref_tenant_id tenants Cascade;
    mk_fk mailboxes ref_user_id users SetNull;
    mk_fk tasklists ref_tenant_id tenants Cascade;
    mk_fk messages ref_tenant_id tenants Cascade;
    mk_fk messages ref_mailbox_id mailboxes Cascade;
    mk_fk routing_rules ref_tenant_id tenants Cascade;
    mk_fk routing_rules ref_mailbox_id mailboxes SetNull;
    mk_fk onboarding_sessions ref_tenant_id tenants Cascade;
    mk_fk onboarding_sessions ref_user_id users Cascade;
    mk_fk activity_logs ref_tenant_id tenants Cascade;
    mk_fk activity_logs ref_user_id users SetNull ].

(** A row, reduced to its key and its references; a reference that is NULL,
    or a column that the table does not have, is [None]. *)
Record entity : Set := mk_entity {
  e_id : uuid;
  e_tenant_id : option uuid;
  e_user_id : option uuid;
  e_mailbox_id : option uuid;
}.

Definition reference (c : ref_column) (r : entity) : option uuid :=
  match c with
  | ref_tenant_id => e_tenant_id r
  | ref_user_id => e_user_id r
  | ref_mailbox_id => e_mailbox_id r
  end.

Definition set_null (c : ref_column) (r : entity) : entity :=
  match c with
  | ref_tenant_id => mk_entity (e_id r) None (e_user_id r) (e_mailbox_id r)
  | ref_user_id => mk_entity (e_id r) (e_tenant_id r) None (e_mailbox_id r)
  | ref_mailbox_id => mk_entity (e_id r) (e_tenant_id r) (e_user_id r) None
  end.

(** The tenant a row belongs to: a row of [tenants] is its own tenant. *)
Definition owner (t : table_name) (r : entity) : option uuid :=
  match t with
  | tenants => Some (e_id r)
  | _ => e_tenant_id r
  end.

(** The rows of every table. *)
Definition database := table_name -> list entity.

Definition change_table (db : database) (t : table_name)
    (f : list entity -> list entity) : database :=
  fun t' => if decide (t' = t) then f (db t') else db t'.

(** Whether the row references, through the column of the key, one of the
    rows that are being deleted. *)
Definition refers_to (fk : foreign_key) (ids : list uuid) (r : entity) : bool :=
  match reference (fk_column fk) r with
  | Some u => bool_decide (u ∈ ids)
  | None => false
  end.

(** What one key does when the rows [ids] of [t] are deleted: nothing if it
    does not reference [t]; otherwise the referencing rows are deleted in
    turn (CASCADE) or their reference is set to NULL (SET NULL). *)
Definition referential_action
    (delete : table_name -> list uuid -> database -> database)
    (t : table_name) (ids : list uuid) (acc : database) (fk : foreign_key) : database :=
  if decide (fk_parent fk = t) then
    match fk_on_delete fk with
    | Cascade =>
        delete (fk_table fk)
          (e_id <$> filter (fun r => refers_to fk ids r = true) (acc (fk_table fk)))
          acc
    | SetNull =>
        change_table acc (fk_table fk)
          (fmap (fun r => if refers_to fk ids r then set_null (fk_column fk) r else r))
    end
  else acc.

(** [DELETE FROM t WHERE id IN ids], by a role that row security does not
    restrict, with the referential actions that follow.  [depth] bounds the
    nesting of cascades; the keys of the migration nest four deep. *)
Fixpoint delete_rows (depth : nat) (t : table_name) (ids : list uuid) (db : database)
    : database :=
  match depth with
  | O => db
  | S depth' =>
      fold_left (referential_action (delete_rows depth') t ids) foreign_keys
        (change_table db t (filter (fun r => e_id r ∉ ids)))
  end.

Definition delete_from (t : table_name) (ids : list uuid) (db : database) : database :=
  delete_rows (length rls_enabled_tables) t ids db.

(** What the constraints of the schema guarantee of a database: the
    primary keys, and that every reference finds its row. *)
Definition primary_keys (db : database) : Prop :=
  forall t, NoDup (e_id <$> db t).

Definition references_valid (db : database) : Prop :=
  forall fk r u,
    fk ∈ foreign_keys -> r ∈ db (fk_table fk) ->
    reference (fk_column fk) r = Some u ->
    exists p, p ∈ db (fk_parent fk) ∧ e_id p = u.

(** What they do not guarantee, and the application has to: a row and the
    user or mailbox that it references belong to the same tenant. *)
Definition references_within_tenant (db : database) : Prop :=
  forall fk r p,
    fk ∈ foreign_keys -> r ∈ db (fk_table fk) -> p ∈ db (fk_parent fk) ->
    reference (fk_column fk) r = Some (e_id p) ->
    owner (fk_parent fk) p = owner (fk_table fk) r.

(** A row that comes from another row: the same key, the same tenant, and
    no reference that the other row does not have. *)
Definition comes_from (r' r : entity) : Prop :=
  e_id r' = e_id r ∧ e_tenant_id r' = e_tenant_id r
  ∧ forall c u, reference c r' = Some u -> reference c r = Some u.

(** A database all of whose rows come from rows of another. *)
Definition shrinks (db' db : database) : Prop :=
  forall t r', r' ∈ db' t -> exists r, r ∈ db t ∧ comes_from r' r.

(** The rows that do not belong to the tenant are the same in both, in the
    same order. *)
Definition others_untouched (tenant : uuid) (db' db : database) : Prop :=
  forall t,
    filter (fun r => owner t r ≠ Some tenant) (db' t)
    = filter (fun r => owner t r ≠ Some tenant) (db t).

(** An example: two tenants, a user and a mailbox each, a message in the
    first tenant's mailbox. *)
Definition example_database : database :=
  fun t =>
    match t with
    | tenants => [mk_entity 10 None None None; mk_entity 11 None None None]
    | users => [mk_entity 20 (Some 10) None None; mk_entity 21 (Some 11) None None]
    | mailboxes =>
        [mk_entity 30 (Some 10) (Some 20) None; mk_entity 31 (Some 11) (Some 21) None]
    | messages => [mk_entity 40 (Some 10) None (Some 30)]
    | activity_logs => [mk_entity 50 (Some 11) (Some 21) None]
    | _ => []
    end%N.

(** The same with the second tenant's mailbox attached to the first
    tenant's user, which no constraint forbids. *)
Definition crossed_database : database :=
  change_table example_database mailboxes
    (fun _ => [mk_entity 30 (Some 10) (Some 20) None; mk_entity 31 (Some 11) (Some 20) None]%N).


(** *** The two descriptions of the schema

    [server/db/schema.ts] describes the tables twice: as drizzle table
    definitions, which the server code queries through, and as the SQL
    migration, which creates them. *)

Inductive pg_type : Set :=
| Uuid | Text | Jsonb | Boolean | Bigint | Smallint
| Timestamp (with_time_zone : bool)
| Numeric (precision scale : nat)
| Enum (name : string).

Inductive default_value : Set :=
| DefaultNow
| DefaultText (s : string)
| DefaultBool (b : bool)
| DefaultInt (n : Z).

(** What both descriptions say of a column. *)
Record column_shape : Set := mk_shape {
  shape_name : string;
  shape_type : pg_type;
  shape_not_null : bool;
  shape_default : option default_value;
  shape_primary_key : bool;
}.

(** What both say of an index: its name, whether it is unique, and its
    columns in order. *)
Record index_shape : Set := mk_index_shape {
  index_name : string;
  index_unique : bool;
  index_columns : list string;
}.

(** **** The drizzle definitions *)

(** The calls chained on a column builder. *)
Inductive modifier : Set :=
| primaryKey
| notNull
| default_ (v : default_value)
| defaultNow.

(** [uuid('id').primaryKey()] and the like: the constructor with the name
    of the column, and the chain of calls. *)
Record builder : Set := mk_builder {
  b_type : pg_type;
  b_name : string;
  b_chain : list modifier;
}.

(** The enums, [pgEnum(name, values)]. *)
Definition userRole := ("user_role", ["owner"; "admin"; "member"; "viewer"]).
Definition userStatus := ("user_status", ["active"; "suspended"; "invited"]).
Definition tenantStatus := ("tenant_status", ["active"; "paused"; "archived"]).
Definition provider := ("provider", ["google"; "microsoft"; "imap"]).
Definition processingStatus :=
  ("processing_status", ["queued"; "processed"; "failed"; "skipped"]).
Definition tasklistPurpose :=
  ("tasklist_purpose",
   ["personal"; "work"; "ap"; "ar"; "sales"; "support"; "ops"; "exec"; "other"]).

Definition drizzle_enums : list (string * list string) :=
  [userRole; userStatus; tenantStatus; provider; processingStatus; tasklistPurpose].

(** A column of an enum type: [userRole('role')]. *)
Definition enum_column (e : string * list string) (name : string) (chain : list modifier)
    : builder :=
  mk_builder (Enum e.1) name chain.

(** The base columns, [columns]. *)
Definition columns_id := mk_builder Uuid "id" [primaryKey].
Definition columns_tenantId := mk_builder Uuid "tenant_id" [notNull].
Definition columns_createdAt := mk_builder (Timestamp true) "created_at" [notNull; defaultNow].
Definition columns_updatedAt := mk_builder (Timestamp true) "updated_at" [notNull; defaultNow].

(** An index of a table definition: [index(name).on(t.a, t.b)] or
    [uniqueIndex(name).on(...)], the columns given by the property names of
    the table. *)
Record drizzle_index : Set := mk_drizzle_index {
  di_unique : bool;
  di_name : string;
  di_on : list string;
}.

(** [pgTable(name, columns, indexes)]: the columns by property name. *)
Record drizzle_table : Set := mk_drizzle_table {
  dt_name : string;
  dt_columns : list (string * builder);
  dt_indexes : list drizzle_index;
}.

Definition drizzle_tenants : drizzle_table :=
  mk_drizzle_table "tenants"
    [ ("id", columns_id);
      ("name", mk_builder Text "name" [notNull]);
      ("slug", mk_builder Text "slug" [notNull]);
      ("status", enum_column tenantStatus "status" [notNull; default_ (DefaultText "active")]);
      ("plan", mk_builder Text "plan" []);
      ("createdAt", columns_createdAt);
      ("updatedAt", columns_updatedAt) ]
    [ mk_drizzle_index true "tenants_slug_unique" ["slug"] ].

Definition drizzle_users : drizzle_table :=
  mk_drizzle_table "users"
    [ ("id", columns_id);
      ("tenantId", columns_tenantId);
      ("email", mk_builder Text "email" [notNull]);
      ("name", mk_builder Text "name" []);
      ("role", enum_column userRole "role" [notNull; default_ (DefaultText "member")]);
      ("status", enum_column userStatus "status" [notNull; default_ (DefaultText "active")]);
      ("createdAt", columns_createdAt);
      ("updatedAt", columns_updatedAt) ]
    [ mk_drizzle_index true "users_tenant_email_unique" ["tenantId"; "email"];
      mk_drizzle_index false "users_by_tenant" ["tenantId"] ].

Definition drizzle_authAccounts : drizzle_table :=
  mk_drizzle_table "auth_accounts"
    [ ("id", columns_id);
      ("tenantId", columns_tenantId);
      ("userId", mk_builder Uuid "user_id" [notNull]);
      ("provider", enum_column provider "provider" [notNull]);
      ("providerAccountId", mk_builder Text "provider_account_id" [notNull]);
      ("refreshTokenEnc", mk_builder Text "refresh_token_enc" []);
      ("accessTokenEnc", mk_builder Text "access_token_enc" []);
      ("tokenExpiresAt", mk_builder (Timestamp true) "token_expires_at" []);
      ("scopes", mk_builder Text "scopes" []);
      ("keyId", mk_builder Text "key_id" []);
      ("createdAt", columns_createdAt);
      ("updatedAt", columns_updatedAt) ]
    [ mk_drizzle_index true "auth_accounts_provider_account_unique"
        ["provider"; "providerAccountId"];
      mk_drizzle_index false "auth_accounts_by_tenant" ["tenantId"];
      mk_drizzle_index false "auth_accounts_by_user" ["userId"] ].

Definition drizzle_mailboxes : drizzle_table :=
  mk_drizzle_table "mailboxes"
    [ ("id", columns_id);
      ("tenantId", columns_tenantId);
      ("userId", mk_builder Uuid "user_id" []);
      ("provider", enum_column provider "provider" [notNull]);
      ("emailAddress", mk_builder Text "email_address" [notNull]);
      ("refreshTokenEnc", mk_builder Text "refresh_token_enc" []);
      ("lastHistoryId", mk_builder Bigint "last_history_id" []);
      ("watchExpiration", mk_builder (Timestamp true) "watch_expiration" []);
      ("labelCache", mk_builder Jsonb "label_cache" []);
      ("isPrimary", mk_builder Boolean "is_primary" [notNull; default_ (DefaultBool false)]);
      ("isServiceAccount",
       mk_builder Boolean "is_service_account" [notNull; default_ (DefaultBool false)]);
      ("status", mk_builder Text "status" [notNull; default_ (DefaultText "active")]);
      ("createdAt", columns_createdAt);
      ("updatedAt", columns_updatedAt) ]
    [ mk_drizzle_index true "mailboxes_tenant_email_unique" ["tenantId"; "emailAddress"];
      mk_drizzle_index false "mailboxes_by_tenant" ["tenantId"];
      mk_drizzle_index false "mailboxes_by_user" ["userId"] ].

Definition drizzle_tasklists : drizzle_table :=
  mk_drizzle_table "tasklists"
    [ ("id", columns_id);
      ("tenantId", columns_tenantId);
      ("purpose", enum_column tasklistPurpose "purpose" [notNull]);
      ("googleTasklistId", mk_builder Text "google_tasklist_id" [notNull]);
      ("displayName", mk_builder Text "display_name" []);
      ("notes", mk_builder Text "notes" []);
      ("active", mk_builder Boolean "active" [notNull; default_ (DefaultBool true)]);
      ("createdAt", columns_createdAt);
      ("updatedAt", columns_updatedAt) ]
    [ mk_drizzle_index true "tasklists_tenant_purpose_unique" ["tenantId"; "purpose"];
      mk_drizzle_index true "tasklists_tenant_list_unique" ["tenantId"; "googleTasklistId"];
      mk_drizzle_index false "tasklists_by_tenant" ["tenantId"] ].

Definition drizzle_messages : drizzle_table :=
  mk_drizzle_table "messages"
    [ ("id", columns_id);
      ("tenantId", columns_tenantId);
      ("mailboxId", mk_builder Uuid "mailbox_id" [notNull]);
      ("gmailMessageId", mk_builder Text "gmail_message_id" [notNull]);
      ("gmailThreadId", mk_builder Text "gmail_thread_id" []);
      ("labelApplied", mk_builder Text "label_applied" []);
      ("confidence", mk_builder (Numeric 3 2) "confidence" []);
      ("createdTaskId", mk_builder Text "created_task_id" []);
      ("smsSid", mk_builder Text "sms_sid" []);
      ("processingStatus",
       enum_column processingStatus "processing_status"
         [notNull; default_ (DefaultText "queued")]);
      ("idempotencyKey", mk_builder Text "idempotency_key" []);
      ("processedAt", mk_builder (Timestamp true) "processed_at" []);
      ("metadata", mk_builder Jsonb "metadata" []);
      ("createdAt", columns_createdAt);
      ("updatedAt", columns_updatedAt) ]
    [ mk_drizzle_index true "messages_tenant_gmail_unique" ["tenantId"; "gmailMessageId"];
      mk_drizzle_index true "messages_tenant_idem_unique" ["tenantId"; "idempotencyKey"];
      mk_drizzle_index false "messages_by_status_created"
        ["tenantId"; "processingStatus"; "createdAt"];
      mk_drizzle_index false "messages_by_mailbox_created"
        ["tenantId"; "mailboxId"; "createdAt"] ].

Definition drizzle_routingRules : drizzle_table :=
  mk_drizzle_table "routing_rules"
    [ ("id", columns_id);
      ("tenantId", columns_tenantId);
      ("mailboxId", mk_builder Uuid "mailbox_id" []);
      ("threshold", mk_builder (Numeric 3 2) "threshold" []);
      ("labelOverrides", mk_builder Jsonb "label_overrides" []);
      ("matchers", mk_builder Jsonb "matchers" []);
      ("precedence", mk_builder Smallint "precedence" [notNull; default_ (DefaultInt 0)]);
      ("active", mk_builder Boolean "active" [notNull; default_ (DefaultBool true)]);
      ("createdAt", columns_createdAt);
      ("updatedAt", columns_updatedAt) ]
    [ mk_drizzle_index false "routing_rules_by_tenant" ["tenantId"] ].

Definition drizzle_onboardingSessions : drizzle_table :=
  mk_drizzle_table "onboarding_sessions"
    [ ("id", columns_id);
      ("tenantId", columns_tenantId);
      ("userId", mk_builder Uuid "user_id" [notNull]);
      ("status", mk_builder Text "status" [notNull; default_ (DefaultText "in_progress")]);
      ("step", mk_builder Smallint "step" [notNull; default_ (DefaultInt 0)]);
      ("answers", mk_builder Jsonb "answers" []);
      ("inboxDescriptions", mk_builder Jsonb "inbox_descriptions" []);
      ("bioSources", mk_builder Jsonb "bio_sources" []);
      ("createdAt", columns_createdAt);
      ("updatedAt", columns_updatedAt) ]
    [ mk_drizzle_index false "onboarding_sessions_by_tenant" ["tenantId"] ].

Definition drizzle_activityLogs : drizzle_table :=
  mk_drizzle_table "activity_logs"
    [ ("id", mk_builder Uuid "id" [primaryKey]);
      ("tenantId", mk_builder Uuid "tenant_id" [notNull]);
      ("userId", mk_builder Uuid "user_id" []);
      ("action", mk_builder Text "action" [notNull]);
      ("entityType", mk_builder Text "entity_type" [notNull]);
      ("entityId", mk_builder Uuid "entity_id" []);
      ("beforeFields", mk_builder Jsonb "before_fields" []);
      ("afterFields", mk_builder Jsonb "after_fields" []);
      ("createdAt", mk_builder (Timestamp true) "created_at" [notNull; defaultNow]) ]
    [ mk_drizzle_index false "activity_logs_by_tenant" ["tenantId"] ].

Definition drizzle_schema (t : table_name) : drizzle_table :=
  match t with
  | tenants => drizzle_tenants
  | users => drizzle_users
  | auth_accounts => drizzle_authAccounts
  | mailboxes => drizzle_mailboxes
  | tasklists => drizzle_tasklists
  | messages => drizzle_messages
  | routing_rules => drizzle_routingRules
  | onboarding_sessions => drizzle_onboardingSessions
  | activity_logs => drizzle_activityLogs
  end.

(** What a builder declares: a primary key is not null; the last default
    of the chain counts. *)
Definition declares_primary_key (m : modifier) : bool :=
  match m with primaryKey => true | _ => false end.

Definition declares_not_null (m : modifier) : bool :=
  match m with notNull => true | _ => false end.

Definition declares_default (m : modifier) : option default_value :=
  match m with
  | default_ v => Some v
  | defaultNow => Some DefaultNow
  | _ => None
  end.

Definition builder_shape (b : builder) : column_shape :=
  let pk := existsb declares_primary_key (b_chain b) in
  mk_shape (b_name b) (b_type b)
    (pk || existsb declares_not_null (b_chain b))
    (last (omap declares_default (b_chain b)))
    pk.

Definition drizzle_columns (t : table_name) : list column_shape :=
  (fun kb => builder_shape kb.2) <$> dt_columns (drizzle_schema t).

(** The column behind a property of the table, [t.tenantId]. *)
Definition property_column (tbl : drizzle_table) (property : string) : option string :=
  b_name <$> (list_to_map (dt_columns tbl) : gmap string builder) !! property.

Definition drizzle_indexes (t : table_name) : option (list index_shape) :=
  mapM (fun i =>
          cols ← mapM (property_column (drizzle_schema t)) (di_on i);
          Some (mk_index_shape (di_name i) (di_unique i) cols))
       (dt_indexes (drizzle_schema t)).

(** **** The SQL migration *)

Definition sql_enums : list (string * list string) :=
  [ ("user_role", ["owner"; "admin"; "member"; "viewer"]);
    ("user_status", ["active"; "suspended"; "invited"]);
    ("tenant_status", ["active"; "paused"; "archived"]);
    ("provider", ["google"; "microsoft"; "imap"]);
    ("processing_status", ["queued"; "processed"; "failed"; "skipped"]);
    ("tasklist_purpose",
     ["personal"; "work"; "ap"; "ar"; "sales"; "support"; "ops"; "exec"; "other"]) ].

(** The constraints written after the type of a column; [CHECK_between lo
    hi] is [CHECK (column >= lo AND column <= hi)]. *)
Inductive column_constraint : Set :=
| PRIMARY_KEY
| NOT_NULL
| DEFAULT (v : default_value)
| REFERENCES (parent : table_name) (on_delete : fk_action)
| CHECK_between (lo hi : Z).

Record sql_column : Set := mk_sql_column {
  sc_name : string;
  sc_type : pg_type;
  sc_constraints : list column_constraint;
}.

Definition timestamp_tz : pg_type := Timestamp true.

Definition table_sql_name (t : table_name) : string :=
  match t with
  | tenants => "tenants"
  | users => "users"
  | auth_accounts => "auth_accounts"
  | mailboxes => "mailboxes"
  | tasklists => "tasklists"
  | messages => "messages"
  | routing_rules => "routing_rules"
  | onboarding_sessions => "onboarding_sessions"
  | activity_logs => "activity_logs"
  end.

(** [CREATE TABLE t (...)] *)
Definition sql_table (t : table_name) : list sql_column :=
  match t with
  | tenants =>
      [ mk_sql_column "id" Uuid [PRIMARY_KEY];
        mk_sql_column "name" Text [NOT_NULL];
        mk_sql_column "slug" Text [NOT_NULL];
        mk_sql_column "status" (Enum "tenant_status") [NOT_NULL; DEFAULT (DefaultText "active")];
        mk_sql_column "plan" Text [];
        mk_sql_column "created_at" timestamp_tz [NOT_NULL; DEFAULT DefaultNow];
        mk_sql_column "updated_at" timestamp_tz [NOT_NULL; DEFAULT DefaultNow] ]
  | users =>
      [ mk_sql_column "id" Uuid [PRIMARY_KEY];
        mk_sql_column "tenant_id" Uuid [NOT_NULL; REFERENCES tenants Cascade];
        mk_sql_column "email" Text [NOT_NULL];
        mk_sql_column "name" Text [];
        mk_sql_column "role" (Enum "user_role") [NOT_NULL; DEFAULT (DefaultText "member")];
        mk_sql_column "status" (Enum "user_status") [NOT_NULL; DEFAULT (DefaultText "active")];
        mk_sql_column "created_at" timestamp_tz [NOT_NULL; DEFAULT DefaultNow];
        mk_sql_column "updated_at" timestamp_tz [NOT_NULL; DEFAULT DefaultNow] ]
  | auth_accounts =>
      [ mk_sql_column "id" Uuid [PRIMARY_KEY];
        mk_sql_column "tenant_id" Uuid [NOT_NULL; REFERENCES tenants Cascade];
        mk_sql_column "user_id" Uuid [NOT_NULL; REFERENCES users Cascade];
        mk_sql_column "provider" (Enum "provider") [NOT_NULL];
        mk_sql_column "provider_account_id" Text [NOT_NULL];
        mk_sql_column "refresh_token_enc" Text [];
        mk_sql_column "access_token_enc" Text [];
        mk_sql_column "token_expires_at" timestamp_tz [];
        mk_sql_column "scopes" Text [];
        mk_sql_column "key_id" Text [];
        mk_sql_column "created_at" timestamp_tz [NOT_NULL; DEFAULT DefaultNow];
        mk_sql_column "updated_at" timestamp_tz [NOT_NULL; DEFAULT DefaultNow] ]
  | mailboxes =>
      [ mk_sql_column "id" Uuid [PRIMARY_KEY];
        mk_sql_column "tenant_id" Uuid [NOT_NULL; REFERENCES tenants Cascade];
        mk_sql_column "user_id" Uuid [REFERENCES users SetNull];
        mk_sql_column "provider" (Enum "provider") [NOT_NULL];
        mk_sql_column "email_address" Text [NOT_NULL];
        mk_sql_column "refresh_token_enc" Text [];
        mk_sql_column "last_history_id" Bigint [];
        mk_sql_column "watch_expiration" timestamp_tz [];
        mk_sql_column "label_cache" Jsonb [];
        mk_sql_column "is_primary" Boolean [NOT_NULL; DEFAULT (DefaultBool false)];
        mk_sql_column "is_service_account" Boolean [NOT_NULL; DEFAULT (DefaultBool false)];
        mk_sql_column "status" Text [NOT_NULL; DEFAULT (DefaultText "active")];
        mk_sql_column "created_at" timestamp_tz [NOT_NULL; DEFAULT DefaultNow];
        mk_sql_column "updated_at" timestamp_tz [NOT_NULL; DEFAULT DefaultNow] ]
  | tasklists =>
      [ mk_sql_column "id" Uuid [PRIMARY_KEY];
        mk_sql_column "tenant_id" Uuid [NOT_NULL; REFERENCES tenants Cascade];
        mk_sql_column "purpose" (Enum "tasklist_purpose") [NOT_NULL];
        mk_sql_column "google_tasklist_id" Text [NOT_NULL];
        mk_sql_column "display_name" Text [];
        mk_sql_column "notes" Text [];
        mk_sql_column "active" Boolean [NOT_NULL; DEFAULT (DefaultBool true)];
        mk_sql_column "created_at" timestamp_tz [NOT_NULL; DEFAULT DefaultNow];
        mk_sql_column "updated_at" timestamp_tz [NOT_NULL; DEFAULT DefaultNow] ]
  | messages =>
      [ mk_sql_column "id" Uuid [PRIMARY_KEY];
        mk_sql_column "tenant_id" Uuid [NOT_NULL; REFERENCES tenants Cascade];
        mk_sql_column "mailbox_id" Uuid [NOT_NULL; REFERENCES mailboxes Cascade];
        mk_sql_column "gmail_message_id" Text [NOT_NULL];
        mk_sql_column "gmail_thread_id" Text [];
        mk_sql_column "label_applied" Text [];
        mk_sql_column "confidence" (Numeric 3 2) [CHECK_between 0 1];
        mk_sql_column "created_task_id" Text [];
        mk_sql_column "sms_sid" Text [];
        mk_sql_column "processing_status" (Enum "processing_status")
          [NOT_NULL; DEFAULT (DefaultText "queued")];
        mk_sql_column "idempotency_key" Text [];
        mk_sql_column "processed_at" timestamp_tz [];
        mk_sql_column "metadata" Jsonb [];
        mk_sql_column "created_at" timestamp_tz [NOT_NULL; DEFAULT DefaultNow];
        mk_sql_column "updated_at" timestamp_tz [NOT_NULL; DEFAULT DefaultNow] ]
  | routing_rules =>
      [ mk_sql_column "id" Uuid [PRIMARY_KEY];
        mk_sql_column "tenant_id" Uuid [NOT_NULL; REFERENCES tenants Cascade];
        mk_sql_column "mailbox_id" Uuid [REFERENCES mailboxes SetNull];
        mk_sql_column "threshold" (Numeric 3 2) [];
        mk_sql_column "label_overrides" Jsonb [];
        mk_sql_column "matchers" Jsonb [];
        mk_sql_column "precedence" Smallint [NOT_NULL; DEFAULT (DefaultInt 0)];
        mk_sql_column "active" Boolean [NOT_NULL; DEFAULT (DefaultBool true)];
        mk_sql_column "created_at" timestamp_tz [NOT_NULL; DEFAULT DefaultNow];
        mk_sql_column "updated_at" timestamp_tz [NOT_NULL; DEFAULT DefaultNow] ]
  | onboarding_sessions =>
      [ mk_sql_column "id" Uuid [PRIMARY_KEY];
        mk_sql_column "tenant_id" Uuid [NOT_NULL; REFERENCES tenants Cascade];
        mk_sql_column "user_id" Uuid [NOT_NULL; REFERENCES users Cascade];
        mk_sql_column "status" Text [NOT_NULL; DEFAULT (DefaultText "in_progress")];
        mk_sql_column "step" Smallint [NOT_NULL; DEFAULT (DefaultInt 0)];
        mk_sql_column "answers" Jsonb [];
        mk_sql_column "inbox_descriptions" Jsonb [];
        mk_sql_column "bio_sources" Jsonb [];
        mk_sql_column "created_at" timestamp_tz [NOT_NULL; DEFAULT DefaultNow];
        mk_sql_column "updated_at" timestamp_tz [NOT_NULL; DEFAULT DefaultNow] ]
  | activity_logs =>
      [ mk_sql_column "id" Uuid [PRIMARY_KEY];
        mk_sql_column "tenant_id" Uuid [NOT_NULL; REFERENCES tenants Cascade];
        mk_sql_column "user_id" Uuid [REFERENCES users SetNull];
        mk_sql_column "action" Text [NOT_NULL];
        mk_sql_column "entity_type" Text [NOT_NULL];
        mk_sql_column "entity_id" Uuid [];
        mk_sql_column "before_fields" Jsonb [];
        mk_sql_column "after_fields" Jsonb [];
        mk_sql_column "created_at" timestamp_tz [NOT_NULL; DEFAULT DefaultNow] ]
  end.

Definition is_primary_key (c : column_constraint) : bool :=
  match c with PRIMARY_KEY => true | _ => false end.

Definition is_not_null (c : column_constraint) : bool :=
  match c with NOT_NULL => true | _ => false end.

Definition is_default (c : column_constraint) : option default_value :=
  match c with DEFAULT v => Some v | _ => None end.

(** What PostgreSQL records for a column: a primary key column is also NOT
    NULL. *)
Definition sql_shape (c : sql_column) : column_shape :=
  let pk := existsb is_primary_key (sc_constraints c) in
  mk_shape (sc_name c) (sc_type c)
    (pk || existsb is_not_null (sc_constraints c))
    (last (omap is_default (sc_constraints c)))
    pk.

Definition sql_columns (t : table_name) : list column_shape :=
  sql_shape <$> sql_table t.

(** [CREATE [UNIQUE] INDEX name ON t (columns)]; a column may be marked
    [DESC]. *)
Record sql_index : Set := mk_sql_index {
  si_unique : bool;
  si_name : string;
  si_table : table_name;
  si_columns : list (string * bool);
}.

Definition asc (c : string) : string * bool := (c, false).
Definition desc (c : string) : string * bool := (c, true).

Definition sql_index_list : list sql_index :=
  [ mk_sql_index true "tenants_slug_unique" tenants [asc "slug"];
    mk_sql_index true "users_tenant_email_unique" users [asc "tenant_id"; asc "email"];
    mk_sql_index false "users_by_tenant" users [asc "tenant_id"];
    mk_sql_index true "auth_accounts_provider_account_unique" auth_accounts
      [asc "provider"; asc "provider_account_id"];
    mk_sql_index false "auth_accounts_by_tenant" auth_accounts [asc "tenant_id"];
    mk_sql_index false "auth_accounts_by_user" auth_accounts [asc "user_id"];
    mk_sql_index true "mailboxes_tenant_email_unique" mailboxes
      [asc "tenant_id"; asc "email_address"];
    mk_sql_index false "mailboxes_by_tenant" mailboxes [asc "tenant_id"];
    mk_sql_index false "mailboxes_by_user" mailboxes [asc "user_id"];
    mk_sql_index true "tasklists_tenant_purpose_unique" tasklists
      [asc "tenant_id"; asc "purpose"];
    mk_sql_index true "tasklists_tenant_list_unique" tasklists
      [asc "tenant_id"; asc "google_tasklist_id"];
    mk_sql_index false "tasklists_by_tenant" tasklists [asc "tenant_id"];
    mk_sql_index true "messages_tenant_gmail_unique" messages
      [asc "tenant_id"; asc "gmail_message_id"];
    mk_sql_index true "messages_tenant_idem_unique" messages
      [asc "tenant_id"; asc "idempotency_key"];
    mk_sql_index false "messages_by_status_created" messages
      [asc "tenant_id"; asc "processing_status"; desc "created_at"];
    mk_sql_index false "messages_by_mailbox_created" messages
      [asc "tenant_id"; asc "mailbox_id"; desc "created_at"];
    mk_sql_index false "routing_rules_by_tenant" routing_rules [asc "tenant_id"];
    mk_sql_index false "onboarding_sessions_by_tenant" onboarding_sessions [asc "tenant_id"];
    mk_sql_index false "activity_logs_by_tenant" activity_logs [asc "tenant_id"] ].

Definition sql_indexes (t : table_name) : list index_shape :=
  (fun i => mk_index_shape (si_name i) (si_unique i) (fst <$> si_columns i))
    <$> filter (fun i => si_table i = t) sql_index_list.

(** The index columns that the migration orders descending, each with the
    name of its index. *)
Definition descending_columns : list (string * string) :=
  flat_map (fun i => (fun c => (si_name i, fst c))
                       <$> filter (fun c => snd c = true) (si_columns i))
           sql_index_list.

(** The REFERENCES clauses of a table, by its columns: [None] stands for a
    clause on a column other than the three that carry references. *)
Definition column_of_reference (name : string) : option ref_column :=
  if bool_decide (name = "tenant_id") then Some ref_tenant_id
  else if bool_decide (name = "user_id") then Some ref_user_id
  else if bool_decide (name = "mailbox_id") then Some ref_mailbox_id
  else None.

Definition references_of (t : table_name) : list (option foreign_key) :=
  flat_map (fun c =>
              omap (fun k => match k with
                             | REFERENCES parent action =>
                                 Some ((fun col => mk_fk t col parent action)
                                         <$> column_of_reference (sc_name c))
                             | _ => None
                             end) (sc_constraints c))
           (sql_table t).

Definition declared_references : list (option foreign_key) :=
  flat_map references_of rls_enabled_tables.


(** *** The build information and the server

    The build script writes [build-info.json]; the server reads it for
    [/version]. *)

Section OwnProperties.
Local Open Scope N_scope.

Definition index_value (k : jsstring) : N :=
  fold_left (fun acc d => acc * 10 + (d - 48)) k 0.

(** An array index: the canonical decimal text of an integer from 0 to
    2^32 - 2. *)
Definition array_index (k : jsstring) : option N :=
  match k with
  | [] => None
  | d :: ds =>
      if forallb is_digit k && (negb (d =? 48) || bool_decide (ds = []))
         && (index_value k <? 4294967295)
      then Some (index_value k)
      else None
  end.

Fixpoint first_occurrences (seen keys : list jsstring) : list jsstring :=
  match keys with
  | [] => []
  | k :: ks =>
      if bool_decide (k ∈ seen) then first_occurrences seen ks
      else k :: first_occurrences (k :: seen) ks
  end.

Fixpoint insert_index (k : N * jsstring) (l : list (N * jsstring)) : list (N * jsstring) :=
  match l with
  | [] => [k]
  | h :: t => if k.1 <? h.1 then k :: l else h :: insert_index k t
  end.

Fixpoint last_value {A} (k : jsstring) (members : list (jsstring * A)) : option A :=
  match members with
  | [] => None
  | (k', v) :: ms =>
      match last_value k ms with
      | Some v' => Some v'
      | None => if jsstring_eqb k' k then Some v else None
      end
  end.

(** The properties of the object that [JSON.parse] builds from the members
    of an object literal, in the order in which they are enumerated: a
    repeated key keeps the place of its first member and the value of its
    last; the keys that are array indices come first, in ascending order,
    the others follow in the order of the text. *)
Definition own_properties {A} (members : list (jsstring * A)) : list (jsstring * A) :=
  let keys := first_occurrences [] (members.*1) in
  let indices := omap (fun k => (fun i => (i, k)) <$> array_index k) keys in
  let named := filter (fun k => array_index k = None) keys in
  omap (fun k => (fun v => (k, v)) <$> last_value k members)
       ((foldr insert_index [] indices).*2 ++ named).
End OwnProperties.

Section BuildInfo.
Context `{Zod}.

(** [Number::toString] of a finite number. *)
Variable number_toString : Q -> jsstring.

(** Truthiness of a parsed value or [undefined]. *)
Definition truthy_value (v : option json) : bool :=
  match v with
  | None => false
  | Some JNull => false
  | Some (JBool b) => b
  | Some (JNumber text) =>
      match Number text with
      | NaN => false
      | Infinity _ => true
      | Finite q => negb (Qeq_bool q 0)
      end
  | Some (JString s) => negb (bool_decide (s = []))
  | Some (JArray _) => true
  | Some (JObject _) => true
  end.

(** [v || d] *)
Definition or_else (v : option json) (d : json) : json :=
  match v with
  | Some x => if truthy_value v then x else d
  | None => d
  end.

Fixpoint join (separator : jsstring) (parts : list jsstring) : jsstring :=
  match parts with
  | [] => []
  | [p] => p
  | p :: ps => p ++ separator ++ join separator ps
  end.

(** [JSON.stringify(v, null, gap)] for a parsed value [v] and a gap that is
    not empty, at the indentation [indent]: every member and every item on
    a line of its own, a space after the colon; an infinite number is
    written as [null]. *)
Fixpoint stringify_gap (gap indent : jsstring) (v : json) : jsstring :=
  let indent' := indent ++ gap in
  let separator := [chr ","; 10%N] ++ indent' in
  match v with
  | JNull => js "null"
  | JBool true => js "true"
  | JBool false => js "false"
  | JNumber text =>
      match Number text with
      | Finite q => number_toString q
      | _ => js "null"
      end
  | JString s => quote s
  | JArray items =>
      match (fix go (vs : list json) : list jsstring :=
               match vs with
               | [] => []
               | v :: vs' => stringify_gap gap indent' v :: go vs'
               end) items with
      | [] => js "[]"
      | parts =>
          [chr "["; 10%N] ++ indent' ++ join separator parts
            ++ [10%N] ++ indent ++ [chr "]"]
      end
  | JObject members =>
      match own_properties
              ((fix go (ms : list (jsstring * json)) : list (jsstring * jsstring) :=
                  match ms with
                  | [] => []
                  | (k, v) :: ms' => (k, stringify_gap gap indent' v) :: go ms'
                  end) members) with
      | [] => js "{}"
      | properties =>
          [chr "{"; 10%N] ++ indent'
            ++ join separator ((fun p => quote p.1 ++ [chr ":"; 32%N] ++ p.2) <$> properties)
            ++ [10%N] ++ indent ++ [chr "}"]
      end
  end.

(** **** The build script *)

(** [gitSha]: the trimmed output of [git rev-parse --short HEAD], or
    ['unknown'] when the command fails ([git] is [None]). *)
Definition gitSha (git : option bytes) : jsstring :=
  match git with
  | Some output => trim (utf8_decode output)
  | None => js "unknown"
  end.

Definition buildInfo (pkg : json) (git : option bytes) (builtAt : jsstring)
    : Result js_error json :=
  name <-- get_property pkg (js "name") ;;
  version <-- get_property pkg (js "version") ;;
  Ok (JObject [ (js "name", or_else name (JString (js "assistant-server")));
                (js "version", or_else version (JString (js "0.0.0")));
                (js "gitSha", JString (gitSha git));
                (js "builtAt", JString builtAt) ]).

(** The script: the bytes it writes to [build-info.json], or the exception
    it ends with, for the content of [package.json] ([None] when the file
    cannot be read), the outcome of the git command and the time of the
    build. *)
Definition build_script (package_json : option bytes) (git : option bytes)
    (builtAt : jsstring) : Result js_error bytes :=
  match package_json with
  | None => Err (JsError "ENOENT")
  | Some content =>
      match JSON_parse (utf8_decode content) with
      | None => Err SyntaxError
      | Some pkg =>
          value <-- buildInfo pkg git builtAt ;;
          Ok (utf8_encode (stringify_gap [32%N; 32%N] [] value))
      end
  end.

(** **** The server *)

Definition default_build_info (now : jsstring) : json :=
  JObject [ (js "name", JString (js "assistant-server"));
            (js "version", JString (js "0.0.0"));
            (js "gitSha", JString (js "unknown"));
            (js "builtAt", JString now) ].

(** [readBuildInfo()], for the content of [build-info.json] ([None] when
    the file cannot be read) and the time of the call. *)
Definition readBuildInfo (file : option bytes) (now : jsstring) : json :=
  match file with
  | Some content =>
      match JSON_parse (utf8_decode content) with
      | Some value => value
      | None => default_build_info now
      end
  | None => default_build_info now
  end.

(** [GET /healthz] and [GET /version] *)
Definition GET_healthz : json := JObject [ (js "status", JString (js "ok")) ].

Definition GET_version (file : option bytes) (now : jsstring) : json :=
  readBuildInfo file now.

End BuildInfo.

(** **** Invariants of the decoder and of the parser *)

Section Units.
Local Open Scope N_scope.

Fixpoint utf8_weight (needed : nat) : N :=
  match needed with
  | S (S _ as n) => 64 * utf8_weight n
  | _ => 1
  end.

(** What the decoder has read of a sequence stays below the end of the
    code points. *)
Definition utf8_state_ok (st : utf8_state) : Prop :=
  match st with
  | Boundary => True
  | Inside needed cp lower upper =>
      128 <= lower ∧ upper <= 191
      ∧ (cp * 64 + (upper - 128) + 1) * utf8_weight needed <= 1114112
  end.

(** The strings and the keys of a value consist of code units. *)
Fixpoint json_units (v : json) : Prop :=
  match v with
  | JString s => is_jsstring s
  | JArray items =>
      (fix all (vs : list json) : Prop :=
         match vs with
         | [] => True
         | v :: vs' => json_units v ∧ all vs'
         end) items
  | JObject members =>
      (fix all (ms : list (jsstring * json)) : Prop :=
         match ms with
         | [] => True
         | (k, v) :: ms' => is_jsstring k ∧ json_units v ∧ all ms'
         end) members
  | _ => True
  end.

Definition items_units (vs : list json) : Prop := Forall json_units vs.
Definition members_units (ms : list (jsstring * json)) : Prop :=
  Forall (fun m => is_jsstring m.1 ∧ json_units m.2) ms.
End Units.


(** * Part 5, proofs: the reference cipher *)

(** Known answers: the S-box, the AES-256 example of FIPS 197 (appendix
    C.3), and test cases 13 and 14 of the GCM specification. *)
Example sbox_known : sbox 0x53 = 0xED%N ∧ take 4 sbox_table = [0x63; 0x7C; 0x77; 0x7B]%N.
Proof. split; reflexivity. Qed.

Example aes256_known :
  aes256_encrypt_block (N.of_nat <$> seq 0 32)
    [0x00; 0x11; 0x22; 0x33; 0x44; 0x55; 0x66; 0x77;
     0x88; 0x99; 0xAA; 0xBB; 0xCC; 0xDD; 0xEE; 0xFF]%N
  = [0x8E; 0xA2; 0xB7; 0xCA; 0x51; 0x67; 0x45; 0xBF;
     0xEA; 0xFC; 0x49; 0x90; 0x4B; 0x49; 0x60; 0x89]%N.
Proof. vm_compute. reflexivity. Qed.

Example gcm_known_13 :
  aes_256_gcm_encrypt (replicate 32 0%N) (replicate 12 0%N) []
  = ([], [0x53; 0x0F; 0x8A; 0xFB; 0xC7; 0x45; 0x36; 0xB9;
          0xA9; 0x63; 0xB4; 0xF1; 0xC4; 0xCB; 0x73; 0x8B]%N).
Proof. vm_compute. reflexivity. Qed.

Example gcm_known_14 :
  aes_256_gcm_encrypt (replicate 32 0%N) (replicate 12 0%N) (replicate 16 0%N)
  = ([0xCE; 0xA7; 0x40; 0x3D; 0x4D; 0x60; 0x6B; 0x6E;
      0x07; 0x4E; 0xC5; 0xD3; 0xBA; 0xF3; 0x9D; 0x18]%N,
     [0xD0; 0xD1; 0xC8; 0xA7; 0x99; 0x99; 0x6B; 0xF0;
      0x26; 0x5B; 0x98; 0xB5; 0xD4; 0x8A; 0xB9; 0x19]%N).
Proof. vm_compute. reflexivity. Qed.

Example gcm_known_15 :
  aes_256_gcm_encrypt
    [0xFE; 0xFF; 0xE9; 0x92; 0x86; 0x65; 0x73; 0x1C; 0x6D; 0x6A; 0x8F; 0x94;
     0x67; 0x30; 0x83; 0x08; 0xFE; 0xFF; 0xE9; 0x92; 0x86; 0x65; 0x73; 0x1C;
     0x6D; 0x6A; 0x8F; 0x94; 0x67; 0x30; 0x83; 0x08]%N
    [0xCA; 0xFE; 0xBA; 0xBE; 0xFA; 0xCE; 0xDB; 0xAD; 0xDE; 0xCA; 0xF8; 0x88]%N
    [0xD9; 0x31; 0x32; 0x25; 0xF8; 0x84; 0x06; 0xE5; 0xA5; 0x59; 0x09; 0xC5;
     0xAF; 0xF5; 0x26; 0x9A; 0x86; 0xA7; 0xA9; 0x53; 0x15; 0x34; 0xF7; 0xDA;
     0x2E; 0x4C; 0x30; 0x3D; 0x8A; 0x31; 0x8A; 0x72; 0x1C; 0x3C; 0x0C; 0x95;
     0x95; 0x68; 0x09; 0x53; 0x2F; 0xCF; 0x0E; 0x24; 0x49; 0xA6; 0xB5; 0x25;
     0xB1; 0x6A; 0xED; 0xF5; 0xAA; 0x0D; 0xE6; 0x57; 0xBA; 0x63; 0x7B; 0x39;
     0x1A; 0xAF; 0xD2; 0x55]%N
  = ([0x52; 0x2D; 0xC1; 0xF0; 0x99; 0x56; 0x7D; 0x07; 0xF4; 0x7F; 0x37; 0xA3;
      0x2A; 0x84; 0x42; 0x7D; 0x64; 0x3A; 0x8C; 0xDC; 0xBF; 0xE5; 0xC0; 0xC9;
      0x75; 0x98; 0xA2; 0xBD; 0x25; 0x55; 0xD1; 0xAA; 0x8C; 0xB0; 0x8E; 0x48;
      0x59; 0x0D; 0xBB; 0x3D; 0xA7; 0xB0; 0x8B; 0x10; 0x56; 0x82; 0x88; 0x38;
      0xC5; 0xF6; 0x1E; 0x63; 0x93; 0xBA; 0x7A; 0x0A; 0xBC; 0xC9; 0xF6; 0x62;
      0x89; 0x80; 0x15; 0xAD]%N,
     [0xB0; 0x94; 0xDA; 0xC5; 0xD9; 0x34; 0x71; 0xBD; 0xEC; 0x1A; 0x50; 0x22;
      0x70; 0xE3; 0xCC; 0x6C]%N).
Proof. vm_compute. reflexivity. Qed.

(** *** The laws of the cipher *)

Section AesLaws.
Local Open Scope N_scope.

Lemma lxor_byte (a b : N) : a < 256 -> b < 256 -> N.lxor a b < 256.
Proof.
  intros Ha Hb.
  destruct (N.eq_dec (N.lxor a b) 0) as [-> | Hx]; [lia|].
  change 256 with (2 ^ 8). apply N.log2_lt_pow2; [lia|].
  eapply N.le_lt_trans; [apply N.log2_lxor|].
  assert (Hlog : forall x, x < 256 -> N.log2 x < 8).
  { intros x Hx'. destruct (N.eq_dec x 0) as [-> | ?]; [done|].
    apply N.log2_lt_pow2; [lia | exact Hx']. }
  pose proof (Hlog a Ha). pose proof (Hlog b Hb). lia.
Qed.

Lemma xor_bytes_is_bytes (a b : bytes) :
  is_bytes a -> is_bytes b -> is_bytes (xor_bytes a b).
Proof.
  unfold is_bytes, xor_bytes. intros Ha. revert b.
  induction Ha as [|x a Hx Ha IH]; intros [|y b] Hb; cbn; try constructor.
  - apply lxor_byte; [done | by inversion Hb].
  - apply IH. by inversion Hb.
Qed.

Lemma xor_bytes_involutive (a s : bytes) :
  length s = length a -> xor_bytes (xor_bytes a s) s = a.
Proof.
  unfold xor_bytes. revert s.
  induction a as [|x a IH]; intros [|y s] Hlen; cbn in *; try done.
  rewrite IH by lia. by rewrite N.lxor_assoc, N.lxor_nilpotent, N.lxor_0_r.
Qed.

Lemma mod_256_is_bytes (l : list N) : is_bytes ((fun x => x mod 256) <$> l).
Proof.
  unfold is_bytes. induction l as [|x l IH]; cbn; constructor; [|done].
  apply N.mod_lt. lia.
Qed.

Lemma gcm_stream_length key nonce len : length (gcm_stream key nonce len) = len.
Proof.
  unfold gcm_stream. rewrite length_fmap, length_take, length_app, length_replicate. lia.
Qed.

Lemma gcm_tag_length key nonce ct : length (gcm_tag key nonce ct) = AUTH_TAG_LENGTH.
Proof.
  unfold gcm_tag, xor_bytes, bytes_of_block, bytes_of_number.
  rewrite length_fmap, length_zip_with, length_fmap, length_seq, length_app,
    length_replicate. unfold AUTH_TAG_LENGTH. lia.
Qed.

Lemma aes_256_gcm_encrypt_length key nonce pt :
  length (aes_256_gcm_encrypt key nonce pt).1 = length pt
  ∧ length (aes_256_gcm_encrypt key nonce pt).2 = AUTH_TAG_LENGTH.
Proof.
  unfold aes_256_gcm_encrypt. cbn [fst snd]. split; [|apply gcm_tag_length].
  unfold xor_bytes. rewrite length_zip_with, gcm_stream_length. lia.
Qed.

Lemma aes_256_gcm_encrypt_bytes key nonce pt :
  is_bytes key -> is_bytes nonce -> is_bytes pt ->
  is_bytes (aes_256_gcm_encrypt key nonce pt).1
  ∧ is_bytes (aes_256_gcm_encrypt key nonce pt).2.
Proof.
  intros _ _ Hpt. unfold aes_256_gcm_encrypt. cbn [fst snd]. split.
  - apply xor_bytes_is_bytes; [done | apply mod_256_is_bytes].
  - apply mod_256_is_bytes.
Qed.

Lemma aes_256_gcm_decrypt_encrypt key nonce pt :
  is_bytes key -> is_bytes nonce -> is_bytes pt ->
  length key = 32%nat -> length nonce = IV_LENGTH ->
  aes_256_gcm_decrypt key nonce (aes_256_gcm_encrypt key nonce pt).2
                      (aes_256_gcm_encrypt key nonce pt).1 = Some pt.
Proof.
  intros _ _ _ Hkey Hnonce.
  destruct (aes_256_gcm_encrypt_length key nonce pt) as [Hct Htag].
  unfold aes_256_gcm_decrypt. rewrite Hkey, Hnonce, Htag. cbn [Nat.eqb negb orb IV_LENGTH AUTH_TAG_LENGTH].
  unfold aes_256_gcm_encrypt in *. cbn [fst snd] in *.
  rewrite bool_decide_eq_true_2 by done.
  rewrite Hct, xor_bytes_involutive; [done | apply gcm_stream_length].
Qed.
End AesLaws.

Lemma stream_bytes_length n g : length (stream_bytes n g).1 = n.
Proof. unfold stream_bytes. cbn. by rewrite length_fmap, length_seq. Qed.

Lemma stream_bytes_is_bytes n g : is_bytes (stream_bytes n g).1.
Proof.
  unfold stream_bytes, is_bytes. cbn. apply Forall_fmap, Forall_forall.
  intros i _. cbn. apply N.mod_lt. lia.
Qed.

(** The reference implementation meets the contract. *)
Lemma node_contract : NodeContract node.
Proof.
  constructor.
  - apply stream_bytes_length.
  - apply stream_bytes_is_bytes.
  - apply aes_256_gcm_encrypt_length.
  - apply aes_256_gcm_encrypt_bytes.
  - apply aes_256_gcm_decrypt_encrypt.
Qed.


(** * Part 1, proofs: tenant isolation and retention *)

Section RowSecurity.
Context `{PgCast}.













End RowSecurity.


Section Retention.
Context `{PgCast}.



Lemma filter_all_id {A} (P : A -> Prop) `{!forall x, Decision (P x)} (l : list A) :
  (forall x, x ∈ l -> P x) -> filter P l = l.
Proof.
  induction l as [|x l IH]; [done|]. intros Hl.
  rewrite filter_cons. case_decide as Hx.
  - f_equal. apply IH. intros y Hy. apply Hl. by right.
  - exfalso. apply Hx, Hl. left.
Qed.


End Retention.




(** * Part 2, proofs: the encodings *)

(** Arithmetic with division by constants. *)
Ltac div_lia := zify; Z.to_euclidean_division_equations; lia.

(** Replace a comparison by its value, found by arithmetic. *)
Ltac cmp_true c := replace c with true by (symmetry; div_lia).
Ltac cmp_false c := replace c with false by (symmetry; div_lia).

(** Case analysis on the condition of an innermost [if] of the goal. *)
Ltac case_if :=
  match goal with
  | |- context [if ?c then _ else _] =>
      lazymatch c with
      | context [if _ then _ else _] => fail
      | _ => let H := fresh "Hc" in destruct c eqn:H
      end
  end.

(** Settle the condition of an innermost [if] of the goal by arithmetic. *)
Ltac decide_if :=
  match goal with
  | |- context [if ?c then _ else _] =>
      lazymatch c with
      | context [if _ then _ else _] => fail
      | _ => first [ replace c with true by (symmetry; div_lia)
                   | replace c with false by (symmetry; div_lia) ]
      end
  end.

Section Base64.
Local Open Scope N_scope.

Lemma list_ind3 {A} (P : list A -> Prop) :
  P [] -> (forall a, P [a]) -> (forall a b, P [a; b]) ->
  (forall a b c l, P l -> P (a :: b :: c :: l)) ->
  forall l, P l.
Proof.
  intros H0 H1 H2 H3.
  assert (H : forall l, P l ∧ (forall a, P (a :: l)) ∧ (forall a b, P (a :: b :: l))).
  { induction l as [|x l (IH0 & IH1 & IH2)]; [by auto|].
    split; [apply IH1 | split; [intros a; apply IH2 | intros a b; by apply H3]]. }
  intros l. apply H.
Qed.

Lemma unbase64_base64_char v : v < 64 -> unbase64 (base64_char v) = Some v.
Proof.
  intros Hv. unfold base64_char, unbase64.
  repeat case_if; try (f_equal; div_lia); exfalso; div_lia.
Qed.

Lemma base64_char_not_pad v : (base64_char v =? pad) = false.
Proof.
  unfold base64_char, pad. repeat case_if; div_lia.
Qed.

Lemma base64_sextets_char v rest :
  v < 64 -> base64_sextets (base64_char v :: rest) = v :: base64_sextets rest.
Proof.
  intros Hv. cbn [base64_sextets].
  by rewrite base64_char_not_pad, unbase64_base64_char.
Qed.

Lemma base64_sextets_pad rest : base64_sextets (pad :: rest) = [].
Proof. reflexivity. Qed.

(** Decoding what [toString('base64')] wrote gives the bytes back. *)
Lemma base64_decode_encode (bs : bytes) :
  is_bytes bs -> base64_decode (base64_encode bs) = bs.
Proof.
  unfold base64_decode, is_bytes.
  induction bs as [|a|a b|a b c bs IH] using list_ind3; intros Hb.
  - reflexivity.
  - apply Forall_cons in Hb as [Ha _]. cbn [base64_encode].
    rewrite !base64_sextets_char, base64_sextets_pad by div_lia.
    cbn [bytes_of_sextets]. f_equal. div_lia.
  - apply Forall_cons in Hb as [Ha Hb]. apply Forall_cons in Hb as [Hb _].
    cbn [base64_encode].
    rewrite !base64_sextets_char, base64_sextets_pad by div_lia.
    cbn [bytes_of_sextets]. repeat f_equal; div_lia.
  - apply Forall_cons in Hb as [Ha Hb]. apply Forall_cons in Hb as [Hb Hc].
    apply Forall_cons in Hc as [Hc Hbs].
    cbn [base64_encode app]. rewrite !base64_sextets_char by div_lia.
    cbn [bytes_of_sextets app]. rewrite IH by done.
    repeat f_equal; div_lia.
Qed.

(** Four characters for every three bytes, the last group padded. *)
Lemma base64_encode_length (bs : bytes) :
  length (base64_encode bs) = (4 * ((length bs + 2) / 3))%nat.
Proof.
  induction bs as [|a|a b|a b c bs IH] using list_ind3; try reflexivity.
  cbn [base64_encode app length]. rewrite IH.
  replace (S (S (S (length bs))) + 2)%nat with (1 * 3 + (length bs + 2))%nat by lia.
  rewrite Nat.div_add_l by lia. lia.
Qed.
End Base64.

Section Utf8.
Local Open Scope N_scope.

(** Induction over a well-formed string: by single code units and by
    surrogate pairs. *)
Lemma well_formed_ind (P : jsstring -> Prop) :
  P [] ->
  (forall u s, u < 65536 -> is_high_surrogate u = false -> is_low_surrogate u = false ->
               isWellFormed s = true -> P s -> P (u :: s)) ->
  (forall h l s, is_high_surrogate h = true -> is_low_surrogate l = true ->
                 isWellFormed s = true -> P s -> P (h :: l :: s)) ->
  forall s, isWellFormed s = true -> P s.
Proof.
  intros Hnil Hunit Hpair.
  assert (H : forall s, (isWellFormed s = true -> P s)
                        ∧ (forall u, isWellFormed (u :: s) = true -> P (u :: s))).
  { induction s as [|x s [IH0 IH1]].
    - split; [done|]. intros u. cbn.
      destruct (is_high_surrogate u) eqn:Hh; [done|].
      intros Hu. apply andb_prop in Hu as [Hu _]. apply andb_prop in Hu as [Hu Hl].
      apply Hunit; try done; [div_lia | by destruct (is_low_surrogate u)].
    - split; [apply IH1|]. intros u. cbn [isWellFormed].
      destruct (is_high_surrogate u) eqn:Hh.
      + intros Hu. apply andb_prop in Hu as [Hl Hs]. apply Hpair; auto.
      + intros Hu. apply andb_prop in Hu as [Hu Hs]. apply andb_prop in Hu as [Hu Hl].
        apply Hunit; try done; [div_lia | by destruct (is_low_surrogate u) | by apply IH1]. }
  intros s. apply H.
Qed.

Lemma isWellFormed_is_jsstring s : isWellFormed s = true -> is_jsstring s.
Proof.
  revert s. apply (well_formed_ind is_jsstring).
  - constructor.
  - intros u s Hu _ _ _ IH. by constructor.
  - intros h l s Hh Hl _ IH. unfold is_high_surrogate, is_low_surrogate in *.
    constructor; [div_lia|]. constructor; [div_lia | done].
Qed.

(** The decoder reads the bytes of a scalar value back as its code units,
    and is at a character boundary again. *)
Lemma utf8_run_code_point cp bs :
  is_scalar cp ->
  utf8_run Boundary (utf8_of_code_point cp ++ bs)
    = utf16_of_code_point cp ++ utf8_run Boundary bs.
Proof.
  intros [Hcp Hsur]. unfold utf8_of_code_point.
  destruct (cp <? 0x80) eqn:H1; [|destruct (cp <? 0x800) eqn:H2;
    [|destruct (cp <? 0x10000) eqn:H3]];
  cbn [app utf8_run utf8_step]; unfold utf8_lead;
  repeat (first [decide_if | case_if];
          cbn [app utf8_run utf8_step]; unfold utf16_of_code_point);
  repeat f_equal; div_lia.
Qed.

(** Induction along the way the encoders walk a string: a surrogate pair
    at a time, any other code unit alone. *)
Lemma code_point_ind (P : jsstring -> Prop) :
  P [] ->
  (forall u s,
      (is_high_surrogate u = true ->
       match s with l :: _ => is_low_surrogate l = false | [] => True end) ->
      P s -> P (u :: s)) ->
  (forall h l s, is_high_surrogate h = true -> is_low_surrogate l = true ->
                 P s -> P (h :: l :: s)) ->
  forall s, P s.
Proof.
  intros Hnil Hunit Hpair.
  assert (H : forall s, P s ∧ (forall u, P (u :: s))).
  { induction s as [|x s [IH0 IH1]].
    - split; [done|]. intros u. by apply Hunit.
    - split; [apply IH1|]. intros u.
      destruct (is_high_surrogate u) eqn:Hh, (is_low_surrogate x) eqn:Hl.
      + by apply Hpair.
      + apply Hunit; [intros; cbn; congruence | apply IH1].
      + apply Hunit; [intros; cbn; congruence | apply IH1].
      + apply Hunit; [intros; cbn; congruence | apply IH1]. }
  intros s. apply H.
Qed.

Lemma utf8_of_code_point_is_bytes cp :
  cp < 0x110000 -> is_bytes (utf8_of_code_point cp).
Proof.
  intros Hcp. unfold utf8_of_code_point, is_bytes.
  repeat case_if; repeat constructor; div_lia.
Qed.

(** [Buffer.from(s, 'utf8')] is a sequence of bytes. *)
Lemma utf8_encode_is_bytes s : is_jsstring s -> is_bytes (utf8_encode s).
Proof.
  unfold is_jsstring. revert s. apply (code_point_ind (fun s => Forall _ s -> is_bytes _)).
  - constructor.
  - intros u s Hlone IH Hs. apply Forall_cons in Hs as [Hu Hs].
    specialize (IH Hs). cbn [utf8_encode].
    destruct (is_high_surrogate u) eqn:Hh.
    + destruct s as [|l s]; [by apply utf8_of_code_point_is_bytes|].
      rewrite (Hlone eq_refl). apply Forall_app. split; [|done].
      by apply utf8_of_code_point_is_bytes.
    + destruct (is_low_surrogate u); apply Forall_app; (split; [|done]);
        apply utf8_of_code_point_is_bytes; [done | lia].
  - intros h l s Hh Hl IH Hs. apply Forall_cons in Hs as [_ Hs].
    apply Forall_cons in Hs as [_ Hs]. cbn [utf8_encode]. rewrite Hh, Hl.
    apply Forall_app. split; [|by apply IH].
    apply utf8_of_code_point_is_bytes.
    unfold is_high_surrogate, is_low_surrogate in *. div_lia.
Qed.

(** Decoding the UTF-8 encoding of a well-formed string gives it back. *)
Lemma utf8_decode_encode s :
  isWellFormed s = true -> utf8_decode (utf8_encode s) = s.
Proof.
  unfold utf8_decode. revert s. apply well_formed_ind.
  - reflexivity.
  - intros u s Hu Hh Hl _ IH. cbn [utf8_encode]. rewrite Hh, Hl.
    rewrite utf8_run_code_point, IH.
    + unfold utf16_of_code_point. by cmp_true (u <? 0x10000).
    + unfold is_scalar, is_high_surrogate, is_low_surrogate in *. div_lia.
  - intros h l s Hh Hl _ IH. cbn [utf8_encode]. rewrite Hh, Hl.
    rewrite utf8_run_code_point, IH.
    + unfold utf16_of_code_point, is_high_surrogate, is_low_surrogate in *.
      cmp_false (0x10000 + (h - 0xD800) * 1024 + (l - 0xDC00) <? 0x10000).
      cbn [app]. repeat f_equal; div_lia.
    + unfold is_scalar, is_high_surrogate, is_low_surrogate in *. div_lia.
Qed.

(** ASCII text is its own UTF-8 encoding. *)
Lemma utf8_encode_ascii s : is_ascii s -> utf8_encode s = s.
Proof.
  induction 1 as [|u s Hu _ IH]; [done|]. cbn [utf8_encode].
  unfold is_high_surrogate, is_low_surrogate, utf8_of_code_point.
  cmp_false ((0xD800 <=? u) && (u <=? 0xDBFF)).
  cmp_false ((0xDC00 <=? u) && (u <=? 0xDFFF)).
  cmp_true (u <? 0x80). cbn [app]. by rewrite IH.
Qed.

Lemma isWellFormed_app a t :
  isWellFormed a = true -> isWellFormed (a ++ t) = isWellFormed t.
Proof.
  revert a. apply (well_formed_ind (fun a => isWellFormed (a ++ t) = _)).
  - reflexivity.
  - intros u s Hu Hh Hl _ IH. cbn [app isWellFormed]. rewrite Hh, Hl, IH.
    by cmp_true (u <? 65536).
  - intros h l s Hh Hl _ IH. cbn [app isWellFormed]. by rewrite Hh, Hl, IH.
Qed.
End Utf8.

Section JsonStrings.
Local Open Scope N_scope.

Ltac settle_ifs :=
  repeat (first [decide_if | case_if]; cbn [app parse_string_chars]).

Lemma unhex_hex_char d : d < 16 -> unhex (hex_char d) = Some d.
Proof.
  intros Hd. unfold hex_char, unhex.
  repeat case_if; try (f_equal; div_lia); exfalso; div_lia.
Qed.

Lemma parse_unicode_escape u t :
  u < 65536 ->
  parse_string_chars (unicode_escape u ++ t)
    = match parse_string_chars t with
      | Some (str, out) => Some (u :: str, out)
      | None => None
      end.
Proof.
  intros Hu. unfold unicode_escape. cbn [app parse_string_chars].
  change (chr "\" =? 34) with false. change (chr "\" =? 92) with true.
  change (chr "u" =? chr "u") with true. cbv iota.
  rewrite !unhex_hex_char by div_lia.
  replace (u / 4096 * 4096 + (u / 256) mod 16 * 256 + (u / 16) mod 16 * 16 + u mod 16)
    with u by div_lia.
  done.
Qed.

Lemma parse_quote_unit u t :
  u < 65536 ->
  parse_string_chars (quote_unit u ++ t)
    = match parse_string_chars t with
      | Some (str, out) => Some (u :: str, out)
      | None => None
      end.
Proof.
  intros Hu. unfold quote_unit.
  destruct (u =? 8) eqn:H8; [apply N.eqb_eq in H8 as ->; reflexivity|].
  destruct (u =? 9) eqn:H9; [apply N.eqb_eq in H9 as ->; reflexivity|].
  destruct (u =? 10) eqn:H10; [apply N.eqb_eq in H10 as ->; reflexivity|].
  destruct (u =? 12) eqn:H12; [apply N.eqb_eq in H12 as ->; reflexivity|].
  destruct (u =? 13) eqn:H13; [apply N.eqb_eq in H13 as ->; reflexivity|].
  destruct (u =? 34) eqn:H34; [apply N.eqb_eq in H34 as ->; reflexivity|].
  destruct (u =? 92) eqn:H92; [apply N.eqb_eq in H92 as ->; reflexivity|].
  destruct ((u <? 32) || is_high_surrogate u || is_low_surrogate u) eqn:Hesc.
  - by apply parse_unicode_escape.
  - cbn [app parse_string_chars]. rewrite H34, H92.
    by cmp_false (u <? 32).
Qed.

(** [JSON.parse] reads a string written by [JSON.stringify] back, up to
    its closing quote. *)
Lemma parse_quote_chars s rest :
  is_jsstring s ->
  parse_string_chars (quote_chars s ++ 34 :: rest) = Some (s, rest).
Proof.
  unfold is_jsstring. revert s.
  apply (code_point_ind (fun s => Forall _ s -> parse_string_chars _ = _)).
  - reflexivity.
  - intros u s Hlone IH Hs. apply Forall_cons in Hs as [Hu Hs].
    specialize (IH Hs). cbn [quote_chars].
    destruct (is_high_surrogate u) eqn:Hh.
    + destruct s as [|l s].
      * rewrite parse_unicode_escape by done. reflexivity.
      * rewrite (Hlone eq_refl), <- app_assoc, parse_unicode_escape by done.
        by rewrite IH.
    + rewrite <- app_assoc, parse_quote_unit by done. by rewrite IH.
  - intros h l s Hh Hl IH Hs. apply Forall_cons in Hs as [_ Hs].
    apply Forall_cons in Hs as [_ Hs]. specialize (IH Hs).
    cbn [quote_chars]. rewrite Hh, Hl. cbn [app parse_string_chars].
    unfold is_high_surrogate, is_low_surrogate in *.
    cmp_false (h =? 34). cmp_false (h =? 92). cmp_false (h <? 32).
    cmp_false (l =? 34). cmp_false (l =? 92). cmp_false (l <? 32).
    by rewrite IH.
Qed.

Lemma unicode_escape_well_formed u t :
  u < 65536 -> isWellFormed (unicode_escape u ++ t) = isWellFormed t.
Proof.
  intros Hu.
  assert (Hhex : forall d, d < 16 -> hex_char d < 128).
  { intros d Hd. unfold hex_char. case_if; div_lia. }
  apply isWellFormed_app. unfold unicode_escape. cbn [isWellFormed].
  unfold is_high_surrogate, is_low_surrogate.
  repeat match goal with
         | |- context [hex_char ?d] =>
             let H := fresh in
             assert (H : hex_char d < 128) by (apply Hhex; div_lia);
             revert H; generalize (hex_char d); intros ? ?
         end.
  change (chr "\") with 92. change (chr "u") with 117.
  repeat decide_if. div_lia.
Qed.

(** What [JSON.stringify] writes between the quotes has no surrogate
    without its partner. *)
Lemma quote_chars_well_formed s t :
  is_jsstring s -> isWellFormed (quote_chars s ++ t) = isWellFormed t.
Proof.
  unfold is_jsstring. revert s.
  apply (code_point_ind (fun s => Forall _ s -> isWellFormed _ = _)).
  - reflexivity.
  - intros u s Hlone IH Hs. apply Forall_cons in Hs as [Hu Hs].
    specialize (IH Hs). cbn [quote_chars].
    destruct (is_high_surrogate u) eqn:Hh.
    + destruct s as [|l s]; [by apply unicode_escape_well_formed|].
      by rewrite (Hlone eq_refl), <- app_assoc, unicode_escape_well_formed.
    + rewrite <- app_assoc. unfold quote_unit.
      repeat case_if; try (by rewrite unicode_escape_well_formed);
        cbn [js app isWellFormed]; rewrite ?IH;
        unfold is_high_surrogate, is_low_surrogate in *;
        change (chr "\") with 92; change (chr "b") with 98;
        change (chr "t") with 116; change (chr "n") with 110;
        change (chr "f") with 102; change (chr "r") with 114;
        repeat decide_if;
        first [ reflexivity
              | match goal with
                | |- ?b && _ = _ => replace b with true by (symmetry; div_lia)
                end; reflexivity ].
  - intros h l s Hh Hl IH Hs. apply Forall_cons in Hs as [_ Hs].
    apply Forall_cons in Hs as [_ Hs]. specialize (IH Hs).
    cbn [quote_chars]. rewrite Hh, Hl. cbn [app isWellFormed].
    by rewrite Hh, Hl, IH.
Qed.
End JsonStrings.

Section PlainText.
Local Open Scope N_scope.

Lemma plain_is_ascii s : is_plain s -> is_ascii s.
Proof. intros H. eapply Forall_impl; [exact H|]. intros u. cbn. lia. Qed.

Lemma plain_is_jsstring s : is_plain s -> is_jsstring s.
Proof. intros H. eapply Forall_impl; [exact H|]. intros u. cbn. lia. Qed.

Lemma quote_chars_plain s : is_plain s -> quote_chars s = s.
Proof.
  induction 1 as [|u s Hu _ IH]; [done|]. cbn [quote_chars].
  unfold quote_unit, is_high_surrogate, is_low_surrogate.
  repeat decide_if. cbn [app]. by rewrite IH.
Qed.

Lemma base64_char_plain v : 32 <= base64_char v < 128 ∧ base64_char v ≠ 34 ∧ base64_char v ≠ 92.
Proof. unfold base64_char. repeat case_if; div_lia. Qed.

Lemma base64_encode_plain bs : is_plain (base64_encode bs).
Proof.
  unfold is_plain.
  induction bs as [|a|a b|a b c bs IH] using list_ind3; cbn [base64_encode app];
    repeat (constructor; [first [apply base64_char_plain | unfold pad; lia]|]);
    first [done | constructor].
Qed.

Lemma base64_sextets_range s : Forall (fun v => v < 64) (base64_sextets s).
Proof.
  induction s as [|c s IH]; cbn [base64_sextets]; [constructor|].
  destruct (c =? pad); [constructor|].
  destruct (unbase64 c) as [v|] eqn:Hv; [|done].
  constructor; [|done]. unfold unbase64 in Hv.
  repeat match type of Hv with
         | (if ?c then _ else _) = _ => destruct c eqn:?
         end; inversion Hv; div_lia.
Qed.

(** [Buffer.from(s, 'base64')] is a sequence of bytes, whatever [s] is. *)
Lemma base64_decode_is_bytes s : is_bytes (base64_decode s).
Proof.
  unfold base64_decode, is_bytes.
  pose proof (base64_sextets_range s) as H. revert H.
  generalize (base64_sextets s). clear s.
  assert (Hgo : forall l : list N,
             (Forall (fun v => v < 64) l -> Forall (fun x => x < 256) (bytes_of_sextets l))
             ∧ (forall a, Forall (fun v => v < 64) (a :: l) ->
                          Forall (fun x => x < 256) (bytes_of_sextets (a :: l)))
             ∧ (forall a b, Forall (fun v => v < 64) (a :: b :: l) ->
                            Forall (fun x => x < 256) (bytes_of_sextets (a :: b :: l)))
             ∧ (forall a b c, Forall (fun v => v < 64) (a :: b :: c :: l) ->
                              Forall (fun x => x < 256) (bytes_of_sextets (a :: b :: c :: l)))).
  { induction l as [|d l (IH0 & IH1 & IH2 & IH3)].
    - repeat split; intros; cbn [bytes_of_sextets];
        repeat match goal with
               | H : Forall _ (_ :: _) |- _ => apply Forall_cons in H as [? H]
               end;
        repeat constructor; div_lia.
    - split; [apply IH1|]. split; [intros a; apply IH2|].
      split; [intros a b; apply IH3|].
      intros a b c H.
      apply Forall_cons in H as [Ha H]. apply Forall_cons in H as [Hb H].
      apply Forall_cons in H as [Hc H]. apply Forall_cons in H as [Hd H].
      cbn [bytes_of_sextets app].
      repeat (constructor; [div_lia|]). by apply IH0. }
  intros l. apply Hgo.
Qed.
End PlainText.


(** * Part 4, proofs: the token cipher *)

(** Evaluate the tests on concrete characters that the goal contains. *)
Ltac eval_tests :=
  repeat match goal with
         | |- context [is_json_whitespace ?c] =>
             let b := eval vm_compute in (is_json_whitespace c) in
             lazymatch b with
             | true => change (is_json_whitespace c) with true
             | false => change (is_json_whitespace c) with false
             end
         | |- context [N.eqb ?x ?y] =>
             let b := eval vm_compute in (N.eqb x y) in
             lazymatch b with
             | true => change (N.eqb x y) with true
             | false => change (N.eqb x y) with false
             end
         end.

Ltac parse_step := repeat (progress (cbn [skip_ws]; eval_tests; cbv iota)).

Section Envelope.
Local Open Scope N_scope.

(** The text of an envelope, character by character. *)
Lemma stringify_payload (p : EncryptedPayload) :
  stringify (json_of_payload p)
  = 123 :: 34 :: js "keyId" ++ 34 :: 58 :: 34 :: quote_chars (keyId p)
    ++ 34 :: 44 :: 34 :: js "iv" ++ 34 :: 58 :: 34 :: quote_chars (iv p)
    ++ 34 :: 44 :: 34 :: js "ciphertext" ++ 34 :: 58 :: 34 :: quote_chars (ciphertext p)
    ++ 34 :: 44 :: 34 :: js "tag" ++ 34 :: 58 :: 34 :: quote_chars (tag p)
    ++ [34; 125].
Proof.
  unfold json_of_payload. cbn [stringify stringify_members]. unfold quote.
  rewrite !(quote_chars_plain (js _))
    by (repeat constructor; vm_compute; intuition discriminate).
  change (chr "{") with 123. change (chr "}") with 125.
  change (chr ":") with 58. change (chr ",") with 44.
  repeat (rewrite <- app_assoc; cbn [app]). reflexivity.
Qed.

Lemma js_is_jsstring (s : string) : is_jsstring (js s).
Proof.
  induction s as [|c s IH]; cbn [js]; constructor; [|done].
  unfold chr. pose proof (N_ascii_bounded c). lia.
Qed.

Lemma parse_plain k rest :
  is_plain k -> parse_string_chars (k ++ 34 :: rest) = Some (k, rest).
Proof.
  intros Hk. pose proof (parse_quote_chars k rest (plain_is_jsstring k Hk)) as H.
  by rewrite quote_chars_plain in H.
Qed.

(** One member of an object whose value is a string, followed by a comma
    or by the closing brace. *)
Lemma parse_member fuel acc k v c rest :
  is_plain k -> is_jsstring v ->
  parse_members (S (S fuel)) acc
    (34 :: k ++ 34 :: 58 :: 34 :: quote_chars v ++ 34 :: c :: rest)
  = if c =? 44 then parse_members (S fuel) (acc ++ [(k, JString v)]) rest
    else if c =? 125 then Some (JObject (acc ++ [(k, JString v)]), rest)
    else if is_json_whitespace c then
      parse_members (S (S fuel)) acc
        (34 :: k ++ 34 :: 58 :: 34 :: quote_chars v ++ 34 :: c :: rest)
    else None.
Proof.
  intros Hk Hv. destruct (c =? 44) eqn:H44; [|destruct (c =? 125) eqn:H125;
    [|destruct (is_json_whitespace c) eqn:Hws; [done|]]].
  all: cbn [parse_members parse_value]; parse_step.
  all: rewrite parse_plain by done; parse_step.
  all: rewrite parse_quote_chars by done.
  - apply N.eqb_eq in H44 as ->. by parse_step.
  - apply N.eqb_eq in H125 as ->. by parse_step.
  - cbn [skip_ws]. rewrite Hws.
    change (chr ",") with 44. change (chr "}") with 125. by rewrite H44, H125.
Qed.

(** [JSON.parse] reads an envelope written by [JSON.stringify] back. *)
Lemma JSON_parse_payload (p : EncryptedPayload) :
  is_jsstring (keyId p) -> is_jsstring (iv p) ->
  is_jsstring (ciphertext p) -> is_jsstring (tag p) ->
  JSON_parse (stringify (json_of_payload p)) = Some (json_of_payload p).
Proof.
  intros Hk Hi Hc Ht. unfold JSON_parse.
  assert (Hlen : exists n, (2 * length (stringify (json_of_payload p)) + 2 = 6 + n)%nat).
  { exists (2 * length (stringify (json_of_payload p)) - 4)%nat.
    rewrite stringify_payload. cbn [length]. lia. }
  destruct Hlen as [n ->]. rewrite stringify_payload.
  cbn [Nat.add parse_value]. parse_step.
  rewrite (parse_member _ _ (js "keyId") (keyId p));
    [|repeat constructor; vm_compute; intuition discriminate|done].
  parse_step.
  rewrite (parse_member _ _ (js "iv") (iv p));
    [|repeat constructor; vm_compute; intuition discriminate|done].
  parse_step.
  rewrite (parse_member _ _ (js "ciphertext") (ciphertext p));
    [|repeat constructor; vm_compute; intuition discriminate|done].
  parse_step.
  rewrite (parse_member _ _ (js "tag") (tag p));
    [|repeat constructor; vm_compute; intuition discriminate|done].
  parse_step. reflexivity.
Qed.

Lemma ascii_well_formed a : is_ascii a -> isWellFormed a = true.
Proof.
  induction 1 as [|u a Hu _ IH]; [done|]. cbn [isWellFormed].
  unfold is_high_surrogate, is_low_surrogate. repeat decide_if.
  rewrite IH. div_lia.
Qed.

Lemma isWellFormed_cons_ascii u t :
  u < 128 -> isWellFormed (u :: t) = isWellFormed t.
Proof.
  intros Hu. cbn [isWellFormed]. unfold is_high_surrogate, is_low_surrogate.
  repeat decide_if. destruct (isWellFormed t); div_lia.
Qed.

(** The text of an envelope has no surrogate without its partner. *)
Lemma payload_text_well_formed (p : EncryptedPayload) :
  is_jsstring (keyId p) -> is_jsstring (iv p) ->
  is_jsstring (ciphertext p) -> is_jsstring (tag p) ->
  isWellFormed (stringify (json_of_payload p)) = true.
Proof.
  intros Hk Hi Hc Ht. rewrite stringify_payload. cbn [js app].
  repeat first [ rewrite isWellFormed_cons_ascii by (vm_compute; reflexivity)
               | rewrite quote_chars_well_formed by done ].
  reflexivity.
Qed.

(** When the key identifier needs no escape, the text of a sealed payload
    is ASCII, and 45 characters longer than its four fields. *)
Lemma payload_text_plain (p : EncryptedPayload) :
  is_plain (keyId p) -> is_plain (iv p) -> is_plain (ciphertext p) -> is_plain (tag p) ->
  utf8_encode (stringify (json_of_payload p)) = stringify (json_of_payload p)
  ∧ length (stringify (json_of_payload p))
    = (45 + length (keyId p) + length (iv p) + length (ciphertext p) + length (tag p))%nat.
Proof.
  intros Hk Hi Hc Ht. rewrite stringify_payload, !quote_chars_plain by done.
  split.
  - apply utf8_encode_ascii. unfold is_ascii. cbn [js app].
    repeat first [ apply Forall_cons; split; [vm_compute; reflexivity|]
                 | apply Forall_app; split; [by apply plain_is_ascii|]
                 | apply Forall_nil_2 ].
  - cbn [js app]. repeat first [progress cbn [length] | rewrite length_app]. lia.
Qed.
End Envelope.

Section Cipher.
Context `{Node}.

Lemma getKey_ok e key key_id :
  getKey e = Ok (key, key_id) ->
  length key = 32%nat ∧ is_bytes key
  ∧ key_id = (if truthy (e !! "TOKEN_ENCRYPTION_KEY_ID")
              then default [] (e !! "TOKEN_ENCRYPTION_KEY_ID") else js "default").
Proof.
  unfold getKey. destruct (truthy (e !! "TOKEN_ENCRYPTION_KEY")); cbn [negb]; [|done].
  destruct (length _ =? 32)%nat eqn:Hlen; cbn [negb]; [|done].
  intros [= <- <-]. split; [by apply Nat.eqb_eq|].
  split; [apply base64_decode_is_bytes | done].
Qed.

Lemma getKey_key_id_is_jsstring e key key_id :
  js_environment e -> getKey e = Ok (key, key_id) -> is_jsstring key_id.
Proof.
  intros He Hk. apply getKey_ok in Hk as (_ & _ & ->).
  destruct (e !! "TOKEN_ENCRYPTION_KEY_ID") as [v|] eqn:Hv.
  - destruct v as [|u v]; cbn [truthy default from_option id];
      [apply js_is_jsstring | by apply (He _ _ Hv)].
  - apply js_is_jsstring.
Qed.

(** What a successful call of [encryptToB64] returns. *)
Lemma encryptToB64_ok e g p s g' :
  encryptToB64 e g p = (Ok s, g') ->
  exists key key_id,
    getKey e = Ok (key, key_id)
    ∧ (byteLength (stringify (json_of_payload
          (seal key key_id (randomBytes IV_LENGTH g).1 p))) <= 16 * 1024)%nat
    ∧ s = envelope (seal key key_id (randomBytes IV_LENGTH g).1 p)
    ∧ g' = (randomBytes IV_LENGTH g).2.
Proof.
  unfold encryptToB64. destruct (getKey e) as [[key key_id]|err]; [|done].
  destruct (randomBytes IV_LENGTH g) as [nonce g1]. cbn [fst snd].
  destruct (_ <? _)%nat eqn:Hsize; [done|]. intros [= <- <-].
  exists key, key_id. repeat split. by apply Nat.ltb_ge.
Qed.

Lemma seal_fields_plain key key_id nonce p :
  is_plain (iv (seal key key_id nonce p))
  ∧ is_plain (ciphertext (seal key key_id nonce p))
  ∧ is_plain (tag (seal key key_id nonce p)).
Proof. unfold seal. cbn. repeat split; apply base64_encode_plain. Qed.

(** Opening a stored envelope: the key is taken from the environment and
    the nonce, tag and ciphertext from the envelope. *)
Lemma open_envelope e (p : EncryptedPayload) :
  is_jsstring (keyId p) -> is_jsstring (iv p) ->
  is_jsstring (ciphertext p) -> is_jsstring (tag p) ->
  decryptFromB64 e (envelope p)
  = (k <-- getKey e ;;
     match gcm_decrypt k.1 (base64_decode (iv p)) (base64_decode (tag p))
                       (base64_decode (ciphertext p)) with
     | Some pt => Ok (utf8_decode pt)
     | None => Err CipherError
     end).
Proof.
  intros Hk Hi Hc Ht. unfold decryptFromB64, envelope.
  destruct (getKey e) as [k|err]; cbn [bind]; [|done].
  pose proof (payload_text_well_formed p Hk Hi Hc Ht) as Hwf.
  rewrite base64_decode_encode
    by (by apply utf8_encode_is_bytes, isWellFormed_is_jsstring).
  rewrite utf8_decode_encode by done.
  rewrite JSON_parse_payload by done.
  cbn [bind get_property json_of_payload].
  change (get_member (js "iv") _) with (Some (JString (iv p))).
  change (get_member (js "tag") _) with (Some (JString (tag p))).
  change (get_member (js "ciphertext") _) with (Some (JString (ciphertext p))).
  reflexivity.
Qed.

(** C2 (amended).  For every plaintext without unpaired surrogates: if
    [encryptToB64] succeeds (in particular, the envelope passes the size
    guard), then [decryptFromB64] under the same environment returns the
    plaintext. *)
Theorem decrypt_encrypt_round_trip (e : environment) (g g' : entropy) (p s : jsstring) :
  NodeContract H ->
  js_environment e ->
  isWellFormed p = true ->
  encryptToB64 e g p = (Ok s, g') ->
  decryptFromB64 e s = Ok p.
Proof.
  intros [randomBytes_length randomBytes_bytes gcm_encrypt_length gcm_encrypt_bytes
          gcm_decrypt_encrypt] He Hp Hs.
  apply encryptToB64_ok in Hs as (key & key_id & Hkey & _ & -> & _).
  pose proof (getKey_key_id_is_jsstring _ _ _ He Hkey) as Hid.
  destruct (getKey_ok _ _ _ Hkey) as (Hlen & Hbytes & _).
  set (nonce := (randomBytes IV_LENGTH g).1).
  assert (Hnonce : is_bytes nonce ∧ length nonce = IV_LENGTH)
    by (split; [apply randomBytes_bytes | apply randomBytes_length]).
  destruct Hnonce as [Hnb Hnl].
  pose proof (utf8_encode_is_bytes p (isWellFormed_is_jsstring p Hp)) as Hpt.
  destruct (gcm_encrypt_bytes key nonce (utf8_encode p) Hbytes Hnb Hpt) as [Hcb Htb].
  destruct (seal_fields_plain key key_id nonce p) as (Hi & Hc & Ht).
  rewrite open_envelope by (first [done | by apply plain_is_jsstring]).
  rewrite Hkey. cbn [bind fst seal iv tag ciphertext].
  rewrite !base64_decode_encode by done.
  rewrite gcm_decrypt_encrypt by done.
  by rewrite utf8_decode_encode.
Qed.

(** Four characters for every three bytes: the envelope of a text of at
    most 16384 bytes has at most 21848 characters. *)
Lemma envelope_length (p : EncryptedPayload) :
  length (envelope p)
  = (4 * ((byteLength (stringify (json_of_payload p)) + 2) / 3))%nat.
Proof. unfold envelope, byteLength. apply base64_encode_length. Qed.


(** The size of the JSON text when neither the key identifier nor the
    plaintext needs more than one byte per character. *)
Lemma sealed_text_size key key_id g p :
  NodeContract H -> is_plain key_id -> is_ascii p ->
  byteLength (stringify (json_of_payload (seal key key_id (randomBytes IV_LENGTH g).1 p)))
  = (45 + length key_id + 16 + 4 * ((length p + 2) / 3) + 24)%nat.
Proof.
  intros [randomBytes_length _ gcm_encrypt_length _ _] Hid Hp. unfold byteLength.
  destruct (seal_fields_plain key key_id (randomBytes IV_LENGTH g).1 p) as (Hi & Hc & Ht).
  destruct (payload_text_plain (seal key key_id (randomBytes IV_LENGTH g).1 p))
    as [-> ->]; try done.
  unfold seal. cbn [keyId iv ciphertext tag].
  rewrite !base64_encode_length.
  destruct (gcm_encrypt_length key (randomBytes IV_LENGTH g).1 (utf8_encode p)) as [-> ->].
  rewrite randomBytes_length, utf8_encode_ascii by done.
  reflexivity.
Qed.

(** [encryptToB64] on ASCII text under a key identifier that needs no
    escape: the outcome, and the length of the envelope. *)
Lemma encryptToB64_plain e g p key key_id :
  NodeContract H ->
  getKey e = Ok (key, key_id) -> is_plain key_id -> is_ascii p ->
  let size := (45 + length key_id + 16 + 4 * ((length p + 2) / 3) + 24)%nat in
  let payload := seal key key_id (randomBytes IV_LENGTH g).1 p in
  (encryptToB64 e g p).1
  = (if (16 * 1024 <? size)%nat then Err (JsError "Encrypted payload exceeds 16KB")
     else Ok (envelope payload))
  ∧ length (envelope payload) = (4 * ((size + 2) / 3))%nat.
Proof.
  intros Hc Hkey Hid Hp size payload. split.
  - unfold encryptToB64. rewrite Hkey.
    pose proof (sealed_text_size key key_id g p Hc Hid Hp) as Hsize. fold size in Hsize.
    subst payload. destruct (randomBytes IV_LENGTH g) as [nonce g1]. cbn [fst] in *.
    rewrite Hsize. by destruct (_ <? _)%nat.
  - rewrite envelope_length. subst payload. by rewrite sealed_text_size.
Qed.

(** C5 (amended).  [encryptToB64] and [decryptFromB64] fail with the error
    of [getKey], before anything is encrypted, decrypted or drawn from the
    random source, whenever the encryption key is unset or empty, and
    whenever it does not decode to exactly 32 bytes; a key that decodes to
    32 bytes is accepted whether or not a key identifier is set. *)
Theorem getKey_failures (e : environment) :
  (truthy (e !! "TOKEN_ENCRYPTION_KEY") = false ->
     getKey e = Err (JsError "TOKEN_ENCRYPTION_KEY not set")
     ∧ (forall g p, encryptToB64 e g p
                    = (Err (JsError "TOKEN_ENCRYPTION_KEY not set"), g))
     ∧ (forall b, decryptFromB64 e b = Err (JsError "TOKEN_ENCRYPTION_KEY not set")))
  ∧ (forall k : jsstring, e !! "TOKEN_ENCRYPTION_KEY" = Some k -> k ≠ [] ->
       length (base64_decode k) ≠ 32%nat ->
       getKey e = Err (JsError "TOKEN_ENCRYPTION_KEY must be 32 bytes (base64 of 32 bytes)")
       ∧ (forall g p,
            encryptToB64 e g p
            = (Err (JsError "TOKEN_ENCRYPTION_KEY must be 32 bytes (base64 of 32 bytes)"), g))
       ∧ (forall b,
            decryptFromB64 e b
            = Err (JsError "TOKEN_ENCRYPTION_KEY must be 32 bytes (base64 of 32 bytes)")))
  ∧ (forall k : jsstring, e !! "TOKEN_ENCRYPTION_KEY" = Some k ->
       length (base64_decode k) = 32%nat ->
       exists key_id, getKey e = Ok (base64_decode k, key_id)).
Proof.
  split; [|split].
  - intros Hk.
    assert (Hg : getKey e = Err (JsError "TOKEN_ENCRYPTION_KEY not set"))
      by (unfold getKey; by rewrite Hk).
    split; [done|]. split.
    + intros g p. unfold encryptToB64. by rewrite Hg.
    + intros b. unfold decryptFromB64. by rewrite Hg.
  - intros k Hk Hne Hlen.
    assert (Hg : getKey e
                 = Err (JsError "TOKEN_ENCRYPTION_KEY must be 32 bytes (base64 of 32 bytes)")).
    { unfold getKey. rewrite Hk. destruct k as [|u k]; [done|]. cbn [truthy negb default from_option id].
      by rewrite (proj2 (Nat.eqb_neq _ _) Hlen). }
    split; [done|]. split.
    + intros g p. unfold encryptToB64. by rewrite Hg.
    + intros b. unfold decryptFromB64. by rewrite Hg.
  - intros k Hk Hlen. unfold getKey. rewrite Hk.
    destruct k as [|u k]; [done|]. cbn [truthy negb default from_option id].
    rewrite (proj2 (Nat.eqb_eq _ _) Hlen). cbn [negb]. by eexists.
Qed.

(** C9 (amended).  With a key that decodes to 32 bytes and no key
    identifier in the environment, [getKey] succeeds with the identifier
    ['default'], and [encryptToB64] fails only if the size guard rejects the
    payload: otherwise it returns the envelope of a payload whose [keyId] is
    ['default'], and that is what parsing the envelope gives back. *)
Theorem unset_key_id_defaults (e : environment) (k : jsstring) :
  e !! "TOKEN_ENCRYPTION_KEY" = Some k ->
  length (base64_decode k) = 32%nat ->
  e !! "TOKEN_ENCRYPTION_KEY_ID" = None ->
  getKey e = Ok (base64_decode k, js "default")
  ∧ forall g p,
      let payload := seal (base64_decode k) (js "default") (randomBytes IV_LENGTH g).1 p in
      keyId payload = js "default"
      ∧ (encryptToB64 e g p).1
        = (if (16 * 1024 <? byteLength (stringify (json_of_payload payload)))%nat
           then Err (JsError "Encrypted payload exceeds 16KB")
           else Ok (envelope payload))
      ∧ (v <-- match JSON_parse (utf8_decode (base64_decode (envelope payload))) with
               | Some v => Ok v
               | None => Err SyntaxError
               end ;;
         get_property v (js "keyId")) = Ok (Some (JString (js "default"))).
Proof.
  intros Hk Hlen Hid.
  assert (Hg : getKey e = Ok (base64_decode k, js "default")).
  { unfold getKey. rewrite Hk, Hid. destruct k as [|u k]; [done|].
    cbn [truthy negb default from_option id]. by rewrite (proj2 (Nat.eqb_eq _ _) Hlen). }
  split; [done|]. intros g p payload. split; [done|]. split.
  - unfold encryptToB64. rewrite Hg. subst payload.
    destruct (randomBytes IV_LENGTH g) as [nonce g1]. cbn [fst].
    by destruct (_ <? _)%nat.
  - destruct (seal_fields_plain (base64_decode k) (js "default")
                (randomBytes IV_LENGTH g).1 p) as (Hi & Hc & Ht).
    assert (Hd : is_jsstring (keyId payload)) by apply js_is_jsstring.
    apply plain_is_jsstring in Hi, Hc, Ht.
    pose proof (payload_text_well_formed payload Hd Hi Hc Ht) as Hwf.
    unfold envelope.
    rewrite base64_decode_encode
      by (by apply utf8_encode_is_bytes, isWellFormed_is_jsstring).
    rewrite utf8_decode_encode by done.
    rewrite JSON_parse_payload by done. reflexivity.
Qed.

(** C8.  [decryptFromB64] takes the key from the environment and reads the
    members [iv], [tag] and [ciphertext] of the envelope only: two encoded
    envelopes whose JSON objects differ at most in their [keyId] member are
    decrypted to the same result, plaintext or error. *)
Theorem decrypt_ignores_keyId (e : environment) (b1 b2 : jsstring) (v1 v2 : json) :
  JSON_parse (utf8_decode (base64_decode b1)) = Some v1 ->
  JSON_parse (utf8_decode (base64_decode b2)) = Some v2 ->
  differ_only_in_keyId v1 v2 ->
  decryptFromB64 e b1 = decryptFromB64 e b2.
Proof.
  intros H1 H2 Hd. unfold decryptFromB64. rewrite H1, H2.
  destruct v1 as [| | | | |m1], v2 as [| | | | |m2]; try done.
  unfold differ_only_in_keyId in Hd.
  destruct (getKey e) as [k|err]; [|done]. cbn [bind get_property].
  rewrite (Hd (js "iv")), (Hd (js "tag")), (Hd (js "ciphertext")) by discriminate.
  reflexivity.
Qed.

(** The same for envelopes as [encryptToB64] writes them: replacing the key
    identifier of a payload does not change what its envelope decrypts
    to. *)
Lemma decrypt_same_for_any_keyId (e : environment) (p : EncryptedPayload) (k : jsstring) :
  is_jsstring (keyId p) -> is_jsstring (iv p) ->
  is_jsstring (ciphertext p) -> is_jsstring (tag p) -> is_jsstring k ->
  decryptFromB64 e (envelope (mk_EncryptedPayload k (iv p) (ciphertext p) (tag p)))
  = decryptFromB64 e (envelope p).
Proof. intros. by rewrite !open_envelope. Qed.
End Cipher.

(** ** The cipher theorems at concrete inputs *)

Lemma example_environment_is_js : js_environment example_environment.
Proof.
  unfold js_environment, example_environment.
  apply map_Forall_insert_2; [|apply map_Forall_singleton; apply js_is_jsstring].
  apply plain_is_jsstring, base64_encode_plain.
Qed.

Lemma example_getKey :
  getKey example_environment = Ok (N.of_nat <$> seq 0 32, js "k1")
  ∧ getKey environment_without_key_id = Ok (N.of_nat <$> seq 0 32, js "default").
Proof. split; vm_compute; reflexivity. Qed.

Lemma replicate_is_ascii n : is_ascii (replicate n 97%N).
Proof. apply Forall_replicate. lia. Qed.

(** The round trip on a short ASCII plaintext. *)
Lemma decrypt_encrypt_round_trip_witness :
  exists s,
    (encryptToB64 example_environment example_entropy (js "hello")).1 = Ok s
    ∧ decryptFromB64 example_environment s = Ok (js "hello").
Proof.
  destruct (encryptToB64 example_environment example_entropy (js "hello"))
    as [[s|err] g'] eqn:Henc.
  - exists s. split; [reflexivity|].
    exact (decrypt_encrypt_round_trip example_environment example_entropy g'
             (js "hello") s node_contract example_environment_is_js eq_refl Henc).
  - exfalso. vm_compute in Henc. discriminate.
Defined.

(** C2 as stated fails on a plaintext that holds a surrogate without its
    partner: encryption succeeds, and decryption returns U+FFFD in its
    place. *)
Lemma lone_surrogate_not_restored :
  exists s,
    (encryptToB64 example_environment example_entropy [0xD800%N]).1 = Ok s
    ∧ decryptFromB64 example_environment s = Ok [0xFFFD%N]
    ∧ [0xFFFD%N] ≠ [0xD800%N].
Proof.
  exists (match (encryptToB64 example_environment example_entropy [0xD800%N]).1 with
          | Ok s => s
          | Err _ => []
          end).
  split; [vm_compute; reflexivity|]. split; [vm_compute; reflexivity | discriminate].
Qed.



(** The failures of [getKey] without a key and with a key of three bytes. *)
Lemma getKey_failures_witness :
  getKey (∅ : environment) = Err (JsError "TOKEN_ENCRYPTION_KEY not set")
  ∧ getKey ({[ "TOKEN_ENCRYPTION_KEY" := js "AAAA" ]} : environment)
    = Err (JsError "TOKEN_ENCRYPTION_KEY must be 32 bytes (base64 of 32 bytes)")
  ∧ exists key_id, getKey environment_without_key_id
                   = Ok (base64_decode example_key, key_id).
Proof.
  destruct (getKey_failures (∅ : environment)) as (H1 & _ & _).
  destruct (getKey_failures ({[ "TOKEN_ENCRYPTION_KEY" := js "AAAA" ]} : environment))
    as (_ & H2 & _).
  destruct (getKey_failures environment_without_key_id) as (_ & _ & H3).
  split; [exact (proj1 (H1 eq_refl))|].
  split; [exact (proj1 (H2 (js "AAAA") eq_refl ltac:(discriminate) ltac:(discriminate)))|].
  exact (H3 example_key eq_refl ltac:(vm_compute; reflexivity)).
Defined.

(** C5 as stated fails: without a key identifier in the environment,
    [encryptToB64] succeeds. *)
Lemma unset_key_id_is_accepted :
  environment_without_key_id !! "TOKEN_ENCRYPTION_KEY_ID" = None
  ∧ is_ok (encryptToB64 environment_without_key_id example_entropy (js "hello")).1 = true
  ∧ is_ok (getKey environment_without_key_id) = true.
Proof. split; [reflexivity|]. split; vm_compute; reflexivity. Qed.

Lemma decrypt_ignores_keyId_witness :
  decryptFromB64 example_environment (envelope example_payload)
  = decryptFromB64 example_environment (envelope relabelled_payload).
Proof.
  apply (decrypt_ignores_keyId example_environment _ _
           (json_of_payload example_payload) (json_of_payload relabelled_payload)).
  - vm_compute. reflexivity.
  - vm_compute. reflexivity.
  - intros name Hne. unfold json_of_payload, relabelled_payload, example_payload.
    cbn [get_member keyId iv ciphertext tag].
    assert (Hk : jsstring_eqb (js "keyId") name = false)
      by (apply bool_decide_eq_false_2; congruence).
    rewrite Hk. reflexivity.
Defined.

(** The default key identifier at a concrete environment. *)
Lemma unset_key_id_defaults_witness :
  getKey environment_without_key_id = Ok (base64_decode example_key, js "default").
Proof.
  exact (proj1 (unset_key_id_defaults environment_without_key_id example_key
                  eq_refl ltac:(vm_compute; reflexivity) eq_refl)).
Defined.

(** C9 as stated fails: with a valid key and no key identifier,
    [encryptToB64] still fails on a plaintext of 13000 characters, whose
    JSON text would be 17428 bytes long. *)
Lemma large_plaintext_fails_with_default_key_id :
  environment_without_key_id !! "TOKEN_ENCRYPTION_KEY_ID" = None
  ∧ length (base64_decode example_key) = 32%nat
  ∧ (encryptToB64 environment_without_key_id example_entropy
       (replicate (13 * 1000) 97%N)).1
    = Err (JsError "Encrypted payload exceeds 16KB").
Proof.
  split; [reflexivity|]. split; [vm_compute; reflexivity|].
  destruct (encryptToB64_plain environment_without_key_id example_entropy
              (replicate (13 * 1000) 97%N) _ _ node_contract (proj2 example_getKey))
    as [Hout _]; [by repeat constructor | apply replicate_is_ascii |].
  rewrite length_replicate in Hout. rewrite Hout. vm_compute. reflexivity.
Qed.


(** * Part 3, proofs: the configuration validator *)

Section FieldChecks.
Context `{Zod}.

Lemma and_field_issues {A B} (f : Result (list issue) (A -> B)) (x : Result (list issue) A) :
  issues_of (and_field f x) = issues_of f ++ issues_of x.
Proof. destruct f, x; cbn; by rewrite ?app_nil_r. Qed.

Lemma and_field_reports {A B} (f : Result (list issue) (A -> B)) (x : Result (list issue) A) :
  reports f -> reports x -> reports (and_field f x).
Proof. by destruct f as [g|[|i l]], x as [a|[|j k]]. Qed.

Lemma at_path_issues {A} (p : string) (r : parsed A) :
  issues_of (at_path p r) = mk_issue p <$> codes_of r.
Proof. by destruct r. Qed.

Lemma at_path_reports {A} (p : string) (r : parsed A) :
  reports r -> reports (at_path p r).
Proof. by destruct r as [a|[|c cs]]. Qed.

Lemma z_string_min1_reports v : reports (z_string_min1 v).
Proof. by destruct v as [[|u s]|]. Qed.

Lemma urlSchema_reports v : reports (urlSchema v).
Proof. destruct v as [s|]; cbn; [|done]. by destruct (is_url s). Qed.

Lemma z_string_email_reports v : reports (z_string_email v).
Proof. destruct v as [s|]; cbn; [|done]. by destruct (is_email s). Qed.

Lemma base64Key32_reports v : reports (base64Key32 v).
Proof.
  destruct v as [s|]; cbn; [|done].
  by destruct (_ ++ _) as [|c cs].
Qed.

Lemma z_coerce_int_reports lo hi s : reports (z_coerce_int lo hi s).
Proof.
  unfold z_coerce_int. destruct (Number s); [done| |];
    by destruct (_ ++ _) as [|c cs].
Qed.

Lemma z_log_level_reports s : reports (z_log_level s).
Proof. unfold z_log_level. by repeat case_if. Qed.

Lemma z_default_reports {A} (d : A) schema v :
  (forall s, reports (schema s)) -> reports (z_default d schema v).
Proof. intros Hs. destruct v as [s|]; [apply Hs | done]. Qed.

Lemma optional_reports v : reports (optional v).
Proof. done. Qed.

Lemma codes_of_default_Ok (d : jsstring) v : codes_of (z_default d Ok v) = [].
Proof. by destruct v. Qed.

(** The object schema fails exactly with the issues of all its fields, in
    the order of the fields. *)
Lemma schema_object_issues (e : environment) :
  issues_of (schema_object e) = field_issues e.
Proof.
  unfold schema_object, field_issues, field_checks.
  rewrite !and_field_issues, !at_path_issues, !codes_of_default_Ok.
  cbn [issues_of optional codes_of flat_map fmap list_fmap app].
  rewrite ?app_nil_r, <- ?app_assoc. reflexivity.
Qed.

Lemma schema_object_reports (e : environment) : reports (schema_object e).
Proof.
  unfold schema_object.
  repeat (apply and_field_reports; [|apply at_path_reports]);
    first [ done
          | apply z_string_min1_reports | apply urlSchema_reports
          | apply z_string_email_reports | apply base64Key32_reports
          | apply optional_reports
          | apply z_default_reports; intros s;
            first [ apply z_coerce_int_reports | apply urlSchema_reports
                  | apply z_log_level_reports | done ] ].
Qed.

(** The object schema: the issues of all fields, or the parsed object when
    no field has one. *)
Lemma schema_object_outcome (e : environment) :
  match schema_object e with
  | Ok _ => field_issues e = []
  | Err issues => issues = field_issues e ∧ issues ≠ []
  end.
Proof.
  pose proof (schema_object_issues e) as Hi.
  pose proof (schema_object_reports e) as Hr.
  destruct (schema_object e) as [v|[|i l]]; cbn in *; [done | done |].
  split; [done | discriminate].
Qed.

Lemma throw_unless_error ok x y : throw_unless ok x = Err y -> y = x.
Proof. unfold throw_unless. destruct ok; [done|]. by intros [= <-]. Qed.

Lemma bind_error {E A B} (r : Result E A) (k : A -> Result E B) x :
  bind r k = Err x -> r = Err x ∨ exists a, r = Ok a ∧ k a = Err x.
Proof.
  destruct r as [a|y]; cbn; intros Hx.
  - right. exists a. split; [reflexivity | exact Hx].
  - left. by injection Hx as ->.
Qed.

Lemma e164_parse_error v x :
  e164_parse v = Err x -> x = ZodError [mk_issue EmptyString invalid_format].
Proof. apply throw_unless_error. Qed.

Lemma sms_sender_rules_error e x :
  sms_sender_rules e = Err x ->
  x = Error "Twilio credentials required when FEATURE_ENABLE_SMS=true"
  ∨ x = Error "Provide exactly one of TWILIO_MESSAGING_SERVICE_SID or TWILIO_FROM_NUMBER"
  ∨ x = ZodError [mk_issue EmptyString invalid_format].
Proof.
  unfold sms_sender_rules. intros Hx.
  apply bind_error in Hx as [Hx | (_ & _ & Hx)];
    [left; by apply throw_unless_error in Hx|].
  apply bind_error in Hx as [Hx | (_ & _ & Hx)];
    [right; left; by apply throw_unless_error in Hx|].
  right; right. destruct (truthy (TWILIO_FROM_NUMBER e)); [|done].
  by apply e164_parse_error in Hx.
Qed.

Lemma sms_recipient_rules_error m e x :
  sms_recipient_rules m e = Err x ->
  x = Error "TWILIO_DEFAULT_SMS_TO set in production without ALLOW_DEFAULT_SMS_TO_IN_PROD=true"
  ∨ x = ZodError [mk_issue EmptyString invalid_format].
Proof.
  unfold sms_recipient_rules. destruct (mode_isProduction m).
  - intros Hx. left. by apply throw_unless_error in Hx.
  - destruct (truthy (TWILIO_DEFAULT_SMS_TO e)); [|done].
    intros Hx. right. by apply e164_parse_error in Hx.
Qed.

(** An exception of [transform] is the exception of one of the conditional
    requirements. *)
Lemma transform_error m node_env e x :
  transform m node_env e = Err x -> x ∈ cross_field_errors.
Proof.
  unfold transform. intros Hx.
  apply bind_error in Hx as [Hx | (_ & _ & Hx)].
  { apply throw_unless_error in Hx as ->. set_solver. }
  apply bind_error in Hx as [Hx | (_ & _ & Hx)].
  { unfold sms_rules in Hx. destruct (sms _); [|done].
    apply bind_error in Hx as [Hx | (_ & _ & Hx)].
    - apply sms_sender_rules_error in Hx as [-> | [-> | ->]]; set_solver.
    - apply sms_recipient_rules_error in Hx as [-> | ->]; set_solver. }
  apply bind_error in Hx as [Hx | (_ & _ & Hx)]; [|done].
  unfold push_rule in Hx. destruct (push _); [|done].
  apply throw_unless_error in Hx as ->. set_solver.
Qed.

(** C4 (amended).  Field-level violations are reported together: when any
    field of the schema fails a check, validation fails with the issues of
    all fields, one issue per failed check, each under the name of its
    field.  The conditional requirements are different: they are checked
    only when no field has an issue, and then validation ends with the
    exception of a single requirement. *)
Theorem violations_reported (m : Mode) (raw : environment) :
  (field_issues raw ≠ [] -> validate m raw = ValidationFailed (field_issues raw))
  ∧ (forall p codes c,
       In (p, codes) (field_checks raw) -> In c codes ->
       In (mk_issue p c) (field_issues raw)
       ∧ validate m raw = ValidationFailed (field_issues raw))
  ∧ (forall x, validate m raw = Thrown x ->
       field_issues raw = [] ∧ x ∈ cross_field_errors).
Proof.
  pose proof (schema_object_outcome raw) as Ho.
  assert (Hfail : field_issues raw ≠ [] ->
                  validate m raw = ValidationFailed (field_issues raw)).
  { intros Hne. unfold validate. destruct (schema_object raw) as [e|issues]; [done|].
    by destruct Ho as [-> _]. }
  split; [exact Hfail|]. split.
  - intros p codes c Hp Hc.
    assert (Hin : In (mk_issue p c) (field_issues raw)).
    { unfold field_issues. apply in_flat_map. exists (p, codes).
      split; [done|]. apply list_elem_of_In, list_elem_of_fmap_2.
      by apply list_elem_of_In. }
    split; [done|]. apply Hfail. intros Hnil. by rewrite Hnil in Hin.
  - intros x. unfold validate. destruct (schema_object raw) as [e|issues]; [|done].
    destruct (transform m (raw !! "NODE_ENV") e) as [c|y] eqn:Ht; [done|].
    intros [= <-]. split; [done|]. by eapply transform_error.
Qed.

(** Validation goes through only if [transform] does. *)
Lemma validate_started m raw c :
  validate m raw = Started c ->
  exists e, schema_object raw = Ok e ∧ transform m (raw !! "NODE_ENV") e = Ok c.
Proof.
  unfold validate. destruct (schema_object raw) as [e|issues]; [|done].
  destruct (transform m (raw !! "NODE_ENV") e) as [c'|x] eqn:Ht; [|done].
  intros [= <-]. by exists e.
Qed.

Lemma transform_passes_sms m node_env e c :
  transform m node_env e = Ok c ->
  sms (compute_features m e) = true -> sms_sender_rules e = Ok tt.
Proof.
  unfold transform. intros Ht Hsms.
  destruct (classifier_rule _ e) as [[]|]; [|done]. cbn [bind] in Ht.
  unfold sms_rules in Ht. rewrite Hsms in Ht.
  by destruct (sms_sender_rules e) as [[]|].
Qed.

(** The first half of the SMS block passes exactly when both credentials
    are present, exactly one sender option is, and a sender number is in
    E.164 form. *)
Lemma sms_sender_rules_ok (e : Env) :
  sms_sender_rules e = Ok tt
  <-> truthy (TWILIO_ACCOUNT_SID e) = true ∧ truthy (TWILIO_AUTH_TOKEN e) = true
      ∧ truthy (TWILIO_MESSAGING_SERVICE_SID e) ≠ truthy (TWILIO_FROM_NUMBER e)
      ∧ (truthy (TWILIO_FROM_NUMBER e) = true ->
         e164_regex (default [] (TWILIO_FROM_NUMBER e)) = true).
Proof.
  unfold sms_sender_rules, e164_parse, throw_unless.
  destruct (truthy (TWILIO_ACCOUNT_SID e)), (truthy (TWILIO_AUTH_TOKEN e)),
    (truthy (TWILIO_MESSAGING_SERVICE_SID e)), (truthy (TWILIO_FROM_NUMBER e));
    cbn; try (split; [done | intros (? & ? & ? & ?); done]).
  destruct (e164_regex _); split; try done.
  intros (_ & _ & _ & Hf). by specialize (Hf eq_refl).
Qed.

(** C6.  With the SMS flag on: validation fails unless both the account
    identifier and the authentication token are present; it fails when the
    messaging-service identifier and the sender number are both present or
    both absent; and the credential and sender rules are met exactly when
    both credentials are present, exactly one of the two sender options is
    present, and a sender number, if that is the option, is valid E.164.
    (Present means set and not empty.) *)
Theorem sms_requirements (m : Mode) (raw : environment) (e : Env) :
  schema_object raw = Ok e ->
  sms (compute_features m e) = true ->
  (truthy (TWILIO_ACCOUNT_SID e) && truthy (TWILIO_AUTH_TOKEN e) = false ->
     forall c, validate m raw ≠ Started c)
  ∧ (truthy (TWILIO_MESSAGING_SERVICE_SID e) = truthy (TWILIO_FROM_NUMBER e) ->
     forall c, validate m raw ≠ Started c)
  ∧ (sms_sender_rules e = Ok tt
     <-> truthy (TWILIO_ACCOUNT_SID e) = true ∧ truthy (TWILIO_AUTH_TOKEN e) = true
         ∧ truthy (TWILIO_MESSAGING_SERVICE_SID e) ≠ truthy (TWILIO_FROM_NUMBER e)
         ∧ (truthy (TWILIO_FROM_NUMBER e) = true ->
            e164_regex (default [] (TWILIO_FROM_NUMBER e)) = true))
  ∧ (forall c, validate m raw = Started c -> sms_sender_rules e = Ok tt).
Proof.
  intros He Hsms.
  assert (Hpass : forall c, validate m raw = Started c -> sms_sender_rules e = Ok tt).
  { intros c Hc. apply validate_started in Hc as (e' & He' & Ht).
    rewrite He in He'. injection He' as <-. by eapply transform_passes_sms. }
  split; [|split; [|split; [apply sms_sender_rules_ok | exact Hpass]]].
  - intros Hcred c Hc. apply Hpass, sms_sender_rules_ok in Hc as (Hs & Ht & _).
    by rewrite Hs, Ht in Hcred.
  - intros Hsender c Hc. apply Hpass, sms_sender_rules_ok in Hc as (_ & _ & Hne & _).
    done.
Qed.
End FieldChecks.

Section FeatureFlags.
Local Open Scope N_scope.

Lemma toLowerCase_word v w :
  Forall word_char w -> (toLowerCase v = w <-> equal_ignoring_case v w).
Proof.
  unfold toLowerCase, equal_ignoring_case. revert w.
  induction v as [|u v IH]; intros w Hw; cbn [flat_map].
  - split; [intros <-; constructor | by inversion 1].
  - unfold lower_unit at 1. repeat case_if; cbn [app]; split.
    all: try (intros <-; apply Forall_cons in Hw as [Hu Hw]).
    all: try (inversion 1 as [|a b v' w' Hab Hvw]; subst;
              apply Forall_cons in Hw as [Hb Hw];
              unfold same_ignoring_case, word_char in *).
    + constructor; [unfold same_ignoring_case; lia | by apply IH].
    + f_equal; [lia | by apply IH].
    + unfold word_char in Hu. lia.
    + exfalso. lia.
    + apply Forall_cons in Hw as [Hu' _]. unfold word_char in Hu'. lia.
    + exfalso. lia.
    + constructor; [by left | by apply IH].
    + f_equal; [lia | by apply IH].
Qed.

Lemma enabling_words_chars w :
  w ∈ [js "1"; js "true"; js "yes"; js "on"] -> Forall word_char w.
Proof.
  intros Hw. repeat (apply elem_of_cons in Hw as [-> | Hw]);
    [..|by apply elem_of_nil in Hw];
    repeat constructor; unfold word_char; vm_compute; intuition discriminate.
Qed.

Lemma boolFromEnv_set v fallback :
  boolFromEnv (Some v) fallback = true <-> enabling v.
Proof.
  unfold boolFromEnv, enabling. rewrite bool_decide_eq_true. split.
  - intros Hin. exists (toLowerCase v). split; [done|].
    by apply toLowerCase_word; [apply enabling_words_chars|].
  - intros (w & Hw & Heq).
    apply toLowerCase_word in Heq; [by subst | by apply enabling_words_chars].
Qed.

(** C10.  For each of the four feature flags: a value that is set switches
    the feature on if and only if it is one of [1], [true], [yes], [on] in
    any case, and any other set value switches it off; a flag that is not
    set is on in development and off in production and in test, development
    being every mode that is neither of the two. *)
Theorem feature_flag_rule (m : Mode) (e : Env) (f : flag) :
  (forall v, flag_value f e = Some v ->
     (feature f (compute_features m e) = true <-> enabling v)
     ∧ (¬ enabling v -> feature f (compute_features m e) = false))
  ∧ (flag_value f e = None ->
     feature f (compute_features m e) = mode_isDevelopment m
     ∧ (mode_isProduction m = true ∨ mode_isTest m = true ->
        feature f (compute_features m e) = false)
     ∧ (mode_isProduction m = false -> mode_isTest m = false ->
        feature f (compute_features m e) = true))
  ∧ (mode_isDevelopment m = true <-> mode_isProduction m = false ∧ mode_isTest m = false).
Proof.
  split; [|split].
  - intros v Hv.
    assert (Hiff : feature f (compute_features m e) = true <-> enabling v).
    { destruct f; cbn in *; rewrite Hv; apply boolFromEnv_set. }
    split; [done|]. intros Hn. destruct (feature f _); [|done].
    exfalso. by apply Hn, Hiff.
  - intros Hv.
    assert (Hd : feature f (compute_features m e) = mode_isDevelopment m)
      by (destruct f; cbn in *; rewrite Hv; cbn; by destruct (mode_isDevelopment m)).
    rewrite Hd. unfold mode_isDevelopment. split; [done|]. split.
    + by intros [-> | ->]; [|destruct (mode_isProduction m)].
    + by intros -> ->.
  - unfold mode_isDevelopment. destruct (mode_isProduction m), (mode_isTest m); cbn;
      intuition discriminate.
Qed.

(** The mode is read off [NODE_ENV]: production and test by name, and
    development otherwise, also when the variable is not set. *)
Lemma mode_of_NODE_ENV (raw : environment) :
  mode_isProduction (mode_of raw) = bool_decide (raw !! "NODE_ENV" = Some (js "production"))
  ∧ mode_isTest (mode_of raw) = bool_decide (raw !! "NODE_ENV" = Some (js "test"))
  ∧ (raw !! "NODE_ENV" = None -> mode_isDevelopment (mode_of raw) = true).
Proof.
  repeat split. intros Hn. unfold mode_isDevelopment, mode_of. cbn. by rewrite Hn.
Qed.
End FeatureFlags.

(** ** The validator theorems at concrete environments *)

(** The aggregation of field issues at an environment with two fields at
    fault. *)
Lemma violations_reported_witness :
  validate (mode_of two_fields_invalid) two_fields_invalid
  = ValidationFailed
      [ mk_issue "PORT" not_an_integer; mk_issue "PORT" too_big;
        mk_issue "DATABASE_URL" required ].
Proof.
  exact (proj1 (violations_reported (H := zod) (mode_of two_fields_invalid)
                  two_fields_invalid)
               ltac:(intros Hx; vm_compute in Hx; discriminate Hx)).
Defined.

(** C4 as stated fails for the conditional requirements.  With the
    classifier and the SMS feature on and neither credential there, both
    requirements are violated and only the first is reported; and when a
    field is at fault as well, the violated requirement is not reported at
    all. *)
Lemma only_first_requirement_reported :
  (e <-- schema_object two_requirements_missing ;;
   let f := compute_features (mode_of two_requirements_missing) e in
   Ok (classifier_rule f e, sms f, sms_sender_rules e))
  = Ok (Err (Error "OPENAI_API_KEY is required when FEATURE_ENABLE_CLASSIFIER=true"),
        true,
        Err (Error "Twilio credentials required when FEATURE_ENABLE_SMS=true"))
  ∧ load_config two_requirements_missing None None
    = Thrown (Error "OPENAI_API_KEY is required when FEATURE_ENABLE_CLASSIFIER=true")
  ∧ boolFromEnv (two_fields_invalid !! "FEATURE_ENABLE_CLASSIFIER") false = true
  ∧ truthy (two_fields_invalid !! "OPENAI_API_KEY") = false
  ∧ load_config two_fields_invalid None None
    = ValidationFailed
        [ mk_issue "PORT" not_an_integer; mk_issue "PORT" too_big;
          mk_issue "DATABASE_URL" required ].
Proof. repeat split; vm_compute; reflexivity. Qed.

(** The SMS rules at an environment with both credentials and a sender
    number. *)
Lemma sms_requirements_witness :
  sms_sender_rules (proj1_sig sms_parsed) = Ok tt
  ∧ exists c, validate (mode_of sms_environment) sms_environment = Started c.
Proof.
  destruct (sms_requirements (H := zod) (mode_of sms_environment) sms_environment
              (proj1_sig sms_parsed) (proj2_sig sms_parsed)
              ltac:(vm_compute; reflexivity)) as (_ & _ & Hiff & _).
  split.
  - apply Hiff. repeat split; try (vm_compute; reflexivity). discriminate.
  - eexists. vm_compute. reflexivity.
Defined.

(** The flag rule at the SMS example: the value [ON] switches the feature
    on, and the flags that are not set are off in production. *)
Lemma feature_flag_rule_witness :
  feature flag_sms (compute_features (mode_of sms_environment) (proj1_sig sms_parsed)) = true
  ∧ feature flag_push (compute_features (mode_of sms_environment) (proj1_sig sms_parsed))
    = false.
Proof.
  destruct (feature_flag_rule (mode_of sms_environment) (proj1_sig sms_parsed) flag_sms)
    as (Hset & _ & _).
  destruct (feature_flag_rule (mode_of sms_environment) (proj1_sig sms_parsed) flag_push)
    as (_ & Hunset & _).
  split.
  - apply (Hset (js "ON") eq_refl).
    exists (js "on"). split.
    + do 3 apply list_elem_of_further. apply list_elem_of_here.
    + unfold equal_ignoring_case. cbn [js].
      repeat (constructor; [right; left; vm_compute; intuition discriminate|]).
      constructor.
  - exact (proj1 (Hunset eq_refl)).
Defined.


(** * Part 3, more proofs: the started configuration *)

Section ParsedFields.
Context `{Zod}.

Lemma and_field_ok {A B} (f : Result (list issue) (A -> B)) p (r : parsed A) y :
  and_field f (at_path p r) = Ok y -> exists g a, f = Ok g ∧ r = Ok a ∧ y = g a.
Proof.
  destruct f as [g|?], r as [a|?]; cbn; try done.
  intros [= <-]. by exists g, a.
Qed.

(** When the object schema passes, every field of the parsed object is what
    the schema of that field gave for the variable of the same name. *)
Lemma schema_object_fields (raw : environment) (e : Env) :
  schema_object raw = Ok e ->
  z_default (Finite 4000) (z_coerce_int 1 (Some 65535)) (raw !! "PORT") = Ok (PORT e)
  ∧ z_default (js "http://localhost:4000") (fun s => urlSchema (Some s)) (raw !! "APP_BASE_URL")
    = Ok (APP_BASE_URL e)
  ∧ z_default info z_log_level (raw !! "LOG_LEVEL") = Ok (LOG_LEVEL e)
  ∧ z_default (js "http://localhost:5173") Ok (raw !! "CORS_ORIGIN") = Ok (CORS_ORIGIN e)
  ∧ z_string_min1 (raw !! "DATABASE_URL") = Ok (DATABASE_URL e)
  ∧ base64Key32 (raw !! "TOKEN_ENCRYPTION_KEY") = Ok (TOKEN_ENCRYPTION_KEY e)
  ∧ z_string_min1 (raw !! "TOKEN_ENCRYPTION_KEY_ID") = Ok (TOKEN_ENCRYPTION_KEY_ID e)
  ∧ z_default (Finite 180) (z_coerce_int 1 None) (raw !! "RETENTION_DAYS")
    = Ok (RETENTION_DAYS e)
  ∧ z_string_min1 (raw !! "GOOGLE_PROJECT_ID") = Ok (GOOGLE_PROJECT_ID e)
  ∧ z_string_min1 (raw !! "GOOGLE_OAUTH_CLIENT_ID") = Ok (GOOGLE_OAUTH_CLIENT_ID e)
  ∧ z_string_min1 (raw !! "GOOGLE_OAUTH_CLIENT_SECRET") = Ok (GOOGLE_OAUTH_CLIENT_SECRET e)
  ∧ urlSchema (raw !! "GOOGLE_OAUTH_REDIRECT_URI") = Ok (GOOGLE_OAUTH_REDIRECT_URI e)
  ∧ GOOGLE_APPLICATION_CREDENTIALS e = raw !! "GOOGLE_APPLICATION_CREDENTIALS"
  ∧ z_default (js "https://www.googleapis.com/auth/gmail.modify") Ok (raw !! "GMAIL_SCOPES")
    = Ok (GMAIL_SCOPES e)
  ∧ z_default (js "https://www.googleapis.com/auth/tasks") Ok (raw !! "TASKS_SCOPES")
    = Ok (TASKS_SCOPES e)
  ∧ z_default (js "/api/pubsub/push") Ok (raw !! "PUSH_ENDPOINT_PATH")
    = Ok (PUSH_ENDPOINT_PATH e)
  ∧ z_string_min1 (raw !! "PUBSUB_TOPIC") = Ok (PUBSUB_TOPIC e)
  ∧ z_string_min1 (raw !! "PUBSUB_SUBSCRIPTION") = Ok (PUBSUB_SUBSCRIPTION e)
  ∧ PUBSUB_OIDC_AUDIENCE e = raw !! "PUBSUB_OIDC_AUDIENCE"
  ∧ z_string_email (raw !! "PUBSUB_SERVICE_ACCOUNT_EMAIL")
    = Ok (PUBSUB_SERVICE_ACCOUNT_EMAIL e)
  ∧ PUBSUB_PROJECT_NUMBER e = raw !! "PUBSUB_PROJECT_NUMBER"
  ∧ PUBSUB_VERIFICATION_TOKEN e = raw !! "PUBSUB_VERIFICATION_TOKEN"
  ∧ OPENAI_API_KEY e = raw !! "OPENAI_API_KEY"
  ∧ z_default (js "gpt-4o") Ok (raw !! "OPENAI_MODEL") = Ok (OPENAI_MODEL e)
  ∧ OPENAI_API_BASE e = raw !! "OPENAI_API_BASE"
  ∧ TWILIO_ACCOUNT_SID e = raw !! "TWILIO_ACCOUNT_SID"
  ∧ TWILIO_AUTH_TOKEN e = raw !! "TWILIO_AUTH_TOKEN"
  ∧ TWILIO_MESSAGING_SERVICE_SID e = raw !! "TWILIO_MESSAGING_SERVICE_SID"
  ∧ TWILIO_FROM_NUMBER e = raw !! "TWILIO_FROM_NUMBER"
  ∧ TWILIO_DEFAULT_SMS_TO e = raw !! "TWILIO_DEFAULT_SMS_TO"
  ∧ ALLOW_DEFAULT_SMS_TO_IN_PROD e = raw !! "ALLOW_DEFAULT_SMS_TO_IN_PROD"
  ∧ TWILIO_WEBHOOK_SECRET e = raw !! "TWILIO_WEBHOOK_SECRET"
  ∧ FEATURE_ENABLE_SMS e = raw !! "FEATURE_ENABLE_SMS"
  ∧ FEATURE_ENABLE_TASKS e = raw !! "FEATURE_ENABLE_TASKS"
  ∧ FEATURE_ENABLE_PUSH e = raw !! "FEATURE_ENABLE_PUSH"
  ∧ FEATURE_ENABLE_CLASSIFIER e = raw !! "FEATURE_ENABLE_CLASSIFIER".
Proof.
  unfold schema_object. intros He.
  repeat match type of He with
         | and_field _ _ = Ok _ =>
             let g := fresh "g" in let a := fresh "a" in let Ha := fresh "Ha" in
             apply and_field_ok in He as (g & a & He & Ha & ->)
         end.
  injection He as <-. cbn.
  unfold optional in *.
  repeat match goal with Hx : Ok _ = Ok _ |- _ => injection Hx as <- end.
  repeat split; assumption.
Qed.
End ParsedFields.

Section StartedConfig.
Context `{Zod}.

(** [transform] returns only after its three conditional requirements have
    passed, and then its result is built from the parsed object alone. *)
Lemma transform_ok m node_env e c :
  transform m node_env e = Ok c ->
  classifier_rule (compute_features m e) e = Ok tt
  ∧ sms_rules m (compute_features m e) e = Ok tt
  ∧ push_rule m (compute_features m e) e = Ok tt.
Proof.
  unfold transform. intros Ht.
  destruct (classifier_rule _ e) as [[]|]; [|done].
  destruct (sms_rules m _ e) as [[]|]; [|done].
  by destruct (push_rule m _ e) as [[]|].
Qed.

(** What a started configuration holds, field by field. *)
Lemma transform_fields m node_env e c :
  transform m node_env e = Ok c ->
  features c = compute_features m e
  ∧ isDevelopment c = mode_isDevelopment m
  ∧ isTest c = mode_isTest m
  ∧ isProduction c = mode_isProduction m
  ∧ env c = (if truthy node_env then default [] node_env else js "development")
  ∧ app_port c = PORT e
  ∧ app_baseUrl c = APP_BASE_URL e
  ∧ app_corsOrigins c = splitCsv (Some (CORS_ORIGIN e)) [js "http://localhost:5173"]
  ∧ app_logLevel c = LOG_LEVEL e
  ∧ db_retentionDays c = RETENTION_DAYS e
  ∧ security_tokenKeyB64 c = TOKEN_ENCRYPTION_KEY e
  ∧ security_tokenKeyId c = TOKEN_ENCRYPTION_KEY_ID e
  ∧ google_adcPath c = GOOGLE_APPLICATION_CREDENTIALS e
  ∧ google_scopes_gmail c = trim <$> split_comma (GMAIL_SCOPES e)
  ∧ google_scopes_tasks c = trim <$> split_comma (TASKS_SCOPES e)
  ∧ pubsub_pushPath c = PUSH_ENDPOINT_PATH e
  ∧ pubsub_audience c
    = match PUBSUB_OIDC_AUDIENCE e with
      | Some a => a
      | None => APP_BASE_URL e ++ PUSH_ENDPOINT_PATH e
      end
  ∧ oidc_audience (pubsub_oidc c) = pubsub_audience c
  ∧ issuer (pubsub_oidc c) = js "https://accounts.google.com"
  ∧ verificationToken (pubsub_oidc c)
    = (if mode_isDevelopment m then PUBSUB_VERIFICATION_TOKEN e else None)
  ∧ openai_apiKey c = OPENAI_API_KEY e
  ∧ openai_model c = OPENAI_MODEL e
  ∧ twilio_accountSid c = TWILIO_ACCOUNT_SID e
  ∧ twilio_authToken c = TWILIO_AUTH_TOKEN e
  ∧ twilio_messagingServiceSid c = TWILIO_MESSAGING_SERVICE_SID e
  ∧ twilio_fromNumber c = TWILIO_FROM_NUMBER e
  ∧ twilio_defaultSmsTo c = TWILIO_DEFAULT_SMS_TO e.
Proof.
  unfold transform. intros Ht.
  destruct (classifier_rule _ e) as [[]|]; [|done].
  destruct (sms_rules m _ e) as [[]|]; [|done].
  destruct (push_rule m _ e) as [[]|]; [|done].
  cbn [bind] in Ht. injection Ht as <-. cbn. repeat split.
Qed.

(** A started configuration comes from a parsed object that passed every
    conditional requirement. *)
Lemma started_config m raw c :
  validate m raw = Started c ->
  exists e, schema_object raw = Ok e ∧ transform m (raw !! "NODE_ENV") e = Ok c.
Proof.
  unfold validate. destruct (schema_object raw) as [e|]; [|done].
  destruct (transform _ _ e) as [c'|] eqn:Ht; [|done].
  intros [= <-]. by exists e.
Qed.

Ltac open_config Hc e :=
  let He := fresh "He" in let Ht := fresh "Ht" in
  apply started_config in Hc as (e & He & Ht);
  pose proof (schema_object_fields _ _ He);
  pose proof (transform_fields _ _ _ _ Ht);
  pose proof (transform_ok _ _ _ _ Ht).

Lemma z_default_unset {A} (d : A) schema v x :
  v = None -> z_default d schema v = Ok x -> x = d.
Proof. intros ->. cbn. congruence. Qed.

(** X1.  A variable that has a default and is not set gives the default in the
    started configuration: port 4000, the local base URL, log level info,
    the local CORS origin, 180 days of retention, the Gmail and Tasks
    scopes, the push path and the model. *)
Theorem defaults_applied (m : Mode) (raw : environment) (c : Config) :
  validate m raw = Started c ->
  (raw !! "PORT" = None -> app_port c = Finite 4000)
  ∧ (raw !! "APP_BASE_URL" = None -> app_baseUrl c = js "http://localhost:4000")
  ∧ (raw !! "LOG_LEVEL" = None -> app_logLevel c = info)
  ∧ (raw !! "CORS_ORIGIN" = None -> app_corsOrigins c = [js "http://localhost:5173"])
  ∧ (raw !! "RETENTION_DAYS" = None -> db_retentionDays c = Finite 180)
  ∧ (raw !! "GMAIL_SCOPES" = None ->
     google_scopes_gmail c = [js "https://www.googleapis.com/auth/gmail.modify"])
  ∧ (raw !! "TASKS_SCOPES" = None ->
     google_scopes_tasks c = [js "https://www.googleapis.com/auth/tasks"])
  ∧ (raw !! "PUSH_ENDPOINT_PATH" = None -> pubsub_pushPath c = js "/api/pubsub/push")
  ∧ (raw !! "OPENAI_MODEL" = None -> openai_model c = js "gpt-4o").
Proof.
  intros Hc. open_config Hc e. destruct_and!.
  repeat split; intros Hu;
    match goal with
    | Hd : z_default _ _ (raw !! ?k) = Ok _, Hk : raw !! ?k = None |- _ =>
        apply (z_default_unset _ _ _ _ Hk) in Hd
    end;
    match goal with
    | Hf : ?f c = _ |- ?f c = _ => rewrite Hf
    end;
    first [ congruence
          | match goal with Hd : _ e = _ |- _ => rewrite Hd end; by vm_compute ].
Qed.

(** What [z.coerce.number().int().min(lo).max(hi)] lets through: a finite
    integer within the bounds. *)
Lemma z_coerce_int_ok lo hi s n :
  z_coerce_int lo hi s = Ok n ->
  exists (q : Q) (z : Z),
    n = Finite q ∧ Qeq q (inject_Z z) ∧ lo <= z ∧ forall h, hi = Some h -> z <= h.
Proof.
  unfold z_coerce_int.
  destruct (Number s) as [|neg|q]; [done| |].
  - by cbn [isInteger app].
  - destruct (isInteger (Finite q)) eqn:Hi; [|done].
    destruct (number_lt (Finite q) lo) eqn:Hlo; [done|].
    cbn [app]. intros Hn.
    assert (Hhi : forall h, hi = Some h -> number_gt (Finite q) h = false).
    { intros h ->. by destruct (number_gt (Finite q) h). }
    assert (n = Finite q) as ->.
    { destruct hi as [h|]; [rewrite (Hhi h eq_refl) in Hn|]; congruence. }
    clear Hn. unfold isInteger in Hi. unfold number_lt in Hlo.
    apply Pos.eqb_eq in Hi. apply negb_false_iff, Qle_bool_iff in Hlo.
    assert (Hq : Qeq q (inject_Z (Qnum (Qred q)))).
    { rewrite <- (Qred_correct q) at 1. destruct (Qred q) as [a b]. cbn in *. by subst. }
    exists q, (Qnum (Qred q)). split; [done|]. split; [done|]. split.
    + rewrite Hq in Hlo. by rewrite Zle_Qle.
    + intros h Hh. specialize (Hhi h Hh). unfold number_gt in Hhi.
      apply negb_false_iff, Qle_bool_iff in Hhi. rewrite Hq in Hhi. by rewrite Zle_Qle.
Qed.

Lemma z_default_coerce_int_ok d lo hi v n :
  lo <= d -> (forall h, hi = Some h -> d <= h) ->
  z_default (Finite (inject_Z d)) (z_coerce_int lo hi) v = Ok n ->
  exists (q : Q) (z : Z),
    n = Finite q ∧ Qeq q (inject_Z z) ∧ lo <= z ∧ forall h, hi = Some h -> z <= h.
Proof.
  intros Hlo Hhi. destruct v as [s|]; cbn.
  - apply z_coerce_int_ok.
  - intros [= <-]. by exists (inject_Z d), d.
Qed.

(** X2.  Whatever the variables hold, the port of a started configuration is an
    integer from 1 to 65535 and its retention period an integer of at least
    one day; no other number, and no text that is not a number, gets
    through. *)
Theorem port_and_retention_ranges (m : Mode) (raw : environment) (c : Config) :
  validate m raw = Started c ->
  (exists (q : Q) (port : Z),
     app_port c = Finite q ∧ Qeq q (inject_Z port) ∧ 1 <= port <= 65535)
  ∧ (exists (q : Q) (days : Z),
       db_retentionDays c = Finite q ∧ Qeq q (inject_Z days) ∧ 1 <= days).
Proof.
  intros Hc. open_config Hc e. destruct_and!. split.
  - destruct (z_default_coerce_int_ok 4000 1 (Some 65535) (raw !! "PORT") (PORT e))
      as (q & z & Hq & Hz & Hlo & Hhi); [lia | intros ? [= <-]; lia | done |].
    exists q, z. repeat split; [congruence | done | done | by apply Hhi].
  - destruct (z_default_coerce_int_ok 180 1 None (raw !! "RETENTION_DAYS") (RETENTION_DAYS e))
      as (q & z & Hq & Hz & Hlo & _); [lia | done | done |].
    exists q, z. repeat split; [congruence | done | done].
Qed.

Lemma base64Key32_ok v s :
  base64Key32 v = Ok s -> v = Some s ∧ s ≠ [] ∧ length (base64_decode s) = 32%nat.
Proof.
  unfold base64Key32. destruct v as [k|]; [|done]. cbn.
  destruct k as [|u k]; cbn [app].
  - by destruct (_ =? _)%nat.
  - destruct (length (base64_decode (u :: k)) =? 32)%nat eqn:Hl; [|done].
    intros [= <-]. apply Nat.eqb_eq in Hl. done.
Qed.

Lemma z_string_min1_ok v s : z_string_min1 v = Ok s -> v = Some s ∧ s ≠ [].
Proof.
  unfold z_string_min1. destruct v as [[|u k]|]; cbn; try done.
  by intros [= <-].
Qed.

(** X3.  A key that the validator accepted is a key that the cipher accepts: in
    an environment with which validation started, [getKey] returns the
    32 bytes of the configured key and the configured key identifier (the
    fallback identifier is not used), so that sealing can fail for the size
    of the payload only. *)
Theorem validated_key_is_usable `{Node} (m : Mode) (raw : environment) (c : Config) :
  validate m raw = Started c ->
  getKey raw = Ok (base64_decode (security_tokenKeyB64 c), security_tokenKeyId c)
  ∧ length (base64_decode (security_tokenKeyB64 c)) = 32%nat
  ∧ raw !! "TOKEN_ENCRYPTION_KEY_ID" = Some (security_tokenKeyId c)
  ∧ security_tokenKeyId c ≠ []
  ∧ forall g p x,
      (encryptToB64 raw g p).1 = Err x -> x = JsError "Encrypted payload exceeds 16KB".
Proof.
  intros Hc. open_config Hc e. destruct_and!.
  match goal with Hx : base64Key32 _ = Ok _ |- _ =>
    apply base64Key32_ok in Hx as (Hk & Hne & Hlen) end.
  match goal with Hx : z_string_min1 (raw !! "TOKEN_ENCRYPTION_KEY_ID") = Ok _ |- _ =>
    apply z_string_min1_ok in Hx as (Hid & Hidne) end.
  assert (Hget : getKey raw
                 = Ok (base64_decode (TOKEN_ENCRYPTION_KEY e), TOKEN_ENCRYPTION_KEY_ID e)).
  { clear - Hk Hne Hlen Hid Hidne. unfold getKey. unfold jsstring in *. rewrite Hk, Hid.
    destruct (TOKEN_ENCRYPTION_KEY e) as [|u k]; [done|].
    destruct (TOKEN_ENCRYPTION_KEY_ID e) as [|u' k']; [done|].
    cbn [truthy negb default from_option id]. by rewrite Hlen. }
  match goal with Hf : security_tokenKeyB64 c = _ |- _ => rewrite Hf end.
  match goal with Hf : security_tokenKeyId c = _ |- _ => rewrite Hf end.
  repeat split; try done.
  intros g p x. unfold encryptToB64. rewrite Hget.
  destruct (randomBytes IV_LENGTH g) as [nonce g'].
  destruct (_ <? _)%nat; cbn [fst]; congruence.
Qed.

(** X4.  The expected audience of push requests is the configured audience
    whenever that variable is set, even to the empty string, and the base
    URL followed by the push path otherwise (with their defaults, the local
    URL [http://localhost:4000/api/pubsub/push]); the expected issuer is
    always Google's. *)
Theorem oidc_audience_rule (m : Mode) (raw : environment) (c : Config) :
  validate m raw = Started c ->
  oidc_audience (pubsub_oidc c) = pubsub_audience c
  ∧ issuer (pubsub_oidc c) = js "https://accounts.google.com"
  ∧ (forall a, raw !! "PUBSUB_OIDC_AUDIENCE" = Some a -> pubsub_audience c = a)
  ∧ (raw !! "PUBSUB_OIDC_AUDIENCE" = None ->
     pubsub_audience c = app_baseUrl c ++ pubsub_pushPath c
     ∧ (raw !! "APP_BASE_URL" = None -> raw !! "PUSH_ENDPOINT_PATH" = None ->
        pubsub_audience c = js "http://localhost:4000/api/pubsub/push")).
Proof.
  intros Hc. open_config Hc e. destruct_and!.
  match goal with Hf : oidc_audience (pubsub_oidc c) = _ |- _ => rewrite Hf end.
  match goal with Hf : pubsub_audience c = _ |- _ => rewrite Hf end.
  match goal with Hf : app_baseUrl c = _ |- _ => rewrite Hf end.
  match goal with Hf : pubsub_pushPath c = _ |- _ => rewrite Hf end.
  match goal with Hf : PUBSUB_OIDC_AUDIENCE e = _ |- _ => rewrite Hf end.
  split; [done|]. split; [done|]. split.
  - by intros a ->.
  - intros ->. split; [done|]. intros Hb Hp.
    repeat match goal with
           | Hd : z_default _ _ (raw !! ?k) = Ok _, Hk : raw !! ?k = None |- _ =>
               apply (z_default_unset _ _ _ _ Hk) in Hd; rewrite Hd
           end.
    by vm_compute.
Qed.

(** X5.  The verification token of push requests reaches the configuration in
    development only: in production and in test the field is undefined
    whatever the variable holds. *)
Theorem verification_token_only_in_development (m : Mode) (raw : environment) (c : Config) :
  validate m raw = Started c ->
  (isDevelopment c = true ->
   verificationToken (pubsub_oidc c) = raw !! "PUBSUB_VERIFICATION_TOKEN")
  ∧ (isProduction c = true ∨ isTest c = true -> verificationToken (pubsub_oidc c) = None).
Proof.
  intros Hc. open_config Hc e. destruct_and!.
  match goal with Hf : verificationToken (pubsub_oidc c) = _ |- _ => rewrite Hf end.
  match goal with Hf : isDevelopment c = _ |- _ => rewrite Hf end.
  match goal with Hf : isProduction c = _ |- _ => rewrite Hf end.
  match goal with Hf : isTest c = _ |- _ => rewrite Hf end.
  match goal with Hf : PUBSUB_VERIFICATION_TOKEN e = _ |- _ => rewrite Hf end.
  unfold mode_isDevelopment.
  destruct (mode_isProduction m), (mode_isTest m); cbn; intuition congruence.
Qed.

Lemma sms_rules_error m f e x :
  sms_rules m f e = Err x ->
  x = Error "Twilio credentials required when FEATURE_ENABLE_SMS=true"
  ∨ x = Error "Provide exactly one of TWILIO_MESSAGING_SERVICE_SID or TWILIO_FROM_NUMBER"
  ∨ x = ZodError [mk_issue EmptyString invalid_format]
  ∨ x = Error "TWILIO_DEFAULT_SMS_TO set in production without ALLOW_DEFAULT_SMS_TO_IN_PROD=true".
Proof.
  unfold sms_rules. destruct (sms f); [|done].
  intros [Hs|([] & _ & Hr)]%bind_error.
  - apply sms_sender_rules_error in Hs. tauto.
  - apply sms_recipient_rules_error in Hr. tauto.
Qed.

Lemma validate_thrown m raw e x :
  schema_object raw = Ok e ->
  validate m raw = Thrown x <-> transform m (raw !! "NODE_ENV") e = Err x.
Proof.
  intros He. unfold validate. rewrite He.
  destruct (transform _ _ e); split; congruence.
Qed.

(** X6.  The classifier needs its API key: with the classifier on, validation
    ends with the error that names [OPENAI_API_KEY] exactly when that
    variable is unset or empty, before any other requirement is looked at;
    so a started configuration with the classifier on has a non-empty
    key. *)
Theorem classifier_requires_api_key (m : Mode) (raw : environment) (e : Env) :
  schema_object raw = Ok e ->
  (validate m raw
   = Thrown (Error "OPENAI_API_KEY is required when FEATURE_ENABLE_CLASSIFIER=true")
   <-> classifier (compute_features m e) = true ∧ truthy (raw !! "OPENAI_API_KEY") = false)
  ∧ (forall c, validate m raw = Started c ->
       classifier (features c) = true -> truthy (openai_apiKey c) = true).
Proof.
  intros He. pose proof (schema_object_fields _ _ He) as Hf. destruct_and!.
  assert (Hkey : OPENAI_API_KEY e = raw !! "OPENAI_API_KEY") by done.
  split.
  - rewrite (validate_thrown _ _ _ _ He). unfold transform, classifier_rule.
    rewrite <- Hkey.
    destruct (classifier (compute_features m e)), (truthy (OPENAI_API_KEY e));
      cbn [negb andb throw_unless bind]; split; try done; try (by intros []).
    all: intros [Hs|([] & _ & [Hp|([] & _ & Hp)]%bind_error)]%bind_error;
      try (apply sms_rules_error in Hs; destruct Hs as [|[|[|]]]; done);
      try (unfold push_rule in Hp; destruct (push _); [|done];
           apply throw_unless_error in Hp; done); done.
  - intros c Hc Hcl. apply started_config in Hc as (e' & He' & Ht).
    assert (e' = e) as -> by congruence.
    pose proof (transform_fields _ _ _ _ Ht) as Hfs.
    pose proof (transform_ok _ _ _ _ Ht) as (Hrule & _). destruct_and!.
    match goal with Hx : openai_apiKey c = _ |- _ => rewrite Hx end.
    match goal with Hx : features c = _ |- _ => rewrite Hx in Hcl end.
    unfold classifier_rule in Hrule. rewrite Hcl in Hrule.
    by destruct (truthy (OPENAI_API_KEY e)).
Qed.

(** X7.  Push needs a credentials file in development only: validation ends with
    the error that names [GOOGLE_APPLICATION_CREDENTIALS] only if push is
    on, the process is in development and the variable is unset or empty;
    a configuration that started in development with push on has a
    non-empty credentials path, and outside development the rule never
    fails. *)
Theorem push_requires_credentials_in_development (m : Mode) (raw : environment) (e : Env) :
  schema_object raw = Ok e ->
  (validate m raw
   = Thrown (Error "GOOGLE_APPLICATION_CREDENTIALS is required in development for ADC") ->
   push (compute_features m e) = true ∧ mode_isDevelopment m = true
   ∧ truthy (raw !! "GOOGLE_APPLICATION_CREDENTIALS") = false)
  ∧ (forall c, validate m raw = Started c ->
       push (features c) = true -> isDevelopment c = true ->
       truthy (google_adcPath c) = true)
  ∧ (mode_isDevelopment m = false -> push_rule m (compute_features m e) e = Ok tt).
Proof.
  intros He. pose proof (schema_object_fields _ _ He) as Hf. destruct_and!.
  assert (Hkey : GOOGLE_APPLICATION_CREDENTIALS e = raw !! "GOOGLE_APPLICATION_CREDENTIALS")
    by done.
  rewrite <- Hkey. split; [|split].
  - rewrite (validate_thrown _ _ _ _ He). unfold transform.
    intros [Hcl|([] & _ & [Hs|([] & _ & [Hp|([] & _ & Hp)]%bind_error)]%bind_error)]%bind_error.
    + unfold classifier_rule in Hcl. by apply throw_unless_error in Hcl.
    + apply sms_rules_error in Hs. by destruct Hs as [|[|[|]]].
    + unfold push_rule in Hp. destruct (push _); [|done].
      by destruct (mode_isDevelopment m), (truthy (GOOGLE_APPLICATION_CREDENTIALS e)).
    + done.
  - intros c Hc Hp Hd. apply started_config in Hc as (e' & He' & Ht).
    assert (e' = e) as -> by congruence.
    pose proof (transform_fields _ _ _ _ Ht) as Hfs.
    pose proof (transform_ok _ _ _ _ Ht) as (_ & _ & Hrule). destruct_and!.
    match goal with Hx : google_adcPath c = _ |- _ => rewrite Hx end.
    match goal with Hx : features c = _ |- _ => rewrite Hx in Hp end.
    match goal with Hx : isDevelopment c = _ |- _ => rewrite Hx in Hd end.
    unfold push_rule in Hrule. rewrite Hp, Hd in Hrule.
    by destruct (truthy (GOOGLE_APPLICATION_CREDENTIALS e)).
  - intros Hd. unfold push_rule. rewrite Hd. by destruct (push _).
Qed.

Lemma sms_recipient_rules_ok (m : Mode) (e : Env) :
  sms_recipient_rules m e = Ok tt
  <-> (truthy (TWILIO_DEFAULT_SMS_TO e) = true ->
       if mode_isProduction m
       then boolFromEnv (ALLOW_DEFAULT_SMS_TO_IN_PROD e) false = true
       else e164_regex (default [] (TWILIO_DEFAULT_SMS_TO e)) = true).
Proof.
  unfold sms_recipient_rules, e164_parse, throw_unless.
  destruct (mode_isProduction m), (truthy (TWILIO_DEFAULT_SMS_TO e)); cbn [andb negb].
  - destruct (boolFromEnv _ false); cbn; split; try done.
    intros Hx. by specialize (Hx eq_refl).
  - split; done.
  - destruct (e164_regex _); split; try done.
    intros Hx. by specialize (Hx eq_refl).
  - split; done.
Qed.

(** X8.  The default SMS recipient: a configuration that started with SMS on
    has, in production, no default recipient unless
    [ALLOW_DEFAULT_SMS_TO_IN_PROD] is an enabling value, and outside
    production no default recipient that is not in E.164 form.  In
    production the form of an allowed recipient is not checked. *)
Theorem sms_default_recipient_rule (m : Mode) (raw : environment) (c : Config) :
  validate m raw = Started c ->
  sms (features c) = true ->
  (isProduction c = true -> truthy (twilio_defaultSmsTo c) = true ->
   boolFromEnv (raw !! "ALLOW_DEFAULT_SMS_TO_IN_PROD") false = true)
  ∧ (isProduction c = false -> truthy (twilio_defaultSmsTo c) = true ->
     e164_regex (default [] (twilio_defaultSmsTo c)) = true)
  ∧ (forall e, mode_isProduction m = true ->
       boolFromEnv (ALLOW_DEFAULT_SMS_TO_IN_PROD e) false = true ->
       sms_recipient_rules m e = Ok tt).
Proof.
  intros Hc Hsms. open_config Hc e. destruct_and!.
  match goal with Hx : features c = _ |- _ => rewrite Hx in Hsms end.
  match goal with Hx : isProduction c = _ |- _ => rewrite Hx end.
  match goal with Hx : twilio_defaultSmsTo c = _ |- _ => rewrite Hx end.
  match goal with Hx : ALLOW_DEFAULT_SMS_TO_IN_PROD e = _ |- _ => rewrite <- Hx end.
  match goal with Hx : sms_rules _ _ _ = Ok tt |- _ => rename Hx into Hrule end.
  unfold sms_rules in Hrule. rewrite Hsms in Hrule.
  destruct (sms_sender_rules e) as [[]|]; [|done]. cbn [bind] in Hrule.
  pose proof (proj1 (sms_recipient_rules_ok m e) Hrule) as Hok.
  split; [|split].
  - intros Hp Hto. rewrite Hp in Hok. by apply Hok.
  - intros Hp Hto. rewrite Hp in Hok. by apply Hok.
  - intros e' Hp Ha. apply sms_recipient_rules_ok. by rewrite Hp.
Qed.

(** X9.  A variable without a default that is not set stops validation with an
    issue that names it. *)
Theorem required_variables_enforced (m : Mode) (raw : environment) (name : string) :
  In name required_variables ->
  raw !! name = None ->
  exists issues,
    validate m raw = ValidationFailed issues ∧ In (mk_issue name required) issues.
Proof.
  intros Hin Hnone.
  assert (Hi : In (mk_issue name required) (field_issues raw)).
  { unfold field_issues, field_checks. apply in_flat_map.
    unfold required_variables in Hin. cbn [In] in Hin.
    repeat (destruct Hin as [<-|Hin];
            [match type of Hnone with
             | raw !! ?k = None => exists (k, [required])
             end;
             rewrite Hnone; split; [|by left];
             repeat (first [left; reflexivity | right])|]).
    done. }
  exists (field_issues raw). split; [|done].
  pose proof (schema_object_outcome raw) as Ho. unfold validate.
  destruct (schema_object raw) as [e|issues].
  - rewrite Ho in Hi. done.
  - by destruct Ho as [-> _].
Qed.

(** X10.  The environment files: outside development they are not read; in
    development a variable of the process environment is never replaced, and
    [.env.local] goes before [.env].  The mode of the process is fixed
    before the files are read, from the [NODE_ENV] of the process
    environment alone, whereas the [env] label of the configuration is read
    afterwards: a file cannot switch production mode on or off. *)
Theorem env_files_precedence (initial : environment) (env_local env_file : option environment) :
  let m := mode_of initial in
  let loaded := load_env_files m initial env_local env_file in
  (mode_isDevelopment m = false -> loaded = initial)
  ∧ (mode_isDevelopment m = true -> forall k : string,
       loaded !! k
       = match initial !! k with
         | Some v => Some v
         | None =>
             match default ∅ env_local !! k with
             | Some v => Some v
             | None => default ∅ env_file !! k
             end
         end)
  ∧ (forall c, load_config initial env_local env_file = Started c ->
       isProduction c = bool_decide (initial !! "NODE_ENV" = Some (js "production"))
       ∧ isTest c = bool_decide (initial !! "NODE_ENV" = Some (js "test"))
       ∧ env c = (if truthy (loaded !! "NODE_ENV") then default [] (loaded !! "NODE_ENV")
                  else js "development")).
Proof.
  intros m loaded. split; [|split].
  - intros Hd. subst loaded. unfold load_env_files. by rewrite Hd.
  - intros Hd k. subst loaded. unfold load_env_files. rewrite Hd.
    rewrite !lookup_union. destruct (initial !! k), (default ∅ env_local !! k),
      (default ∅ env_file !! k); done.
  - intros c Hc. unfold load_config in Hc. fold m in Hc. fold loaded in Hc.
    apply started_config in Hc as (e & He & Ht).
    pose proof (transform_fields _ _ _ _ Ht) as Hfs. destruct_and!.
    match goal with Hx : isProduction c = _ |- _ => rewrite Hx end.
    match goal with Hx : isTest c = _ |- _ => rewrite Hx end.
    match goal with Hx : env c = _ |- _ => rewrite Hx end.
    done.
Qed.
End StartedConfig.

(** *** [splitCsv] *)

Lemma trim_start_idempotent s : trim_start (trim_start s) = trim_start s.
Proof.
  induction s as [|u s IH]; [done|]. cbn.
  destruct (is_js_whitespace u) eqn:Hu; [done|]. cbn. by rewrite Hu.
Qed.

(** What [trim_start] removes is a prefix, and what it leaves does not
    start with white space. *)
Lemma trim_start_suffix s :
  exists w, s = w ++ trim_start s
            ∧ match trim_start s with
              | u :: _ => is_js_whitespace u = false
              | [] => True
              end.
Proof.
  induction s as [|u s (w & Hw & Hh)]; [by exists []|]. cbn.
  destruct (is_js_whitespace u) eqn:Hu.
  - exists (u :: w). split; [by rewrite Hw at 1|done].
  - by exists [].
Qed.

Lemma trim_idempotent s : trim (trim s) = trim s.
Proof.
  unfold trim. set (x := trim_start s). set (r := trim_start (rev x)).
  assert (Hy : trim_start (rev r) = rev r).
  { destruct (trim_start_suffix (rev x)) as (w & Hw & _). fold r in Hw.
    assert (Hx : x = rev r ++ rev w).
    { rewrite <- (rev_involutive x), Hw, rev_app_distr. done. }
    destruct (rev r) as [|a y'] eqn:Hr; [done|].
    destruct (trim_start_suffix s) as (_ & _ & Hh). fold x in Hh.
    rewrite Hx in Hh. cbn in Hh. cbn. by rewrite Hh. }
  rewrite Hy, rev_involutive. subst r. by rewrite trim_start_idempotent.
Qed.

Lemma trim_start_sublist s : sublist (trim_start s) s.
Proof.
  induction s as [|u s IH]; [done|]. cbn.
  destruct (is_js_whitespace u); [by apply sublist_cons | done].
Qed.

Lemma sublist_rev {A} (l k : list A) : sublist l k -> sublist (rev l) (rev k).
Proof.
  induction 1 as [|x l k _ IH|x l k _ IH]; cbn; [done| |].
  - by apply sublist_app.
  - by apply sublist_inserts_r.
Qed.

Lemma elem_of_rev {A} (x : A) (l : list A) : x ∈ rev l <-> x ∈ l.
Proof. rewrite !list_elem_of_In. symmetry. apply in_rev. Qed.

Lemma trim_sublist s : sublist (trim s) s.
Proof.
  unfold trim. transitivity (trim_start s); [|apply trim_start_sublist].
  rewrite <- (rev_involutive (trim_start s)) at 2.
  apply sublist_rev, trim_start_sublist.
Qed.

Lemma split_on_length sep cur s :
  length (split_on sep cur s) = S (count_occ N.eq_dec s sep).
Proof.
  revert cur. induction s as [|u s IH]; intros cur; [done|]. cbn [split_on count_occ].
  destruct (N.eqb_spec u sep) as [->|Hne].
  - destruct (N.eq_dec sep sep); [|done]. cbn. by rewrite IH.
  - destruct (N.eq_dec u sep); [done|]. apply IH.
Qed.

Lemma split_on_entries sep cur s :
  sep ∉ cur -> Forall (fun x => sep ∉ x) (split_on sep cur s).
Proof.
  revert cur. induction s as [|u s IH]; intros cur Hc; cbn [split_on].
  - constructor; [|done]. by rewrite elem_of_rev.
  - destruct (N.eqb_spec u sep) as [->|Hne].
    + constructor; [by rewrite elem_of_rev|].
      apply IH. apply not_elem_of_nil.
    + apply IH. by apply not_elem_of_cons.
Qed.

(** X11.  [splitCsv] gives the fallback for a value that is unset, empty or all
    white space.  For any other value it gives one entry for every comma and
    one more, empty entries included; every entry is trimmed and holds no
    comma; and the list is empty only if the fallback was taken and is
    empty. *)
Theorem splitCsv_entries (v : option jsstring) (fallback : list jsstring) :
  (match v with Some s => trim s = [] | None => True end ->
   splitCsv v fallback = fallback)
  ∧ (forall s, v = Some s -> trim s ≠ [] ->
       length (splitCsv v fallback) = S (count_occ N.eq_dec s (chr ","))
       ∧ Forall (fun x => trim x = x ∧ chr "," ∉ x) (splitCsv v fallback))
  ∧ (splitCsv v fallback = [] -> fallback = []).
Proof.
  assert (Hset : forall s, trim s ≠ [] -> splitCsv (Some s) fallback = trim <$> split_comma s).
  { intros s Hs. unfold splitCsv. destruct s as [|u s]; [done|]. cbn [truthy andb].
    destruct (trim (u :: s)); [done|]. done. }
  split; [|split].
  - destruct v as [s|]; [|done]. intros Hs. unfold splitCsv. rewrite Hs.
    by rewrite andb_false_r.
  - intros s -> Hs. rewrite (Hset s Hs). split.
    + rewrite length_fmap. apply split_on_length.
    + apply Forall_fmap. unfold split_comma.
      eapply Forall_impl; [apply split_on_entries, not_elem_of_nil|].
      intros x Hx. cbn. split; [apply trim_idempotent|].
      intros Hin. apply Hx. eapply elem_of_sublist; [apply Hin|]. apply trim_sublist.
  - destruct v as [s|]; [|done].
    destruct (decide (trim s = [])) as [He|Hne].
    + unfold splitCsv. rewrite He. by rewrite andb_false_r.
    + rewrite (Hset s Hne). unfold split_comma. intros Hnil.
      apply (f_equal length) in Hnil. rewrite length_fmap, split_on_length in Hnil. done.
Qed.

(** *** The properties at the examples *)

Lemma defaults_applied_witness :
  app_port (proj1_sig valid_config) = Finite 4000
  ∧ app_corsOrigins (proj1_sig valid_config) = [js "http://localhost:5173"]
  ∧ openai_model (proj1_sig valid_config) = js "gpt-4o".
Proof.
  destruct (defaults_applied (H := zod) _ _ _ (proj2_sig valid_config))
    as (Hp & _ & _ & Hc & _ & _ & _ & _ & Hm).
  split; [|split]; [apply Hp | apply Hc | apply Hm]; vm_compute; reflexivity.
Defined.

Lemma port_and_retention_ranges_witness :
  exists (q : Q) (port : Z),
    app_port (proj1_sig valid_config) = Finite q ∧ Qeq q (inject_Z port) ∧ 1 <= port <= 65535.
Proof.
  exact (proj1 (port_and_retention_ranges (H := zod) _ _ _ (proj2_sig valid_config))).
Defined.

Lemma validated_key_is_usable_witness :
  getKey valid_environment = Ok (N.of_nat <$> seq 0 32, js "k1").
Proof.
  exact (proj1 (validated_key_is_usable (H := zod) (H0 := node) _ _ _
                  (proj2_sig valid_config))).
Defined.

Lemma oidc_audience_rule_witness :
  pubsub_audience (proj1_sig valid_config) = js "http://localhost:4000/api/pubsub/push".
Proof.
  destruct (oidc_audience_rule (H := zod) _ _ _ (proj2_sig valid_config))
    as (_ & _ & _ & Hunset).
  apply Hunset; vm_compute; reflexivity.
Defined.

Lemma verification_token_only_in_development_witness :
  verificationToken (pubsub_oidc (proj1_sig development_config)) = Some (js "s3cret")
  ∧ verificationToken (pubsub_oidc (proj1_sig valid_config)) = None.
Proof.
  split.
  - apply (proj1 (verification_token_only_in_development (H := zod) _ _ _
                    (proj2_sig development_config))).
    vm_compute; reflexivity.
  - apply (proj2 (verification_token_only_in_development (H := zod) _ _ _
                    (proj2_sig valid_config))).
    left. vm_compute; reflexivity.
Defined.

Lemma classifier_requires_api_key_witness :
  validate (mode_of two_requirements_missing) two_requirements_missing
  = Thrown (Error "OPENAI_API_KEY is required when FEATURE_ENABLE_CLASSIFIER=true").
Proof.
  apply (proj1 (classifier_requires_api_key (H := zod) _ _ _ (proj2_sig requirements_parsed))).
  split; vm_compute; reflexivity.
Defined.

Lemma push_requires_credentials_in_development_witness :
  truthy (google_adcPath (proj1_sig development_config)) = true.
Proof.
  destruct (push_requires_credentials_in_development (H := zod)
              (mode_of development_environment) _ _ (proj2_sig development_parsed))
    as (_ & Hstarted & _).
  apply Hstarted; [exact (proj2_sig development_config) | |]; vm_compute; reflexivity.
Defined.

Lemma sms_default_recipient_rule_witness :
  boolFromEnv (sms_recipient_environment !! "ALLOW_DEFAULT_SMS_TO_IN_PROD") false = true.
Proof.
  destruct (sms_default_recipient_rule (H := zod) _ _ _ (proj2_sig sms_recipient_config)
              ltac:(vm_compute; reflexivity)) as (Hprod & _).
  apply Hprod; vm_compute; reflexivity.
Defined.

Lemma required_variables_enforced_witness :
  exists issues,
    validate (mode_of two_fields_invalid) two_fields_invalid = ValidationFailed issues
    ∧ In (mk_issue "DATABASE_URL" required) issues.
Proof.
  apply (required_variables_enforced (H := zod)).
  - left. reflexivity.
  - vm_compute. reflexivity.
Defined.

Lemma env_files_precedence_witness :
  let loaded :=
    load_env_files (mode_of development_environment) development_environment
      (Some example_env_local) (Some example_env_file) in
  loaded !! "PORT" = Some (js "4100")
  ∧ loaded !! "OPENAI_MODEL" = Some (js "gpt-4o-mini")
  ∧ loaded !! "PUBSUB_TOPIC" = Some (js "gmail")
  ∧ load_env_files (mode_of valid_environment) valid_environment
      (Some example_env_local) (Some example_env_file) = valid_environment.
Proof.
  destruct (env_files_precedence (H := zod) development_environment
              (Some example_env_local) (Some example_env_file)) as (_ & Hdev & _).
  destruct (env_files_precedence (H := zod) valid_environment
              (Some example_env_local) (Some example_env_file)) as (Hprod & _).
  cbv zeta. rewrite !Hdev by (vm_compute; reflexivity).
  split; [|split; [|split]]; [vm_compute; reflexivity ..|].
  apply Hprod. vm_compute; reflexivity.
Defined.

Lemma splitCsv_entries_witness :
  length (splitCsv (Some (js "https://a.example, https://b.example,")) []) = 3%nat.
Proof.
  destruct (splitCsv_entries (Some (js "https://a.example, https://b.example,")) [])
    as (_ & Hset & _).
  destruct (Hset _ eq_refl) as (Hlen & _).
  - vm_compute. discriminate.
  - rewrite Hlen. vm_compute. reflexivity.
Defined.


(** * Part 4, more proofs: comparison, envelopes, authentication *)

(** The reference AES-256-GCM authenticates. *)
Lemma node_authentic : NodeAuthentic node.
Proof.
  constructor.
  - intros key nonce tg ct pt. cbn [gcm_decrypt gcm_encrypt node].
    unfold aes_256_gcm_decrypt, aes_256_gcm_encrypt.
    destruct (_ || _ || _); [done|]. case_bool_decide as Htag; [|done].
    intros [= <-].
    assert (Hlen : length (xor_bytes ct (gcm_stream key nonce (length ct))) = length ct).
    { unfold xor_bytes. rewrite length_zip_with, gcm_stream_length. lia. }
    rewrite Hlen, xor_bytes_involutive by (by rewrite gcm_stream_length).
    by rewrite Htag.
  - intros key nonce tag1 tag2 ct pt1 pt2. cbn [gcm_decrypt node].
    unfold aes_256_gcm_decrypt.
    destruct (_ || _ || negb (length tag1 =? _)%nat); [intros [=]|].
    destruct (_ || _ || negb (length tag2 =? _)%nat); [intros _ [=]|].
    case_bool_decide as H1; [|intros [=]].
    case_bool_decide as H2; [|intros _ [=]].
    intros _ _. by rewrite <- H1, <- H2.
Qed.

Section Comparison.

Lemma utf8_encode_injective a b :
  isWellFormed a = true -> isWellFormed b = true ->
  utf8_encode a = utf8_encode b -> a = b.
Proof.
  intros Ha Hb Heq. apply (f_equal utf8_decode) in Heq.
  by rewrite !utf8_decode_encode in Heq.
Qed.

(** In UTF-8 a string that ends in a high surrogate has lost it: the bytes
    do not depend on which high surrogate it was. *)
Lemma utf8_encode_trailing_high x u v :
  is_high_surrogate u = true -> is_high_surrogate v = true ->
  utf8_encode (x ++ [u]) = utf8_encode (x ++ [v]).
Proof.
  intros Hu Hv.
  assert (Hnl : forall w, is_high_surrogate w = true -> is_low_surrogate w = false).
  { intros w. unfold is_high_surrogate, is_low_surrogate. lia. }
  revert x.
  apply (code_point_ind (fun x => utf8_encode (x ++ [u]) = utf8_encode (x ++ [v])));
    [|intros c s Hc IH|intros h l s Hh Hl IH].
  - cbn. by rewrite Hu, Hv.
  - cbn [app utf8_encode]. destruct (is_high_surrogate c) eqn:Hch.
    + specialize (Hc eq_refl). destruct s as [|l s'].
      * cbn [app]. rewrite (Hnl u Hu), (Hnl v Hv). f_equal. exact IH.
      * cbn [app]. rewrite Hc. f_equal. exact IH.
    + by rewrite IH.
  - cbn [app utf8_encode]. rewrite Hh, Hl. by rewrite IH.
Qed.

(** X12.  [constantTimeEqual] never throws, the guard on the lengths being the
    precondition of [timingSafeEqual]; it compares the UTF-8 encodings.  On
    strings without unpaired surrogates it holds exactly for equal strings;
    two strings that differ in an unpaired surrogate at their end only are
    reported equal. *)
Theorem constantTimeEqual_by_utf8 (a b : jsstring) :
  constantTimeEqual a b = Some (bool_decide (utf8_encode a = utf8_encode b))
  ∧ (isWellFormed a = true -> isWellFormed b = true ->
     (constantTimeEqual a b = Some true <-> a = b))
  ∧ (forall x u v, is_high_surrogate u = true -> is_high_surrogate v = true ->
       constantTimeEqual (x ++ [u]) (x ++ [v]) = Some true).
Proof.
  assert (Hspec : forall a b,
             constantTimeEqual a b = Some (bool_decide (utf8_encode a = utf8_encode b))).
  { intros x y. unfold constantTimeEqual, timingSafeEqual.
    destruct (Nat.eqb_spec (length (utf8_encode x)) (length (utf8_encode y))) as [Hl|Hl];
      cbn [negb]; [done|].
    f_equal. symmetry. apply bool_decide_eq_false. congruence. }
  split; [apply Hspec|]. split.
  - intros Ha Hb. rewrite Hspec. split.
    + intros [= Heq%bool_decide_eq_true]. by apply utf8_encode_injective.
    + intros ->. f_equal. by apply bool_decide_eq_true.
  - intros x u v Hu Hv. rewrite Hspec. f_equal. apply bool_decide_eq_true.
    by apply utf8_encode_trailing_high.
Qed.
End Comparison.

Lemma constantTimeEqual_by_utf8_witness :
  constantTimeEqual (js "s3cret") (js "s3cret") = Some true
  ∧ constantTimeEqual (js "s3cret") (js "s3cr3t") ≠ Some true
  ∧ constantTimeEqual [0xD800%N] [0xDBFF%N] = Some true.
Proof.
  destruct (constantTimeEqual_by_utf8 (js "s3cret") (js "s3cret")) as (_ & Hsame & _).
  destruct (constantTimeEqual_by_utf8 (js "s3cret") (js "s3cr3t")) as (_ & Hother & Hlone).
  split; [|split].
  - apply Hsame; reflexivity.
  - intros Heq. apply Hother in Heq; [discriminate Heq | reflexivity | reflexivity].
  - apply (Hlone [] 0xD800%N 0xDBFF%N); reflexivity.
Defined.

Section Envelopes.
Context `{Node}.

(** The envelope of a sealed payload opens to the payload. *)
Lemma parse_sealed_envelope key key_id nonce p :
  is_jsstring key_id ->
  let payload := seal key key_id nonce p in
  JSON_parse (utf8_decode (base64_decode (envelope payload))) = Some (json_of_payload payload).
Proof.
  intros Hd payload.
  destruct (seal_fields_plain key key_id nonce p) as (Hi & Hc & Ht).
  apply plain_is_jsstring in Hi, Hc, Ht.
  pose proof (payload_text_well_formed payload Hd Hi Hc Ht) as Hwf.
  unfold envelope.
  rewrite base64_decode_encode by (by apply utf8_encode_is_bytes, isWellFormed_is_jsstring).
  rewrite utf8_decode_encode by done.
  by rewrite JSON_parse_payload.
Qed.

(** X13.  What [encryptToB64] returns is base64 text, a multiple of four
    characters long, of a JSON object with the four members [keyId], [iv],
    [ciphertext] and [tag], in this order: the key identifier of the
    environment, the 12 bytes drawn from the random source, as many bytes of
    ciphertext as the plaintext has in UTF-8, and a tag of 16 bytes. *)
Theorem sealed_envelope_structure (e : environment) (g g' : entropy) (p s : jsstring) :
  NodeContract H -> js_environment e -> is_jsstring p ->
  encryptToB64 e g p = (Ok s, g') ->
  exists key key_id,
    getKey e = Ok (key, key_id)
    ∧ g' = (randomBytes IV_LENGTH g).2
    ∧ let payload := seal key key_id (randomBytes IV_LENGTH g).1 p in
      JSON_parse (utf8_decode (base64_decode s)) = Some (json_of_payload payload)
      ∧ keyId payload = key_id
      ∧ base64_decode (iv payload) = (randomBytes IV_LENGTH g).1
      ∧ length (base64_decode (iv payload)) = 12%nat
      ∧ length (base64_decode (tag payload)) = 16%nat
      ∧ length (base64_decode (ciphertext payload)) = byteLength p
      ∧ is_plain s ∧ (length s mod 4 = 0)%nat.
Proof.
  intros [Hrl Hrb Hel Heb _] He Hp Henc.
  apply encryptToB64_ok in Henc as (key & key_id & Hk & _ & -> & ->).
  exists key, key_id. split; [done|]. split; [done|]. intros payload.
  pose proof (getKey_key_id_is_jsstring _ _ _ He Hk) as Hd.
  apply getKey_ok in Hk as (_ & Hkb & _).
  set (nonce := (randomBytes IV_LENGTH g).1) in *.
  assert (Hnb : is_bytes nonce) by apply Hrb.
  assert (Hpb : is_bytes (utf8_encode p)) by by apply utf8_encode_is_bytes.
  destruct (Heb key nonce (utf8_encode p) Hkb Hnb Hpb) as (Hcb & Htb).
  destruct (Hel key nonce (utf8_encode p)) as (Hcl & Htl).
  split; [by apply parse_sealed_envelope|]. split; [done|].
  subst payload. unfold seal. cbn [iv tag ciphertext].
  rewrite !base64_decode_encode by done.
  split; [done|]. split; [apply Hrl|]. split; [done|]. split; [done|].
  split; [apply base64_encode_plain|].
  unfold envelope. rewrite base64_encode_length. lia.
Qed.

(** The size of the JSON text of a sealed payload, for a key identifier
    that needs no escape. *)
Lemma sealed_text_bytes key key_id g p :
  NodeContract H -> is_plain key_id ->
  byteLength (stringify (json_of_payload (seal key key_id (randomBytes IV_LENGTH g).1 p)))
  = (85 + length key_id + 4 * ((byteLength p + 2) / 3))%nat.
Proof.
  intros [Hrl _ Hel _ _] Hid.
  set (nonce := (randomBytes IV_LENGTH g).1).
  destruct (seal_fields_plain key key_id nonce p) as (Hi & Hc & Ht).
  destruct (payload_text_plain (seal key key_id nonce p) Hid Hi Hc Ht) as (Hu & Hl).
  unfold byteLength at 1. rewrite Hu, Hl. unfold seal. cbn [keyId iv ciphertext tag].
  rewrite !base64_encode_length.
  destruct (Hel key nonce (utf8_encode p)) as (-> & ->).
  subst nonce. rewrite Hrl. unfold IV_LENGTH, AUTH_TAG_LENGTH, byteLength.
  change ((12 + 2) / 3)%nat with 4%nat. change ((16 + 2) / 3)%nat with 6%nat. lia.
Qed.

(** X14.  How much fits: with a key identifier of [k] characters that need no
    escape, a plaintext of [n] bytes in UTF-8 is sealed exactly when
    [85 + k + 4 * ceil(n / 3)] is at most 16384; with the identifier
    ['default'] that is up to 12219 bytes, and everything longer is
    refused. *)
Theorem sealing_capacity (e : environment) (g : entropy) (p : jsstring)
    (key : bytes) (key_id : jsstring) :
  NodeContract H ->
  getKey e = Ok (key, key_id) -> is_plain key_id ->
  (is_ok (encryptToB64 e g p).1 = true
   <-> Z.of_nat (85 + length key_id + 4 * ((byteLength p + 2) / 3)) <= 16384)
  ∧ (is_ok (encryptToB64 e g p).1 = false ->
     (encryptToB64 e g p).1 = Err (JsError "Encrypted payload exceeds 16KB"))
  ∧ (key_id = js "default" ->
     (is_ok (encryptToB64 e g p).1 = true <-> Z.of_nat (byteLength p) <= 12219)).
Proof.
  intros Hn Hk Hid.
  pose proof (sealed_text_bytes key key_id g p Hn Hid) as Hsize.
  assert (Henc : (encryptToB64 e g p).1
                 = if (16 * 1024 <? 85 + length key_id + 4 * ((byteLength p + 2) / 3))%nat
                   then Err (JsError "Encrypted payload exceeds 16KB")
                   else Ok (envelope (seal key key_id (randomBytes IV_LENGTH g).1 p))).
  { unfold encryptToB64. rewrite Hk.
    destruct (randomBytes IV_LENGTH g) as [nonce g1] eqn:Hr. cbn [fst] in Hsize.
    rewrite Hsize. by destruct (_ <? _)%nat. }
  rewrite Henc.
  split; [|split].
  - destruct (Nat.ltb_spec (16 * 1024) (85 + length key_id + 4 * ((byteLength p + 2) / 3)));
      cbn [is_ok]; split; try done; lia.
  - by destruct (_ <? _)%nat.
  - intros ->. cbn [length js].
    destruct (Nat.ltb_spec (16 * 1024) (85 + 7 + 4 * ((byteLength p + 2) / 3)));
      cbn [is_ok]; split; try done; lia.
Qed.
End Envelopes.

Section Authenticity.
Context `{Node}.

Lemma bind_ok {E A B} (r : Result E A) (k : A -> Result E B) y :
  bind r k = Ok y -> exists a, r = Ok a ∧ k a = Ok y.
Proof. destruct r as [a|]; [|done]. intros Hk. by exists a. Qed.

(** X15.  [decryptFromB64] returns a plaintext only for what encryption gives:
    the [ciphertext] and the [tag] of the envelope are the ones that
    AES-256-GCM produces for the bytes of that plaintext under the key of
    the environment and the [iv] of the envelope. *)
Theorem decrypt_accepts_only_sealed (e : environment) (b p : jsstring) :
  NodeAuthentic H ->
  decryptFromB64 e b = Ok p ->
  exists key key_id v nonce tg ct pt,
    getKey e = Ok (key, key_id)
    ∧ JSON_parse (utf8_decode (base64_decode b)) = Some v
    ∧ (x <-- get_property v (js "iv") ;; Buffer_from_base64 x) = Ok nonce
    ∧ (x <-- get_property v (js "tag") ;; Buffer_from_base64 x) = Ok tg
    ∧ (x <-- get_property v (js "ciphertext") ;; Buffer_from_base64 x) = Ok ct
    ∧ gcm_encrypt key nonce pt = (ct, tg)
    ∧ p = utf8_decode pt.
Proof.
  intros [Hauth _]. unfold decryptFromB64.
  intros ([key key_id] & Hk & Hd)%bind_ok.
  destruct (JSON_parse _) as [v|]; [|done]. cbn [bind] in Hd.
  apply bind_ok in Hd as (iv_field & Hivf & Hd).
  apply bind_ok in Hd as (nonce & Hnonce & Hd).
  apply bind_ok in Hd as (tag_field & Htagf & Hd).
  apply bind_ok in Hd as (tg & Htg & Hd).
  apply bind_ok in Hd as (ct_field & Hctf & Hd).
  apply bind_ok in Hd as (ct & Hct & Hd).
  cbn [fst] in Hd.
  destruct (gcm_decrypt key nonce tg ct) as [pt|] eqn:Hdec; [|done].
  injection Hd as <-.
  exists key, key_id, v, nonce, tg, ct, pt.
  rewrite Hivf, Htagf, Hctf. cbn [bind].
  repeat split; try done. by apply Hauth.
Qed.

(** X16.  A sealed envelope whose tag has been replaced by anything that decodes
    to other bytes is refused with the error of the cipher; no plaintext is
    returned. *)
Theorem tampered_tag_is_rejected (e : environment) (g g' : entropy) (p s t : jsstring) :
  NodeContract H -> NodeAuthentic H ->
  js_environment e -> is_jsstring p -> is_jsstring t ->
  encryptToB64 e g p = (Ok s, g') ->
  exists key key_id,
    getKey e = Ok (key, key_id)
    ∧ let payload := seal key key_id (randomBytes IV_LENGTH g).1 p in
      s = envelope payload
      ∧ (base64_decode t ≠ base64_decode (tag payload) ->
         decryptFromB64 e (envelope (with_tag payload t)) = Err CipherError).
Proof.
  intros [Hrl Hrb Hel Heb Hround] [_ Huniq] He Hp Ht Henc.
  apply encryptToB64_ok in Henc as (key & key_id & Hk & _ & -> & ->).
  set (nonce := (randomBytes IV_LENGTH g).1).
  exists key, key_id. split; [done|]. split; [done|]. intros Hne.
  pose proof (getKey_key_id_is_jsstring _ _ _ He Hk) as Hd.
  destruct (getKey_ok _ _ _ Hk) as (Hkl & Hkb & _).
  assert (Hnb : is_bytes nonce) by apply Hrb.
  assert (Hnl : length nonce = IV_LENGTH) by apply Hrl.
  assert (Hpb : is_bytes (utf8_encode p)) by by apply utf8_encode_is_bytes.
  destruct (Heb key nonce (utf8_encode p) Hkb Hnb Hpb) as (Hcb & Htb).
  destruct (seal_fields_plain key key_id nonce p) as (Hi & Hc & _).
  apply plain_is_jsstring in Hi, Hc.
  rewrite open_envelope by done. rewrite Hk. cbn [bind fst].
  unfold with_tag, seal in *. cbn [keyId iv ciphertext tag] in *.
  rewrite !base64_decode_encode in * by done.
  destruct (gcm_decrypt key nonce (base64_decode t) _) as [pt|] eqn:Hdec; [|done].
  exfalso. apply Hne.
  exact (Huniq _ _ _ _ _ _ _ Hdec (Hround key nonce (utf8_encode p) Hkb Hnb Hpb Hkl Hnl)).
Qed.
End Authenticity.

(** *** The properties at the examples *)

Lemma sealed_envelope_structure_witness :
  exists s v,
    (encryptToB64 example_environment example_entropy (js "hello")).1 = Ok s
    ∧ JSON_parse (utf8_decode (base64_decode s)) = Some v
    ∧ is_plain s.
Proof.
  destruct (encryptToB64 example_environment example_entropy (js "hello"))
    as [[s|err] g'] eqn:Henc.
  - destruct (sealed_envelope_structure example_environment example_entropy g'
                (js "hello") s node_contract example_environment_is_js
                (js_is_jsstring "hello") Henc)
      as (key & key_id & _ & _ & Hparse & _ & _ & _ & _ & _ & Hplain & _).
    exists s. eexists. split; [reflexivity|]. split; [exact Hparse | exact Hplain].
  - exfalso. vm_compute in Henc. discriminate.
Defined.

Lemma sealing_capacity_witness :
  is_ok (encryptToB64 environment_without_key_id example_entropy (js "hello")).1 = true.
Proof.
  destruct (sealing_capacity environment_without_key_id example_entropy (js "hello")
              _ _ node_contract (proj2 example_getKey) ltac:(by repeat constructor))
    as (_ & _ & Hdefault).
  apply Hdefault; [reflexivity | vm_compute; discriminate].
Defined.

Lemma decrypt_accepts_only_sealed_witness :
  exists key nonce pt ct tg,
    gcm_encrypt key nonce pt = (ct, tg) ∧ js "hello" = utf8_decode pt.
Proof.
  destruct (decrypt_accepts_only_sealed example_environment (envelope example_payload)
              (js "hello") node_authentic ltac:(vm_compute; reflexivity))
    as (key & key_id & v & nonce & tg & ct & pt & _ & _ & _ & _ & _ & Henc & Hp).
  exists key, nonce, pt, ct, tg. split; assumption.
Defined.

Lemma tampered_tag_is_rejected_witness :
  exists payload,
    (encryptToB64 example_environment example_entropy (js "hello")).1 = Ok (envelope payload)
    ∧ decryptFromB64 example_environment
        (envelope (with_tag payload (js "AAAAAAAAAAAAAAAAAAAAAA==")))
      = Err CipherError.
Proof.
  destruct (encryptToB64 example_environment example_entropy (js "hello"))
    as [[s|err] g'] eqn:Henc.
  - destruct (tampered_tag_is_rejected example_environment example_entropy g'
                (js "hello") s (js "AAAAAAAAAAAAAAAAAAAAAA==")
                node_contract node_authentic example_environment_is_js
                (js_is_jsstring "hello") (js_is_jsstring _) Henc)
      as (key & key_id & Hk & -> & Hrej).
    rewrite (proj1 example_getKey) in Hk. injection Hk as <- <-.
    eexists. split; [reflexivity|]. apply Hrej.
    vm_compute. discriminate.
  - exfalso. vm_compute in Henc. discriminate.
Defined.


(** * Part 1, more proofs: access to own rows, malformed settings *)

Section OwnRows.
Context `{PgCast}.




End OwnRows.






(** * Part 6, proofs: deleting a tenant, a user, a mailbox *)

Section Cascades.

Lemma comes_from_refl r : comes_from r r.
Proof. by repeat split. Qed.

Lemma comes_from_trans r1 r2 r3 : comes_from r1 r2 -> comes_from r2 r3 -> comes_from r1 r3.
Proof.
  intros (Hi & Ht & Hr) (Hi' & Ht' & Hr'). repeat split; [congruence | congruence |].
  intros c u Hc. by apply Hr', Hr.
Qed.

Lemma comes_from_owner t r' r : comes_from r' r -> owner t r' = owner t r.
Proof. intros (Hi & Ht & _). destruct t; cbn; congruence. Qed.

Lemma shrinks_refl db : shrinks db db.
Proof. intros t r Hr. exists r. split; [done | apply comes_from_refl]. Qed.

Lemma shrinks_trans db1 db2 db3 : shrinks db1 db2 -> shrinks db2 db3 -> shrinks db1 db3.
Proof.
  intros H12 H23 t r1 Hr1. destruct (H12 t r1 Hr1) as (r2 & Hr2 & Hc12).
  destruct (H23 t r2 Hr2) as (r3 & Hr3 & Hc23).
  exists r3. split; [done | by eapply comes_from_trans].
Qed.

Lemma fold_left_cons {A B} (f : A -> B -> A) (x : B) (l : list B) (a : A) :
  fold_left f (x :: l) a = fold_left f l (f a x).
Proof. reflexivity. Qed.

Lemma change_table_same db t f : change_table db t f t = f (db t).
Proof. unfold change_table. by rewrite decide_True. Qed.

Lemma change_table_other db t f t' : t' ≠ t -> change_table db t f t' = db t'.
Proof. intros Hne. unfold change_table. by rewrite decide_False. Qed.

Lemma shrinks_filter db t (P : entity -> Prop) `{!forall r, Decision (P r)} :
  shrinks (change_table db t (filter P)) db.
Proof.
  intros t' r Hr. exists r. split; [|apply comes_from_refl].
  unfold change_table in Hr. case_decide; [|done].
  by apply list_elem_of_filter in Hr as [_ Hr].
Qed.

Lemma set_null_comes_from c r : c ≠ ref_tenant_id -> comes_from (set_null c r) r.
Proof.
  intros Hc. destruct c; [done| |]; (split; [done|]; split; [done|]);
    intros [] u; cbn; congruence.
Qed.

Lemma shrinks_set_null db t c (hit : entity -> bool) :
  c ≠ ref_tenant_id ->
  shrinks (change_table db t (fmap (fun r => if hit r then set_null c r else r))) db.
Proof.
  intros Hc t' r' Hr'. unfold change_table in Hr'. case_decide as Ht.
  - apply list_elem_of_fmap in Hr' as (r & -> & Hr). exists r. split; [done|].
    destruct (hit r); [by apply set_null_comes_from | apply comes_from_refl].
  - exists r'. split; [done | apply comes_from_refl].
Qed.

(** No key of the migration sets a tenant reference to NULL. *)
Lemma set_null_keys :
  Forall (fun fk => fk_on_delete fk = SetNull -> fk_column fk ≠ ref_tenant_id) foreign_keys.
Proof. repeat constructor; cbn; congruence. Qed.

(** Deleting never adds a row, never changes a key or a tenant, and never
    adds a reference. *)
Lemma action_shrinks delete t ids acc fk :
  (forall t' ids' db, shrinks (delete t' ids' db) db) ->
  (fk_on_delete fk = SetNull -> fk_column fk ≠ ref_tenant_id) ->
  shrinks (referential_action delete t ids acc fk) acc.
Proof.
  intros Hdel Hfk. unfold referential_action. case_decide; [|apply shrinks_refl].
  destruct (fk_on_delete fk); [apply Hdel | by apply shrinks_set_null, Hfk].
Qed.

Lemma actions_shrink delete t ids fks acc :
  (forall t' ids' db, shrinks (delete t' ids' db) db) ->
  Forall (fun fk => fk_on_delete fk = SetNull -> fk_column fk ≠ ref_tenant_id) fks ->
  shrinks (fold_left (referential_action delete t ids) fks acc) acc.
Proof.
  intros Hdel. revert acc. induction fks as [|fk fks IH]; intros acc Hkeys;
    [apply shrinks_refl|].
  apply Forall_cons in Hkeys as [Hfk Hkeys]. cbn [fold_left].
  eapply shrinks_trans; [by apply IH | by apply action_shrinks].
Qed.

Lemma delete_rows_S depth t ids db :
  delete_rows (S depth) t ids db
  = fold_left (referential_action (delete_rows depth) t ids) foreign_keys
      (change_table db t (filter (fun r => e_id r ∉ ids))).
Proof. reflexivity. Qed.

Lemma delete_rows_shrinks depth t ids db : shrinks (delete_rows depth t ids db) db.
Proof.
  revert t ids db. induction depth as [|depth IH]; intros t ids db; [apply shrinks_refl|].
  rewrite delete_rows_S.
  eapply shrinks_trans; [apply actions_shrink; [apply IH | apply set_null_keys]|].
  apply shrinks_filter.
Qed.

(** The rows that were to be deleted are gone. *)
Lemma delete_rows_removes depth t ids db r :
  r ∈ delete_rows (S depth) t ids db t -> e_id r ∉ ids.
Proof.
  rewrite delete_rows_S. intros Hr.
  destruct (actions_shrink (delete_rows depth) t ids foreign_keys _
              (delete_rows_shrinks depth) set_null_keys _ _ Hr) as (r0 & Hr0 & Hi & _).
  rewrite change_table_same in Hr0. apply list_elem_of_filter in Hr0 as [Hne _].
  by rewrite Hi.
Qed.

(** Every table but [tenants] has a key that cascades from [tenants]. *)
Lemma tenant_key (c : table_name) :
  c ≠ tenants ->
  exists l1 l2, foreign_keys = l1 ++ mk_fk c ref_tenant_id tenants Cascade :: l2.
Proof.
  intros Hc. unfold foreign_keys.
  destruct c; [done|..];
    first [ by eexists [], _
          | by eexists [_], _
          | by eexists [_; _], _
          | by eexists [_; _; _], _
          | by eexists [_; _; _; _], _
          | by eexists [_; _; _; _; _], _
          | by eexists [_; _; _; _; _; _], _
          | by eexists [_; _; _; _; _; _; _], _
          | by eexists [_; _; _; _; _; _; _; _], _
          | by eexists [_; _; _; _; _; _; _; _; _], _
          | by eexists [_; _; _; _; _; _; _; _; _; _], _
          | by eexists [_; _; _; _; _; _; _; _; _; _; _], _
          | by eexists [_; _; _; _; _; _; _; _; _; _; _; _], _ ].
Qed.

Lemma owner_tenant_id c r : c ≠ tenants -> owner c r = e_tenant_id r.
Proof. by destruct c. Qed.

Lemma referential_action_cascade delete t ids acc c col :
  referential_action delete t ids acc (mk_fk c col t Cascade)
  = delete c (e_id <$> filter (fun r => refers_to (mk_fk c col t Cascade) ids r = true)
                         (acc c)) acc.
Proof. unfold referential_action. cbn. by rewrite decide_True. Qed.

(** X21.  Deleting a tenant removes every row that belongs to it: afterwards no
    table holds a row of that tenant, whatever the database held before. *)
Theorem tenant_delete_purges (tenant : uuid) (db : database) (t : table_name) (r : entity) :
  r ∈ delete_from tenants [tenant] db t -> owner t r ≠ Some tenant.
Proof.
  unfold delete_from. change (length rls_enabled_tables) with (S (S 7)).
  generalize 7%nat. intros depth.
  destruct (decide (t = tenants)) as [->|Ht].
  - intros Hr%delete_rows_removes. cbn. intros [= Heq]. apply Hr. rewrite Heq.
    apply list_elem_of_here.
  - rewrite delete_rows_S. intros Hr. rewrite owner_tenant_id by done.
    destruct (tenant_key t Ht) as (l1 & l2 & Hkeys).
    pose proof set_null_keys as Hok. rewrite Hkeys in Hr, Hok.
    apply Forall_app in Hok as [Hok1 Hok2]. apply Forall_cons in Hok2 as [_ Hok2].
    rewrite fold_left_app in Hr. rewrite (fold_left_cons _ _ l2) in Hr.
    destruct (actions_shrink _ _ _ _ _ (delete_rows_shrinks (S depth)) Hok2 _ _ Hr)
      as (r1 & Hr1 & _ & Ht1 & _).
    rewrite Ht1. clear Hr. rewrite referential_action_cascade in Hr1.
    pose proof (delete_rows_removes _ _ _ _ _ Hr1) as Hne.
    destruct (delete_rows_shrinks _ _ _ _ _ _ Hr1) as (r2 & Hr2 & Hi2 & Ht2 & _).
    rewrite Ht2. intros Hown. apply Hne.
    rewrite list_elem_of_fmap. exists r2. split; [done|].
    apply list_elem_of_filter. split; [|done].
    unfold refers_to. cbn [fk_column reference]. rewrite Hown.
    apply bool_decide_eq_true_2, list_elem_of_here.
Qed.

(** *** Deleting a tenant in a database whose references stay within a
    tenant *)

Lemma same_key (l : list entity) p r :
  NoDup (e_id <$> l) -> p ∈ l -> r ∈ l -> e_id p = e_id r -> p = r.
Proof.
  induction l as [|x l IH]; [by intros _ ?%elem_of_nil|].
  rewrite fmap_cons, NoDup_cons. intros [Hx Hl] Hp Hr Heq.
  apply elem_of_cons in Hp as [->|Hp], Hr as [->|Hr]; [done| | |by apply IH].
  - exfalso. apply Hx. rewrite Heq. by apply list_elem_of_fmap_2.
  - exfalso. apply Hx. rewrite <- Heq. by apply list_elem_of_fmap_2.
Qed.

Lemma filter_filter_absorb {A} (P Q : A -> Prop)
    `{!forall x, Decision (P x)} `{!forall x, Decision (Q x)} (l : list A) :
  (forall x, x ∈ l -> Q x -> P x) -> filter Q (filter P l) = filter Q l.
Proof.
  induction l as [|x l IH]; intros Hl; [done|].
  assert (Hl' : forall y, y ∈ l -> Q y -> P y) by (intros y Hy; apply Hl; by right).
  specialize (Hl x (list_elem_of_here _ _)).
  rewrite !filter_cons. destruct (decide (P x)), (decide (Q x));
    rewrite ?filter_cons, ?decide_True, ?decide_False, ?IH by done; tauto.
Qed.

Lemma filter_fmap_absorb {A} (Q : A -> Prop) `{!forall x, Decision (Q x)}
    (f : A -> A) (l : list A) :
  (forall x, x ∈ l -> (Q (f x) <-> Q x) ∧ (Q x -> f x = x)) ->
  filter Q (f <$> l) = filter Q l.
Proof.
  induction l as [|x l IH]; intros Hl; [done|].
  assert (Hl' : forall y, y ∈ l -> (Q (f y) <-> Q y) ∧ (Q y -> f y = y))
    by (intros y Hy; apply Hl; by right).
  destruct (Hl x (list_elem_of_here _ _)) as [Hq Hf].
  rewrite fmap_cons, !filter_cons, IH by done.
  destruct (decide (Q x)) as [Hx|Hx].
  - rewrite decide_True by tauto. by rewrite Hf.
  - rewrite decide_False by tauto. done.
Qed.

Lemma set_null_owner t c r : c ≠ ref_tenant_id -> owner t (set_null c r) = owner t r.
Proof. intros Hc. apply comes_from_owner. by apply set_null_comes_from. Qed.

Section SparesOthers.
Variables (tenant : uuid) (db : database).

(** The rows that a referential action reaches belong to the tenant, when
    the deleted rows do. *)
Lemma reached_rows_owned t ids acc fk r' :
  references_valid db -> references_within_tenant db ->
  shrinks acc db ->
  (forall p, p ∈ db t -> e_id p ∈ ids -> owner t p = Some tenant) ->
  fk ∈ foreign_keys -> fk_parent fk = t ->
  r' ∈ acc (fk_table fk) -> refers_to fk ids r' = true ->
  owner (fk_table fk) r' = Some tenant.
Proof.
  intros Hval Hwt Hacc Hids Hfk Hp Hr' Hhit.
  destruct (Hacc _ _ Hr') as (r & Hr & Hfrom).
  rewrite (comes_from_owner _ _ _ Hfrom).
  unfold refers_to in Hhit.
  destruct (reference (fk_column fk) r') as [u|] eqn:Href; [|done].
  apply bool_decide_eq_true in Hhit.
  destruct Hfrom as (_ & _ & Hrefs). apply Hrefs in Href.
  destruct (Hval fk r u Hfk Hr Href) as (p & Hpin & <-).
  rewrite <- (Hwt fk r p Hfk Hr Hpin Href). subst t. by apply Hids.
Qed.

Lemma delete_rows_spares :
  primary_keys db -> references_valid db -> references_within_tenant db ->
  forall depth t ids acc,
    shrinks acc db -> others_untouched tenant acc db ->
    (forall p, p ∈ db t -> e_id p ∈ ids -> owner t p = Some tenant) ->
    others_untouched tenant (delete_rows depth t ids acc) db.
Proof.
  intros Hpk Hval Hwt. induction depth as [|depth IH]; intros t ids acc Hacc Hun Hids;
    [done|].
  rewrite delete_rows_S.
  set (acc0 := change_table acc t (filter (fun r => e_id r ∉ ids))).
  assert (Hacc0 : shrinks acc0 db).
  { eapply shrinks_trans; [apply shrinks_filter | done]. }
  assert (Hun0 : others_untouched tenant acc0 db).
  { intros t'. rewrite <- Hun. subst acc0. unfold change_table. case_decide as Ht; [|done].
    subst t'. apply filter_filter_absorb. intros r' Hr' Hown Hin. apply Hown.
    destruct (Hacc _ _ Hr') as (r & Hr & Hfrom).
    rewrite (comes_from_owner _ _ _ Hfrom). apply Hids; [done|].
    destruct Hfrom as (<- & _). done. }
  clearbody acc0. clear acc Hacc Hun.
  assert (Hsub : forall fk, fk ∈ foreign_keys -> fk ∈ foreign_keys) by done.
  revert Hsub. generalize foreign_keys at 1 3. intros fks. revert acc0 Hacc0 Hun0.
  induction fks as [|fk fks IHfks]; intros acc Hacc Hun Hsub; [done|].
  rewrite fold_left_cons.
  assert (Hfk : fk ∈ foreign_keys) by (apply Hsub; by left).
  assert (Hnull : fk_on_delete fk = SetNull -> fk_column fk ≠ ref_tenant_id).
  { exact (proj1 (Forall_forall _ _) set_null_keys fk Hfk). }
  apply IHfks; [| |intros fk' Hfk'; apply Hsub; by right].
  - eapply shrinks_trans; [|exact Hacc].
    apply action_shrinks; [apply delete_rows_shrinks | done].
  - unfold referential_action. case_decide as Hp; [|done].
    pose proof (reached_rows_owned t ids acc fk) as Hreach.
    destruct (fk_on_delete fk).
    + apply IH; [done | done|].
      intros p Hpin Hpid.
      apply list_elem_of_fmap in Hpid as (r' & Hid & Hr').
      apply list_elem_of_filter in Hr' as [Hhit Hr'].
      destruct (Hacc _ _ Hr') as (r & Hr & Hfrom).
      assert (p = r) as ->.
      { apply (same_key (db (fk_table fk))); [apply Hpk | done | done |].
        destruct Hfrom as (<- & _). done. }
      rewrite <- (comes_from_owner _ _ _ Hfrom). by apply Hreach.
    + intros t'. rewrite <- Hun. unfold change_table. case_decide as Ht; [|done].
      subst t'. apply filter_fmap_absorb. intros r' Hr'.
      destruct (refers_to fk ids r') eqn:Hhit; [|done].
      rewrite set_null_owner by auto.
      split; [done|]. intros Hown. exfalso. apply Hown. by apply Hreach.
Qed.
End SparesOthers.

(** X22.  Deleting a tenant whose rows reference rows of the same tenant only
    removes exactly the rows of that tenant: every table is left with its
    other rows, unchanged and in their order, and the primary keys and the
    references of what is left still hold. *)
Theorem tenant_delete_spares_others (tenant : uuid) (db : database) :
  primary_keys db -> references_valid db -> references_within_tenant db ->
  (forall t,
     delete_from tenants [tenant] db t = filter (fun r => owner t r ≠ Some tenant) (db t))
  ∧ primary_keys (delete_from tenants [tenant] db)
  ∧ references_valid (delete_from tenants [tenant] db).
Proof.
  intros Hpk Hval Hwt.
  assert (Hchar : forall t, delete_from tenants [tenant] db t
                            = filter (fun r => owner t r ≠ Some tenant) (db t)).
  { intros t.
    rewrite <- (filter_all_id (fun r => owner t r ≠ Some tenant)
                  (delete_from tenants [tenant] db t))
      by (intros r; apply tenant_delete_purges).
    apply (delete_rows_spares tenant db Hpk Hval Hwt); [apply shrinks_refl | done |].
    intros p _ Hp. apply list_elem_of_singleton in Hp. cbn. by rewrite Hp. }
  split; [done|]. split.
  - intros t. rewrite Hchar.
    eapply sublist_NoDup; [apply Hpk | apply fmap_sublist, sublist_filter].
  - intros fk r u Hfk. rewrite !Hchar. intros [Hown Hr]%list_elem_of_filter Href.
    destruct (Hval fk r u Hfk Hr Href) as (p & Hp & <-).
    exists p. split; [|done]. apply list_elem_of_filter. split; [|done].
    by rewrite (Hwt fk r p Hfk Hr Hp Href).
Qed.

(** *** Deleting a user or a mailbox *)

Lemma referential_action_skip delete t ids acc fk :
  fk_parent fk ≠ t -> referential_action delete t ids acc fk = acc.
Proof. intros Hne. unfold referential_action. by rewrite decide_False. Qed.

Lemma referential_action_set_null delete t ids acc c col :
  referential_action delete t ids acc (mk_fk c col t SetNull)
  = change_table acc c
      (fmap (fun r => if refers_to (mk_fk c col t SetNull) ids r then set_null col r else r)).
Proof. unfold referential_action. cbn. by rewrite decide_True. Qed.

(** A table that no key references: deleting its rows is all there is. *)
Lemma delete_rows_leaf depth t ids db :
  Forall (fun fk => fk_parent fk ≠ t) foreign_keys ->
  delete_rows (S depth) t ids db = change_table db t (filter (fun r => e_id r ∉ ids)).
Proof.
  intros Hleaf. rewrite delete_rows_S.
  generalize (change_table db t (filter (fun r => e_id r ∉ ids))).
  induction Hleaf as [|fk fks Hfk _ IH]; intros acc; [done|].
  by rewrite fold_left_cons, referential_action_skip.
Qed.

Lemma filter_ext_in {A} (P Q : A -> Prop)
    `{!forall x, Decision (P x)} `{!forall x, Decision (Q x)} (l : list A) :
  (forall x, x ∈ l -> P x <-> Q x) -> filter P l = filter Q l.
Proof.
  induction l as [|x l IH]; intros Hl; [done|].
  rewrite !filter_cons, IH by (intros y Hy; apply Hl; by right).
  destruct (Hl x (list_elem_of_here _ _)).
  destruct (decide (P x)), (decide (Q x)); tauto.
Qed.

(** With primary keys, deleting the rows that reference a key by their own
    keys is deleting the rows that reference it. *)
Lemma cascade_filter (hit : entity -> bool) (l : list entity) :
  NoDup (e_id <$> l) ->
  filter (fun r => e_id r ∉ e_id <$> filter (fun r => hit r = true) l) l
  = filter (fun r => hit r = false) l.
Proof.
  intros Hl. apply filter_ext_in. intros r Hr. split.
  - intros Hni. destruct (hit r) eqn:Hh; [|done]. exfalso. apply Hni.
    apply list_elem_of_fmap_2, list_elem_of_filter. done.
  - intros Hh (r' & Heq & [Hh' Hr']%list_elem_of_filter)%list_elem_of_fmap.
    assert (r = r') as -> by by apply (same_key l).
    congruence.
Qed.

Ltac run_actions :=
  repeat first
    [ rewrite referential_action_skip by discriminate
    | rewrite referential_action_cascade
    | rewrite referential_action_set_null ].

(** X23.  Deleting a user deletes the user's auth accounts and onboarding
    sessions, keeps the mailboxes and the activity-log rows of the user with
    their [user_id] set to NULL, and touches no other row: tenants, task
    lists, messages and routing rules are as they were. *)
Theorem user_delete_cascades (u : uuid) (db : database) :
  primary_keys db ->
  let db' := delete_from users [u] db in
  db' users = filter (fun r => e_id r ≠ u) (db users)
  ∧ db' auth_accounts = filter (fun r => e_user_id r ≠ Some u) (db auth_accounts)
  ∧ db' onboarding_sessions
    = filter (fun r => e_user_id r ≠ Some u) (db onboarding_sessions)
  ∧ db' mailboxes
    = (fun r => if bool_decide (e_user_id r = Some u) then set_null ref_user_id r else r)
        <$> db mailboxes
  ∧ db' activity_logs
    = (fun r => if bool_decide (e_user_id r = Some u) then set_null ref_user_id r else r)
        <$> db activity_logs
  ∧ db' tenants = db tenants ∧ db' tasklists = db tasklists
  ∧ db' messages = db messages ∧ db' routing_rules = db routing_rules.
Proof.
  intros Hpk db'. subst db'. unfold delete_from.
  change (length rls_enabled_tables) with (S (S 7)). generalize 7%nat. intros depth.
  rewrite delete_rows_S. unfold foreign_keys.
  rewrite !fold_left_cons. cbn [fold_left]. run_actions.
  rewrite !delete_rows_leaf by (repeat constructor; discriminate).
  assert (Hhit : forall c r,
             refers_to (mk_fk c ref_user_id users Cascade) [u] r
             = bool_decide (e_user_id r = Some u)).
  { intros c r. unfold refers_to. cbn. destruct (e_user_id r) as [x|]; [|done].
    apply bool_decide_ext. rewrite list_elem_of_singleton. split; congruence. }
  assert (Hhit' : forall c r,
             refers_to (mk_fk c ref_user_id users SetNull) [u] r
             = bool_decide (e_user_id r = Some u)) by exact Hhit.
  repeat split;
    repeat first [ rewrite change_table_same
                 | rewrite change_table_other by discriminate ].
  - apply list_filter_iff. intros r. rewrite list_elem_of_singleton. done.
  - rewrite cascade_filter by apply Hpk. apply list_filter_iff. intros r.
    rewrite Hhit. rewrite bool_decide_eq_false. done.
  - rewrite cascade_filter by apply Hpk. apply list_filter_iff. intros r.
    rewrite Hhit. rewrite bool_decide_eq_false. done.
  - apply list_fmap_ext. intros i r _. by rewrite Hhit'.
  - apply list_fmap_ext. intros i r _. by rewrite Hhit'.
Qed.

(** X24.  Deleting a mailbox deletes its messages, keeps the routing rules that
    named it with their [mailbox_id] set to NULL, and touches no other
    row. *)
Theorem mailbox_delete_cascades (m : uuid) (db : database) :
  primary_keys db ->
  let db' := delete_from mailboxes [m] db in
  db' mailboxes = filter (fun r => e_id r ≠ m) (db mailboxes)
  ∧ db' messages = filter (fun r => e_mailbox_id r ≠ Some m) (db messages)
  ∧ db' routing_rules
    = (fun r => if bool_decide (e_mailbox_id r = Some m) then set_null ref_mailbox_id r
                else r) <$> db routing_rules
  ∧ db' tenants = db tenants ∧ db' users = db users
  ∧ db' auth_accounts = db auth_accounts ∧ db' tasklists = db tasklists
  ∧ db' onboarding_sessions = db onboarding_sessions
  ∧ db' activity_logs = db activity_logs.
Proof.
  intros Hpk db'. subst db'. unfold delete_from.
  change (length rls_enabled_tables) with (S (S 7)). generalize 7%nat. intros depth.
  rewrite delete_rows_S. unfold foreign_keys.
  rewrite !fold_left_cons. cbn [fold_left]. run_actions.
  rewrite !delete_rows_leaf by (repeat constructor; discriminate).
  assert (Hhit : forall c r,
             refers_to (mk_fk c ref_mailbox_id mailboxes Cascade) [m] r
             = bool_decide (e_mailbox_id r = Some m)).
  { intros c r. unfold refers_to. cbn. destruct (e_mailbox_id r) as [x|]; [|done].
    apply bool_decide_ext. rewrite list_elem_of_singleton. split; congruence. }
  assert (Hhit' : forall c r,
             refers_to (mk_fk c ref_mailbox_id mailboxes SetNull) [m] r
             = bool_decide (e_mailbox_id r = Some m)) by exact Hhit.
  repeat split;
    repeat first [ rewrite change_table_same
                 | rewrite change_table_other by discriminate ].
  - apply list_filter_iff. intros r. rewrite list_elem_of_singleton. done.
  - rewrite cascade_filter by apply Hpk. apply list_filter_iff. intros r.
    rewrite Hhit. rewrite bool_decide_eq_false. done.
  - apply list_fmap_ext. intros i r _. by rewrite Hhit'.
Qed.
End Cascades.

(** *** The properties at the example database *)

Lemma example_primary_keys : primary_keys example_database.
Proof. intros []; apply (bool_decide_unpack _); vm_compute; exact I. Qed.

Ltac each_key Hfk :=
  unfold foreign_keys in Hfk;
  repeat (apply elem_of_cons in Hfk as [->|Hfk]); [..|by apply elem_of_nil in Hfk].

Ltac each_row Hr :=
  cbn in Hr; repeat (apply elem_of_cons in Hr as [->|Hr]); try (by apply elem_of_nil in Hr).

Lemma example_references_valid : references_valid example_database.
Proof.
  intros fk r u Hfk Hr Href. each_key Hfk; each_row Hr; cbn in Href; try done;
    injection Href as <-; cbn;
    first [ eexists; split; [apply list_elem_of_here | reflexivity]
          | eexists; split; [apply list_elem_of_further, list_elem_of_here | reflexivity] ].
Qed.

Lemma example_references_within_tenant : references_within_tenant example_database.
Proof.
  intros fk r p Hfk Hr Hp Href. each_key Hfk; each_row Hr; each_row Hp; cbn in Href;
    done.
Qed.

Lemma tenant_delete_purges_witness :
  Forall (fun r => owner mailboxes r ≠ Some 10%N)
         (delete_from tenants [10%N] crossed_database mailboxes).
Proof.
  apply Forall_forall. intros r Hr.
  exact (tenant_delete_purges 10%N crossed_database mailboxes r Hr).
Defined.

Lemma tenant_delete_spares_others_witness :
  delete_from tenants [10%N] example_database mailboxes
  = [mk_entity 31 (Some 11) (Some 21) None]%N.
Proof.
  destruct (tenant_delete_spares_others 10%N example_database example_primary_keys
              example_references_valid example_references_within_tenant) as (Hchar & _).
  refine (eq_trans (Hchar mailboxes) _). vm_compute. reflexivity.
Defined.

(** Without that assumption a tenant can lose something when another
    tenant is deleted: here the second tenant's mailbox was attached to a
    user of the first, and comes out without its user. *)
Lemma tenant_delete_reaches_across :
  delete_from tenants [10%N] crossed_database mailboxes
  = [mk_entity 31 (Some 11) None None]%N.
Proof. vm_compute. reflexivity. Qed.

Lemma user_delete_cascades_witness :
  delete_from users [20%N] example_database mailboxes
  = [mk_entity 30 (Some 10) None None; mk_entity 31 (Some 11) (Some 21) None]%N.
Proof.
  destruct (user_delete_cascades 20%N example_database example_primary_keys)
    as (_ & _ & _ & Hm & _).
  refine (eq_trans Hm _). vm_compute. reflexivity.
Defined.

Lemma mailbox_delete_cascades_witness :
  delete_from mailboxes [30%N] example_database messages = [].
Proof.
  destruct (mailbox_delete_cascades 30%N example_database example_primary_keys)
    as (_ & Hm & _).
  refine (eq_trans Hm _). vm_compute. reflexivity.
Defined.


(** * Part 6, proofs: the table definitions and the migration *)

(** The references the cascade model follows are the REFERENCES clauses of
    the CREATE TABLE statements, in their order. *)
Lemma foreign_keys_declared : declared_references = Some <$> foreign_keys.
Proof. vm_compute. reflexivity. Qed.

(** Two index columns are ordered descending in the migration; the table
    definitions give them no order. *)
Lemma descending_index_columns :
  descending_columns =
    [ ("messages_by_status_created", "created_at");
      ("messages_by_mailbox_created", "created_at") ].
Proof. vm_compute. reflexivity. Qed.

(** X25.  The table definitions of the server and the migration describe the same
    schema: the same enums with the same values in the same order, and for
    each of the nine tables the same name, the same columns in the same
    order (name, type, NOT NULL, default, primary key), and the same indexes
    (name, uniqueness, columns), every index column of a table definition
    naming a column of its table. *)
Theorem schema_descriptions_agree :
  drizzle_enums = sql_enums /\
  forall t : table_name,
    dt_name (drizzle_schema t) = table_sql_name t /\
    drizzle_columns t = sql_columns t /\
    drizzle_indexes t = Some (sql_indexes t).
Proof.
  split; [reflexivity|].
  intros t. destruct t; (split; [reflexivity|]); split; vm_compute; reflexivity.
Qed.


(** * Part 6, proofs: the build information and the port *)

Section BuildInfoText.
Local Open Scope N_scope.
Context `{Zod}.
Variable number_toString : Q -> jsstring.

(** The four properties of the build information are enumerated in the
    order in which they are written. *)
Lemma own_properties_build_info {A} (a b c d : A) :
  own_properties [ (js "name", a); (js "version", b); (js "gitSha", c); (js "builtAt", d) ]
  = [ (js "name", a); (js "version", b); (js "gitSha", c); (js "builtAt", d) ].
Proof. vm_compute. reflexivity. Qed.

(** The text of the build information, character by character. *)
Lemma stringify_build_info (n v g t : jsstring) :
  stringify_gap number_toString [32; 32] []
    (JObject [ (js "name", JString n); (js "version", JString v);
               (js "gitSha", JString g); (js "builtAt", JString t) ])
  = 123 :: 10 :: 32 :: 32 :: 34 :: js "name" ++ 34 :: 58 :: 32 :: 34 :: quote_chars n
    ++ 34 :: 44 :: 10 :: 32 :: 32 :: 34 :: js "version" ++ 34 :: 58 :: 32 :: 34 :: quote_chars v
    ++ 34 :: 44 :: 10 :: 32 :: 32 :: 34 :: js "gitSha" ++ 34 :: 58 :: 32 :: 34 :: quote_chars g
    ++ 34 :: 44 :: 10 :: 32 :: 32 :: 34 :: js "builtAt" ++ 34 :: 58 :: 32 :: 34 :: quote_chars t
    ++ [34; 10; 125].
Proof.
  cbn [stringify_gap]. rewrite own_properties_build_info.
  cbn [fmap list_fmap join fst snd]. unfold quote.
  rewrite !(quote_chars_plain (js _))
    by (repeat constructor; vm_compute; intuition discriminate).
  change (chr "{") with 123. change (chr "}") with 125.
  change (chr ":") with 58. change (chr ",") with 44.
  repeat (rewrite <- app_assoc; cbn [app]). reflexivity.
Qed.

(** One member on a line of its own whose value is a string, followed by a
    comma or by the line of the closing brace. *)
Lemma parse_indented_member fuel acc k v rest :
  is_plain k -> is_jsstring v ->
  parse_members (S (S fuel)) acc
    (10 :: 32 :: 32 :: 34 :: k ++ 34 :: 58 :: 32 :: 34 :: quote_chars v ++ 34 :: 44 :: rest)
  = parse_members (S fuel) (acc ++ [(k, JString v)]) rest
  ∧ parse_members (S (S fuel)) acc
      (10 :: 32 :: 32 :: 34 :: k ++ 34 :: 58 :: 32 :: 34 :: quote_chars v
          ++ 34 :: 10 :: 125 :: rest)
    = Some (JObject (acc ++ [(k, JString v)]), rest).
Proof.
  intros Hk Hv. split.
  all: cbn [parse_members parse_value]; parse_step.
  all: rewrite parse_plain by done; parse_step.
  all: rewrite parse_quote_chars by done; by parse_step.
Qed.

(** [JSON.parse] reads the build information back. *)
Lemma JSON_parse_build_info (n v g t : jsstring) :
  is_jsstring n -> is_jsstring v -> is_jsstring g -> is_jsstring t ->
  let value := JObject [ (js "name", JString n); (js "version", JString v);
                         (js "gitSha", JString g); (js "builtAt", JString t) ] in
  JSON_parse (stringify_gap number_toString [32; 32] [] value) = Some value.
Proof.
  intros Hn Hv Hg Ht value. subst value. unfold JSON_parse.
  rewrite stringify_build_info.
  match goal with
  | |- context [parse_value (2 * length ?text + 2)%nat] =>
      assert (Hlen : exists m, (2 * length text + 2 = 6 + m)%nat)
        by (exists (2 * length text - 4)%nat; cbn [length]; lia)
  end.
  destruct Hlen as [m ->].
  cbn [Nat.add parse_value]. parse_step.
  assert (Hplain : forall k : string,
             forallb (fun u => (32 <=? u) && (u <? 128) && negb (u =? 34) && negb (u =? 92))
                     (js k) = true -> is_plain (js k)).
  { intros k Hk. apply Forall_forall. intros u Hu.
    apply list_elem_of_In in Hu.
    pose proof (proj1 (forallb_forall _ _) Hk u Hu) as Hb.
    revert Hb. clear. cbn beta. intros Hb. repeat split; lia. }
  rewrite (proj1 (parse_indented_member _ _ (js "name") n _ (Hplain "name"%string eq_refl) Hn)).
  rewrite (proj1 (parse_indented_member _ _ (js "version") v _ (Hplain "version"%string eq_refl) Hv)).
  rewrite (proj1 (parse_indented_member _ _ (js "gitSha") g _ (Hplain "gitSha"%string eq_refl) Hg)).
  rewrite (proj2 (parse_indented_member _ _ (js "builtAt") t _ (Hplain "builtAt"%string eq_refl) Ht)).
  reflexivity.
Qed.

(** The text of the build information has no surrogate without its
    partner: writing it to the file and reading the file gives it back. *)
Lemma build_info_text_well_formed (n v g t : jsstring) :
  is_jsstring n -> is_jsstring v -> is_jsstring g -> is_jsstring t ->
  isWellFormed
    (stringify_gap number_toString [32; 32] []
       (JObject [ (js "name", JString n); (js "version", JString v);
                  (js "gitSha", JString g); (js "builtAt", JString t) ])) = true.
Proof.
  intros Hn Hv Hg Ht. rewrite stringify_build_info.
  assert (Hjs : forall (k : string) rest,
             is_ascii (js k) -> isWellFormed (js k ++ rest) = isWellFormed rest).
  { intros k rest Hk. induction Hk as [|u a Hu _ IH]; [done|].
    cbn [app]. by rewrite isWellFormed_cons_ascii. }
  repeat first
    [ rewrite isWellFormed_cons_ascii by lia
    | rewrite Hjs by (repeat constructor; vm_compute; reflexivity)
    | rewrite quote_chars_well_formed by done ].
  reflexivity.
Qed.
End BuildInfoText.

Section DecodedText.
Local Open Scope N_scope.

Lemma utf16_of_code_point_units cp :
  cp < 1114112 -> is_jsstring (utf16_of_code_point cp).
Proof.
  intros Hcp. unfold utf16_of_code_point, is_jsstring.
  destruct (cp <? 65536) eqn:Hlt; repeat constructor; div_lia.
Qed.

Lemma utf8_lead_ok b :
  is_jsstring (utf8_lead b).1 ∧ utf8_state_ok (utf8_lead b).2.
Proof.
  unfold utf8_lead, is_jsstring, replacement_character.
  repeat case_if; cbn [fst snd utf8_state_ok utf8_weight];
    repeat split; repeat constructor; try lia.
Qed.

Lemma utf8_step_ok st b :
  utf8_state_ok st ->
  is_jsstring (utf8_step st b).1 ∧ utf8_state_ok (utf8_step st b).2.
Proof.
  destruct st as [|needed cp lower upper]; [intros _; apply utf8_lead_ok|].
  intros (Hlo & Hup & Hcp). cbn [utf8_step].
  destruct ((lower <=? b) && (b <=? upper)) eqn:Hin.
  - destruct needed as [|[|n]]; cbn [fst snd].
    + split; [|done]. apply utf16_of_code_point_units.
      cbn [utf8_weight] in Hcp. lia.
    + split; [|done]. apply utf16_of_code_point_units.
      cbn [utf8_weight] in Hcp. lia.
    + split; [constructor|]. cbn [utf8_state_ok].
      change (utf8_weight (S (S n))) with (64 * utf8_weight (S n)) in Hcp.
      repeat split; [lia..|]. nia.
  - destruct (utf8_lead_ok b) as [Hout Hst].
    destruct (utf8_lead b) as [out st']. cbn [fst snd] in *.
    split; [|done]. constructor; [done|done].
Qed.

Lemma utf8_run_units st bs : utf8_state_ok st -> is_jsstring (utf8_run st bs).
Proof.
  revert st. induction bs as [|b bs IH]; intros st Hst; cbn [utf8_run].
  - destruct st; repeat constructor.
  - destruct (utf8_step_ok st b Hst) as [Hout Hst'].
    destruct (utf8_step st b) as [out st']. cbn [fst snd] in *.
    apply Forall_app. split; [done|by apply IH].
Qed.

(** Decoded text consists of code units, whatever the bytes. *)
Lemma utf8_decode_units bs : is_jsstring (utf8_decode bs).
Proof. by apply utf8_run_units. Qed.
End DecodedText.

Section ParsedText.
Local Open Scope N_scope.

Lemma json_units_array vs : json_units (JArray vs) <-> items_units vs.
Proof.
  unfold items_units. induction vs as [|v vs IH]; [by split|].
  rewrite Forall_cons. cbn [json_units] in *. by rewrite IH.
Qed.

Lemma json_units_object ms : json_units (JObject ms) <-> members_units ms.
Proof.
  unfold members_units. induction ms as [|[k v] ms IH]; [by split|].
  rewrite Forall_cons. cbn [json_units fst snd] in *. rewrite IH. tauto.
Qed.

Lemma skip_ws_units s : is_jsstring s -> is_jsstring (skip_ws s).
Proof.
  induction 1 as [|u s Hu Hs IH]; [constructor|]. cbn [skip_ws].
  destruct (is_json_whitespace u); [exact IH|by constructor].
Qed.

Lemma unhex_range c d : unhex c = Some d -> d < 16.
Proof. unfold unhex. repeat case_if; intros [= <-]; lia. Qed.

Lemma simple_escape_range c u : simple_escape c = Some u -> u < 65536.
Proof.
  unfold simple_escape. change (chr "b") with 98. change (chr "f") with 102.
  change (chr "n") with 110. change (chr "r") with 114. change (chr "t") with 116.
  repeat case_if; intros [= <-]; lia.
Qed.

Lemma parse_string_chars_units n s str out :
  (length s <= n)%nat -> is_jsstring s ->
  parse_string_chars s = Some (str, out) -> is_jsstring str ∧ is_jsstring out.
Proof.
  revert s str out. induction n as [|n IH]; intros s str out Hn Hs.
  { destruct s; [discriminate|cbn [length] in Hn; exfalso; lia]. }
  destruct s as [|c rest]; [done|]. cbn [length] in Hn.
  apply Forall_cons in Hs as [Hc Hrest]. cbn [parse_string_chars].
  destruct (c =? 34); [intros [= <- <-]; split; [constructor|exact Hrest]|].
  destruct (c =? 92).
  - destruct rest as [|e rest1]; [done|]. cbn [length] in Hn.
    apply Forall_cons in Hrest as [He Hrest1].
    destruct (e =? chr "u").
    + destruct rest1 as [|h1 [|h2 [|h3 [|h4 rest2]]]]; try done.
      cbn [length] in Hn.
      destruct (unhex h1) as [a|] eqn:Ha; [|done].
      destruct (unhex h2) as [b|] eqn:Hb; [|done].
      destruct (unhex h3) as [c'|] eqn:Hc'; [|done].
      destruct (unhex h4) as [d|] eqn:Hd; [|done].
      apply unhex_range in Ha, Hb, Hc', Hd.
      destruct (parse_string_chars rest2) as [[str' out']|] eqn:Hp; [|done].
      intros [= <- <-].
      destruct (IH rest2 str' out') as [Hstr Hout]; [lia| |done|].
      { by do 4 apply Forall_cons in Hrest1 as [_ Hrest1]. }
      split; [constructor; [lia|done]|done].
    + destruct (simple_escape e) as [u|] eqn:Hu; [|done].
      apply simple_escape_range in Hu.
      destruct (parse_string_chars rest1) as [[str' out']|] eqn:Hp; [|done].
      intros [= <- <-].
      destruct (IH rest1 str' out') as [Hstr Hout]; [lia|done|done|].
      split; [by constructor|done].
  - destruct (c <? 32); [done|].
    destruct (parse_string_chars rest) as [[str' out']|] eqn:Hp; [|done].
    intros [= <- <-].
    destruct (IH rest str' out') as [Hstr Hout]; [lia|done|done|].
    split; [by constructor|done].
Qed.

Lemma take_digits_units s ds out :
  is_jsstring s -> take_digits s = (ds, out) -> is_jsstring out.
Proof.
  intros Hs. revert ds out. induction Hs as [|c s Hc Hs IH]; intros ds out.
  - intros [= <- <-]. constructor.
  - cbn [take_digits]. destruct (is_digit c).
    + destruct (take_digits s) as [ds' out'] eqn:Ht. intros [= <- <-].
      by eapply IH.
    + intros [= <- <-]. by constructor.
Qed.

Ltac split_units :=
  repeat match goal with
         | H : is_jsstring (_ :: _) |- _ => apply Forall_cons in H as [? H]
         | H : Forall _ (_ :: _) |- _ => apply Forall_cons in H as [? H]
         end.

Lemma parse_number_units s text out :
  is_jsstring s -> parse_number s = Some (text, out) -> is_jsstring out.
Proof.
  intros Hs Hp. unfold parse_number in Hp.
  repeat case_match; simplify_eq;
    repeat (progress (split_units;
      repeat match goal with
             | H : take_digits _ = (_, ?o) |- _ =>
                 assert (is_jsstring o)
                   by (eapply take_digits_units; [|exact H];
                       unfold is_jsstring; repeat first [assumption | constructor]);
                 clear H
             end));
    unfold is_jsstring in *; repeat first [assumption | constructor].
Qed.

Lemma strip_prefix_units p s out :
  is_jsstring s -> strip_prefix p s = Some out -> is_jsstring out.
Proof.
  intros Hs. unfold strip_prefix. case_bool_decide; [|done].
  intros [= <-]. by apply Forall_drop.
Qed.

Lemma skip_ws_cons_units s c rest :
  is_jsstring s -> skip_ws s = c :: rest -> is_jsstring rest.
Proof.
  intros Hs Hws. apply skip_ws_units in Hs. rewrite Hws in Hs.
  by apply Forall_cons in Hs as [_ Hs].
Qed.

Lemma members_units_snoc acc k v :
  members_units acc -> is_jsstring k -> json_units v -> members_units (acc ++ [(k, v)]).
Proof.
  intros Hacc Hk Hv. apply Forall_app. split; [done|]. by repeat constructor.
Qed.

Lemma items_units_snoc acc v :
  items_units acc -> json_units v -> items_units (acc ++ [v]).
Proof.
  intros Hacc Hv. apply Forall_app. split; [done|]. by repeat constructor.
Qed.

(** What [JSON.parse] reads from a text of code units consists of code
    units. *)
Lemma parse_units fuel :
  (forall s v out,
      is_jsstring s -> parse_value fuel s = Some (v, out) ->
      json_units v ∧ is_jsstring out)
  ∧ (forall acc s v out,
        is_jsstring s -> members_units acc -> parse_members fuel acc s = Some (v, out) ->
        json_units v ∧ is_jsstring out)
  ∧ (forall acc s v out,
        is_jsstring s -> items_units acc -> parse_items fuel acc s = Some (v, out) ->
        json_units v ∧ is_jsstring out).
Proof.
  induction fuel as [|fuel (IHv & IHm & IHi)]; [split; [|split]; intros; discriminate|].
  split; [|split].
  - intros s v out Hs Hp. cbn [parse_value] in Hp.
    destruct (skip_ws s) as [|c rest] eqn:Hws; [done|].
    pose proof (skip_ws_cons_units _ _ _ Hs Hws) as Hrest.
    assert (Hcrest : is_jsstring (c :: rest))
      by (rewrite <- Hws; by apply skip_ws_units).
    destruct (c =? 34).
    { destruct (parse_string_chars rest) as [[str o]|] eqn:Hstr; [|done].
      injection Hp as <- <-.
      by apply (parse_string_chars_units _ _ _ _ (le_n _) Hrest Hstr). }
    destruct (c =? chr "{").
    { destruct (skip_ws rest) as [|c' rest'] eqn:Hws'; [done|].
      destruct (c' =? chr "}").
      - injection Hp as <- <-. split; [done|].
        by apply (skip_ws_cons_units _ _ _ Hrest Hws').
      - by apply (IHm [] rest); [|constructor|]. }
    destruct (c =? chr "[").
    { destruct (skip_ws rest) as [|c' rest'] eqn:Hws'; [done|].
      destruct (c' =? chr "]").
      - injection Hp as <- <-. split; [done|].
        by apply (skip_ws_cons_units _ _ _ Hrest Hws').
      - by apply (IHi [] rest); [|constructor|]. }
    destruct (c =? chr "t").
    { destruct (strip_prefix _ _) as [o|] eqn:Hpre; [|done].
      injection Hp as <- <-. split; [done|]. by eapply strip_prefix_units. }
    destruct (c =? chr "f").
    { destruct (strip_prefix _ _) as [o|] eqn:Hpre; [|done].
      injection Hp as <- <-. split; [done|]. by eapply strip_prefix_units. }
    destruct (c =? chr "n").
    { destruct (strip_prefix _ _) as [o|] eqn:Hpre; [|done].
      injection Hp as <- <-. split; [done|]. by eapply strip_prefix_units. }
    destruct (parse_number _) as [[text o]|] eqn:Hnum; [|done].
    injection Hp as <- <-. split; [done|]. by eapply parse_number_units.
  - intros acc s v out Hs Hacc Hp. cbn [parse_members] in Hp.
    destruct (skip_ws s) as [|c rest] eqn:Hws; [done|].
    pose proof (skip_ws_cons_units _ _ _ Hs Hws) as Hrest.
    destruct (c =? 34); [|done].
    destruct (parse_string_chars rest) as [[key s1]|] eqn:Hkey; [|done].
    destruct (parse_string_chars_units _ _ _ _ (le_n _) Hrest Hkey) as [Hk Hs1].
    destruct (skip_ws s1) as [|c1 s2] eqn:Hws1; [done|].
    pose proof (skip_ws_cons_units _ _ _ Hs1 Hws1) as Hs2.
    destruct (c1 =? chr ":"); [|done].
    destruct (parse_value fuel s2) as [[v' s3]|] eqn:Hv; [|done].
    destruct (IHv _ _ _ Hs2 Hv) as [Hv' Hs3].
    destruct (skip_ws s3) as [|c3 s4] eqn:Hws3; [done|].
    pose proof (skip_ws_cons_units _ _ _ Hs3 Hws3) as Hs4.
    destruct (c3 =? chr ",").
    { apply (IHm _ _ _ _ Hs4 (members_units_snoc _ _ _ Hacc Hk Hv') Hp). }
    destruct (c3 =? chr "}"); [|done].
    injection Hp as <- <-. split; [|done].
    apply json_units_object. by apply members_units_snoc.
  - intros acc s v out Hs Hacc Hp. cbn [parse_items] in Hp.
    destruct (parse_value fuel s) as [[v' s1]|] eqn:Hv; [|done].
    destruct (IHv _ _ _ Hs Hv) as [Hv' Hs1].
    destruct (skip_ws s1) as [|c s2] eqn:Hws; [done|].
    pose proof (skip_ws_cons_units _ _ _ Hs1 Hws) as Hs2.
    destruct (c =? chr ",").
    { apply (IHi _ _ _ _ Hs2 (items_units_snoc _ _ Hacc Hv') Hp). }
    destruct (c =? chr "]"); [|done].
    injection Hp as <- <-. split; [|done].
    apply json_units_array. by apply items_units_snoc.
Qed.

(** The strings of a parsed value consist of code units, and so does a
    member of a parsed object. *)
Lemma JSON_parse_units text v :
  is_jsstring text -> JSON_parse text = Some v -> json_units v.
Proof.
  intros Ht. unfold JSON_parse.
  destruct (parse_value _ text) as [[v' rest]|] eqn:Hp; [|done].
  destruct (skip_ws rest); [|done]. intros [= <-].
  by apply (proj1 (parse_units _) _ _ _ Ht Hp).
Qed.

Lemma get_member_units k ms s :
  members_units ms -> get_member k ms = Some (JString s) -> is_jsstring s.
Proof.
  induction 1 as [|[k' v] ms [_ Hv] _ IH]; [done|]. cbn [get_member].
  destruct (get_member k ms) as [v'|]; [done|].
  destruct (jsstring_eqb k' k); [|done]. by intros [= ->].
Qed.
End ParsedText.

Section BuildInformation.
Local Open Scope N_scope.
Context `{Zod}.
Variable number_toString : Q -> jsstring.

Lemma or_else_string (v : option jsstring) (d : jsstring) :
  or_else (JString <$> v) (JString d)
  = JString (match v with Some (u :: s) => u :: s | _ => d end).
Proof. by destruct v as [[|u s]|]. Qed.

Lemma get_property_units pkg k (v : option jsstring) :
  json_units pkg -> get_property pkg k = Ok (JString <$> v) ->
  from_option is_jsstring True v.
Proof.
  intros Hpkg. destruct v as [s|]; [|done]. cbn [fmap option_fmap option_map from_option].
  destruct pkg as [| | | | |ms]; try done. cbn [get_property]. intros [= Hm].
  apply json_units_object in Hpkg. by eapply get_member_units.
Qed.

Lemma gitSha_units git : is_jsstring (gitSha git).
Proof.
  destruct git as [output|]; cbn [gitSha]; [|apply js_is_jsstring].
  apply Forall_forall. intros u Hu.
  apply (proj1 (Forall_forall _ _) (utf8_decode_units output)).
  eapply elem_of_sublist; [apply Hu|]. apply trim_sublist.
Qed.

(** X26.  The server reports the build that the script recorded.  When
    [package.json] parses and its name and version are strings or missing,
    the script writes a file from which [GET /version] answers the name and
    the version of the package (the defaults ['assistant-server'] and
    ['0.0.0'] for a missing or empty one), the trimmed output of the git
    command (['unknown'] when it failed, but the empty text when it printed
    nothing) and the time of the build, not the time of the request. *)
Theorem version_reports_the_build (package_json : bytes) (git : option bytes)
    (builtAt : jsstring) (pkg : json) (name version : option jsstring) :
  JSON_parse (utf8_decode package_json) = Some pkg ->
  get_property pkg (js "name") = Ok (JString <$> name) ->
  get_property pkg (js "version") = Ok (JString <$> version) ->
  is_jsstring builtAt ->
  exists file : bytes,
    build_script number_toString (Some package_json) git builtAt = Ok file
    ∧ forall now : jsstring,
        GET_version (Some file) now
        = JObject
            [ (js "name",
               JString (match name with Some (u :: s) => u :: s | _ => js "assistant-server" end));
              (js "version",
               JString (match version with Some (u :: s) => u :: s | _ => js "0.0.0" end));
              (js "gitSha", JString (gitSha git));
              (js "builtAt", JString builtAt) ].
Proof.
  intros Hpkg Hname Hversion Hbuilt.
  pose proof (JSON_parse_units _ _ (utf8_decode_units _) Hpkg) as Hunits.
  pose proof (get_property_units _ _ _ Hunits Hname) as Hn.
  pose proof (get_property_units _ _ _ Hunits Hversion) as Hv.
  assert (Hn' : is_jsstring
                  (match name with Some (u :: s) => u :: s | _ => js "assistant-server" end)).
  { destruct name as [[|u s]|]; try apply js_is_jsstring. exact Hn. }
  assert (Hv' : is_jsstring
                  (match version with Some (u :: s) => u :: s | _ => js "0.0.0" end)).
  { destruct version as [[|u s]|]; try apply js_is_jsstring. exact Hv. }
  pose proof (gitSha_units git) as Hg.
  unfold build_script, buildInfo. rewrite Hpkg, Hname, Hversion. cbn [bind].
  rewrite !or_else_string. eexists. split; [reflexivity|].
  intros now. unfold GET_version, readBuildInfo.
  rewrite utf8_decode_encode by (by apply build_info_text_well_formed).
  by rewrite JSON_parse_build_info.
Qed.

End BuildInformation.

Lemma version_reports_the_build_witness :
  exists file : bytes,
    build_script (H := zod) (fun _ => [])
      (Some (utf8_encode (stringify (JObject [ (js "name", JString (js "assistant"));
                                               (js "version", JString (js "1.4.2")) ]))))
      (Some (utf8_encode (js "3f9c2ab") ++ [10%N]))
      (js "2024-05-01T12:00:00.000Z") = Ok file
    ∧ forall now : jsstring,
        GET_version (Some file) now
        = JObject [ (js "name", JString (js "assistant"));
                    (js "version", JString (js "1.4.2"));
                    (js "gitSha", JString (js "3f9c2ab"));
                    (js "builtAt", JString (js "2024-05-01T12:00:00.000Z")) ].
Proof.
  refine (version_reports_the_build (H := zod) (fun _ => [])
            (utf8_encode (stringify (JObject [ (js "name", JString (js "assistant"));
                                               (js "version", JString (js "1.4.2")) ])))
            (Some (utf8_encode (js "3f9c2ab") ++ [10%N]))
            (js "2024-05-01T12:00:00.000Z")
            (JObject [ (js "name", JString (js "assistant"));
                       (js "version", JString (js "1.4.2")) ])
            (Some (js "assistant")) (Some (js "1.4.2")) _ _ _ _).
  - vm_compute. reflexivity.
  - vm_compute. reflexivity.
  - vm_compute. reflexivity.
  - apply js_is_jsstring.
Defined.


